(** * Object creators of the ClickHouse operator (pkg/parser/creators.go)

    A shallow embedding of [CreateCHIObjects] and of the builders and name
    formatters it calls, followed by the properties of the generated
    Services, ConfigMaps and StatefulSets.

    Conventions of the embedding:
    - a Go [map[string]T] is a [gmap string T]; a [range] over a map visits
      its entries in an order the language leaves open, so every ranging
      function takes the visiting order as an argument (a list that is a
      permutation of the map's entries);
    - a Go slice of volume mounts is a header (array, length, capacity) into
      a store of backing arrays, so that [append] writes in place when the
      capacity allows it and the sharing created by [copy] of containers is
      visible;
    - a run-time panic (nil dereference, index out of range) is a result of
      its own;
    - logging calls ([glog.Infof]) have no effect on the result and are left
      out. *)

From stdpp Require Import base option list strings gmap fin_maps pretty.
From Stdlib Require Import Ascii ZArith Lia.

(** ** fmt.Sprintf on string arguments *)

Module Fmt.

(** What [fmt] prints for arguments that no verb consumed. *)
Fixpoint extraArgs (args : list string) : string :=
  match args with
  | [] => ""
  | [a] => "string=" +:+ a
  | a :: rest => "string=" +:+ a +:+ ", " +:+ extraArgs rest
  end.

Definition badVerb (c : ascii) (a : string) : string :=
  "%!" +:+ String c ("(string=" +:+ a +:+ ")").

Definition missingArg (c : ascii) : string :=
  "%!" +:+ String c "(MISSING)".

(** [Sprintf] for the verbs that the patterns of this package use: [%s]
    (and [%v], which prints a string the same way) and the literal [%%].
    The operands are never rescanned for verbs. *)
Fixpoint Sprintf (format : string) (args : list string) : string :=
  match format with
  | EmptyString =>
      match args with
      | [] => ""
      | _ => "%!(EXTRA " +:+ extraArgs args +:+ ")"
      end
  | String "%"%char EmptyString => "%!(NOVERB)"
  | String "%"%char (String "%"%char rest) => String "%"%char (Sprintf rest args)
  | String "%"%char (String c rest) =>
      match args with
      | [] => missingArg c +:+ Sprintf rest []
      | a :: args' =>
          (if bool_decide (c = "s"%char) || bool_decide (c = "v"%char)
           then a else badVerb c a) +:+ Sprintf rest args'
      end
  | String c rest => String c (Sprintf rest args)
  end.

End Fmt.

(** ** Constants of the package

    creators.go uses the package's constants without declaring them.  The
    name patterns and the file names are fixed by the interface description;
    every other constant is a field of [Constants]. *)

(** Modelled from the spec: the name patterns (declared in the package's
    constants file, which is not part of creators.go), as the fixed naming
    patterns of the interface give them, with [%s] for each coordinate. *)
Definition configMapCommonNamePattern : string := "chi-%s-common-configd".
Definition configMapMacrosNamePattern : string := "chi-%s-deploy-confd-%s".
Definition chiServiceNamePattern : string := "chi-%s".
Definition podServiceNamePattern : string := "chi-service-%s".
Definition statefulSetNamePattern : string := "chi-%s".
Definition podHostnamePattern : string := "chi-%s-0".
Definition namespaceDomainPattern : string := ".%s.svc.cluster.local".
Definition podFQDNPattern : string := "chi-service-%s.%s.svc.cluster.local".

(** Modelled from the spec: the seven fixed configuration file names
    (declared in the package's constants file). *)
Definition filenameRemoteServersXML : string := "remote_servers.xml".
Definition filenameZookeeperXML : string := "zookeeper.xml".
Definition filenameUsersXML : string := "users.xml".
Definition filenameProfilesXML : string := "profiles.xml".
Definition filenameQuotasXML : string := "quotas.xml".
Definition filenameSettingsXML : string := "settings.xml".
Definition filenameMacrosXML : string := "macros.xml".

(** The remaining constants: labels, ports, image, the reserved claim-name
    placeholder, the default data volume and the configuration path
    pattern.  Their values are not visible from creators.go. *)
Record Constants := {
  ChopGeneratedLabel : string;
  CHIGeneratedLabel : string;
  chDefaultAppLabel : string;
  chDefaultRPCPortName : string;
  chDefaultRPCPortNumber : Z;
  chDefaultInterServerPortName : string;
  chDefaultInterServerPortNumber : Z;
  chDefaultRestPortName : string;
  chDefaultRestPortNumber : Z;
  chDefaultDockerImage : string;
  chDefaultVolumeMountNameData : string;
  fullPathClickHouseData : string;
  useDefaultNamePlaceholder : string;
  templateDefaultsServiceClusterIP : string;
  fullPathConfigTemplate : string
}.

(** The keys of one Go map literal are distinct constants (the compiler
    rejects a literal with a repeated constant key), so the three labels
    differ pairwise. *)
Definition labels_distinct (K : Constants) : Prop :=
  ChopGeneratedLabel K ≠ CHIGeneratedLabel K ∧
  chDefaultAppLabel K ≠ ChopGeneratedLabel K ∧
  chDefaultAppLabel K ≠ CHIGeneratedLabel K.

(** ** Name formatters (creators.go, lines 427-482) *)

Definition CreateConfigMapMacrosName (chiName prefix : string) : string :=
  Fmt.Sprintf configMapMacrosNamePattern [chiName; prefix].

Definition CreateConfigMapCommonName (chiName : string) : string :=
  Fmt.Sprintf configMapCommonNamePattern [chiName].

Definition CreatePodServiceName (prefix : string) : string :=
  Fmt.Sprintf podServiceNamePattern [prefix].

Definition CreateChiServiceName (prefix : string) : string :=
  Fmt.Sprintf chiServiceNamePattern [prefix].

Definition CreateStatefulSetName (prefix : string) : string :=
  Fmt.Sprintf statefulSetNamePattern [prefix].

Definition CreatePodHostname (prefix : string) : string :=
  Fmt.Sprintf podHostnamePattern [prefix].

Definition CreateNamespaceDomainName (chiNamespace : string) : string :=
  Fmt.Sprintf namespaceDomainPattern [chiNamespace].

Definition CreatePodFQDN (chiNamespace prefix : string) : string :=
  Fmt.Sprintf podFQDNPattern [prefix; chiNamespace].

Definition CreateClickHouseConfigFullPath (K : Constants) (filename : string) : string :=
  Fmt.Sprintf (fullPathConfigTemplate K) [filename].

(** ** Kubernetes objects, as far as the creators build or read them

    Fields that the creators neither set nor read (they stay at their zero
    value in built objects and are carried along unchanged in copied ones)
    are left out. *)

Record VolumeMount := {
  vmName : string;
  vmMountPath : string;
  vmSubPath : string
}.

Definition zeroVolumeMount : VolumeMount :=
  {| vmName := ""; vmMountPath := ""; vmSubPath := "" |}.

(** A slice header: the backing array it points into, its length and its
    capacity.  The nil slice has length and capacity zero. *)
Record slice := Slice {
  s_arr : nat;
  s_len : nat;
  s_cap : nat
}.

Definition nilSlice : slice := Slice 0 0 0.

(** The store of backing arrays of volume-mount slices; an array's address is
    its position in the store. *)
Abbreviation heap := (list (list VolumeMount)).

Record ContainerPort := {
  cpName : string;
  cpContainerPort : Z
}.

Record ServicePort := {
  spName : string;
  spPort : Z
}.

Inductive VolumeSource :=
  | ConfigMapSource (localObjectReference : string)
  | OtherSource (description : string).

Record Volume := {
  volName : string;
  volSource : VolumeSource
}.

Record Container := {
  cName : string;
  cImage : string;
  cPorts : list ContainerPort;
  cVolumeMounts : slice
}.

Record PersistentVolumeClaim := {
  pvcName : string;
  pvcSpec : string
}.

Record ObjectMeta := {
  omName : string;
  omNamespace : string;
  omLabels : gmap string string
}.

Record Service := {
  svcMeta : ObjectMeta;
  svcClusterIP : string;
  svcSelector : gmap string string;
  svcPorts : list ServicePort;
  svcType : string
}.

Record ConfigMap := {
  cmMeta : ObjectMeta;
  cmData : gmap string string
}.

Record PodSpec := {
  psVolumes : list Volume;
  psContainers : list Container
}.

Record StatefulSet := {
  ssMeta : ObjectMeta;
  ssReplicas : Z;
  ssServiceName : string;
  ssSelector : gmap string string;
  ssTemplateMeta : ObjectMeta;
  ssTemplateSpec : PodSpec;
  ssVolumeClaimTemplates : list PersistentVolumeClaim
}.

(** ** The installation (API types of the chiv1 package) *)

Record ChiDeployment := {
  PodTemplate : string;
  VolumeClaimTemplate : string
}.

Record ChiPodTemplate := {
  ptName : string;
  ptContainers : list Container;
  ptVolumes : list Volume
}.

Record ChiVolumeClaimTemplate := {
  vctName : string;
  vctPersistentVolumeClaim : PersistentVolumeClaim
}.

(** Modelled from the spec: the cluster tree of the installation (its types
    are declared in the API package): clusters, each with shards of replicas,
    a replica being described by its deployment. *)
Record ChiCluster := {
  clusterName : string;
  clusterShards : list (list ChiDeployment)
}.

Record ClickHouseInstallation := {
  chiName : string;
  chiNamespace : string;
  chiClusters : list ChiCluster;
  chiPodTemplates : list ChiPodTemplate;
  chiVolumeClaimTemplates : list ChiVolumeClaimTemplate
}.

(** ** Intermediate data of one compile *)

(** Entries of the macros data are only handed on to [generateHostMacros]. *)
Abbreviation macrosDataShardDescriptionList := (list string).

(** [ssDeployments] holds pointers in the source; a key bound to a nil pointer
    behaves like an absent key (the zero value of the map's element type is
    the nil pointer), so the map is modelled on deployments directly. *)
Record genOptions := {
  deploymentCountMax : gmap string Z;
  fullDeploymentIDToFingerprint : gmap string string;
  ssDeployments : gmap string ChiDeployment;
  macrosData : gmap string macrosDataShardDescriptionList;
  commonConfigSections : gmap string string
}.

Record vcTemplatesIndexData := {
  useDefaultName : bool;
  persistentVolumeClaim : PersistentVolumeClaim
}.

Record podTemplatesIndexData := {
  containers : list Container;
  volumes : list Volume
}.

Abbreviation vcTemplatesIndex := (gmap string vcTemplatesIndexData).
Abbreviation podTemplatesIndex := (gmap string podTemplatesIndexData).

Record ObjectsMap := {
  ObjectsServices : list Service;
  ObjectsConfigMaps : list ConfigMap;
  ObjectsStatefulSets : list StatefulSet
}.

(** The functions of the package that creators.go calls and that live in
    other files: the six generators of the shared sections (the first one
    also receives the options and fills the deployment maps) and the renderer
    of the macros document.  They are taken as given; they return a value and
    leave the installation untouched. *)
Record Generators := {
  generateRemoteServersConfig : ClickHouseInstallation → genOptions → string * genOptions;
  generateZookeeperConfig : ClickHouseInstallation → string;
  generateUsersConfig : ClickHouseInstallation → string;
  generateProfilesConfig : ClickHouseInstallation → string;
  generateQuotasConfig : ClickHouseInstallation → string;
  generateSettingsConfig : ClickHouseInstallation → string;
  generateHostMacros : string → string → macrosDataShardDescriptionList → string
}.

(** Modelled from the spec: [includeNonEmpty] (defined in another file of the
    package) inserts the section under its file name only if the rendered
    text is non-empty. *)
Definition includeNonEmpty (dst : gmap string string) (key src : string) : gmap string string :=
  if bool_decide (src = "") then dst else <[key := src]> dst.

(** ** Panics and the store monad *)

Inductive panic := NilDereference | IndexOutOfRange.

Inductive result (A : Type) :=
  | Ok (a : A)
  | Panic (p : panic).
Arguments Ok {A} a.
Arguments Panic {A} p.

(** A computation over the store of backing arrays that may panic. *)
Definition M (A : Type) : Type := heap → result (A * heap).

Global Instance M_ret : MRet M := λ A a h, Ok (a, h).
Global Instance M_bind : MBind M := λ A B f m h,
  match m h with
  | Ok (a, h') => f a h'
  | Panic p => Panic p
  end.

Definition raise {A} (p : panic) : M A := λ _, Panic p.

(** Left-to-right loop with an accumulator. *)
Fixpoint foldM {A B} (f : B → A → M B) (b : B) (l : list A) : M B :=
  match l with
  | [] => mret b
  | a :: l' => b' ← f b a; foldM f b' l'
  end.

(** Left-to-right loop that builds one result per element. *)
Fixpoint forM {A B} (f : A → M B) (l : list A) : M (list B) :=
  match l with
  | [] => mret []
  | a :: l' => b ← f a; bs ← forM f l'; mret (b :: bs)
  end.

(** ** Slices over the store *)

Definition array_at (h : heap) (a : nat) : list VolumeMount :=
  default [] (h !! a).

(** The elements visible through a header. *)
Definition readSlice (h : heap) (s : slice) : list VolumeMount :=
  take (s_len s) (array_at h (s_arr s)).

(** Capacity chosen when [append] has to move to a new array: the run time
    doubles the old capacity (and rounds up to an allocation class, which
    only adds unused room to an array that nothing else points into). *)
Definition growcap (oldcap needed : nat) : nat :=
  Nat.max (2 * oldcap) needed.

(** [make([]corev1.VolumeMount, n)]: a new array of [n] zero values. *)
Definition makeSlice (n : nat) : M slice := λ h,
  Ok (Slice (length h) n n, h ++ [replicate n zeroVolumeMount]).

(** [copy(dst, src)] for a source given by its elements: the first
    [min (len dst) (len src)] elements are overwritten. *)
Definition copySlice (dst : slice) (src : list VolumeMount) : M unit := λ h,
  let n := Nat.min (s_len dst) (length src) in
  let a := array_at h (s_arr dst) in
  Ok ((), <[s_arr dst := take n src ++ drop n a]> h).

(** [append(s, x)]: in place when the capacity allows, else into a new array
    that receives the visible elements of [s]. *)
Definition append (s : slice) (x : VolumeMount) : M slice := λ h,
  if decide (s_len s < s_cap s) then
    Ok (Slice (s_arr s) (S (s_len s)) (s_cap s),
        <[s_arr s := <[s_len s := x]> (array_at h (s_arr s))]> h)
  else
    let c := growcap (s_cap s) (S (s_len s)) in
    Ok (Slice (length h) (S (s_len s)) c,
        h ++ [readSlice h s ++ x :: replicate (c - S (s_len s)) zeroVolumeMount]).

(** [s[j]] for an index below the length of [s]. *)
Definition index (s : slice) (j : nat) : M VolumeMount := λ h,
  Ok (default zeroVolumeMount (array_at h (s_arr s) !! j), h).

(** ** The builders (creators.go, lines 28-425) *)

Section Creators.

Variable K : Constants.
Variable G : Generators.

(** The two labels carried by every generated object. *)
Definition generatedLabels (chi : ClickHouseInstallation) : gmap string string :=
  {[ ChopGeneratedLabel K := chiName chi; CHIGeneratedLabel K := chiName chi ]}.

(** The port list shared by both kinds of Service (lines 122-135). *)
Definition servicePorts : list ServicePort :=
  [ {| spName := chDefaultRPCPortName K; spPort := chDefaultRPCPortNumber K |};
    {| spName := chDefaultInterServerPortName K; spPort := chDefaultInterServerPortNumber K |};
    {| spName := chDefaultRestPortName K; spPort := chDefaultRestPortNumber K |} ].

(** The installation-wide Service (lines 137-155). *)
Definition chiService (chi : ClickHouseInstallation) : Service :=
  {| svcMeta := {| omName := CreateChiServiceName (chiName chi);
                   omNamespace := chiNamespace chi;
                   omLabels := generatedLabels chi |};
     svcClusterIP := "";
     svcSelector := {[ CHIGeneratedLabel K := chiName chi ]};
     svcPorts := servicePorts;
     svcType := "LoadBalancer" |}.

(** The Service of one deployment (body of the loop, lines 159-180). *)
Definition podService (chi : ClickHouseInstallation) (fullDeploymentID : string) : Service :=
  let statefulSetName := CreateStatefulSetName fullDeploymentID in
  let serviceName := CreatePodServiceName fullDeploymentID in
  {| svcMeta := {| omName := serviceName;
                   omNamespace := chiNamespace chi;
                   omLabels := generatedLabels chi |};
     svcClusterIP := templateDefaultsServiceClusterIP K;
     svcSelector := {[ chDefaultAppLabel K := statefulSetName ]};
     svcPorts := servicePorts;
     svcType := "ClusterIP" |}.

(** [createServiceObjects]; [order] is the order in which the range of line
    158 visits [fullDeploymentIDToFingerprint]. *)
Definition createServiceObjects (chi : ClickHouseInstallation) (options : genOptions)
    (order : list (string * string)) : list Service :=
  [chiService chi] ++ ((λ e, podService chi e.1) <$> order).

(** The shared ConfigMap (lines 85-96): its data is the options' section map
    itself. *)
Definition commonConfigMap (chi : ClickHouseInstallation) (options : genOptions) : ConfigMap :=
  {| cmMeta := {| omName := CreateConfigMapCommonName (chiName chi);
                  omNamespace := chiNamespace chi;
                  omLabels := generatedLabels chi |};
     cmData := commonConfigSections options |}.

(** The private ConfigMap of one deployment (lines 101-113); a deployment
    without macros data gets the zero value, the empty list. *)
Definition macrosConfigMap (chi : ClickHouseInstallation) (options : genOptions)
    (fullDeploymentID : string) : ConfigMap :=
  {| cmMeta := {| omName := CreateConfigMapMacrosName (chiName chi) fullDeploymentID;
                  omNamespace := chiNamespace chi;
                  omLabels := generatedLabels chi |};
     cmData := {[ filenameMacrosXML :=
                    generateHostMacros G (chiName chi) fullDeploymentID
                      (default [] (macrosData options !! fullDeploymentID)) ]} |}.

(** [createConfigMapObjects]; [order] is the visiting order of the range of
    line 99. *)
Definition createConfigMapObjects (chi : ClickHouseInstallation) (options : genOptions)
    (order : list (string * string)) : list ConfigMap :=
  [commonConfigMap chi options] ++ ((λ e, macrosConfigMap chi options e.1) <$> order).

(** [createVolume] (lines 352-363). *)
Definition createVolume (name : string) : Volume :=
  {| volName := name; volSource := ConfigMapSource name |}.

(** [createDefaultContainerTemplate] (lines 366-390); the installation
    argument is not used by the source either. *)
Definition createDefaultContainerTemplate (name : string) (volumeMounts : slice) : Container :=
  {| cName := name;
     cImage := chDefaultDockerImage K;
     cPorts :=
       [ {| cpName := chDefaultRPCPortName K; cpContainerPort := chDefaultRPCPortNumber K |};
         {| cpName := chDefaultInterServerPortName K;
            cpContainerPort := chDefaultInterServerPortNumber K |};
         {| cpName := chDefaultRestPortName K; cpContainerPort := chDefaultRestPortNumber K |} ];
     cVolumeMounts := volumeMounts |}.

(** One turn of the loop of [createVolumeClaimTemplatesIndex] on the
    template itself (lines 399-403): a claim named by the placeholder is
    renamed in the installation, and the flag records it. *)
Definition resolveClaimName (t : ChiVolumeClaimTemplate) : ChiVolumeClaimTemplate * bool :=
  if bool_decide (pvcName (vctPersistentVolumeClaim t) = useDefaultNamePlaceholder K)
  then ({| vctName := vctName t;
           vctPersistentVolumeClaim :=
             {| pvcName := chDefaultVolumeMountNameData K;
                pvcSpec := pvcSpec (vctPersistentVolumeClaim t) |} |}, true)
  else (t, false).

(** The loop of lines 395-408 over the remaining templates: returns the
    index and the templates as the loop leaves them in the installation.  The
    source stores in the index a pointer to the claim inside the
    installation; that claim is written only in its own turn, before the
    pointer is taken, so the value stored here is the one any later
    dereference reads. *)
Fixpoint vcTemplatesLoop (ts : list ChiVolumeClaimTemplate) (index : vcTemplatesIndex)
    : vcTemplatesIndex * list ChiVolumeClaimTemplate :=
  match ts with
  | [] => (index, [])
  | t :: rest =>
      let '(t', flag) := resolveClaimName t in
      let index' :=
        <[ vctName t' := {| useDefaultName := flag;
                            persistentVolumeClaim := vctPersistentVolumeClaim t' |} ]> index in
      let '(index'', rest') := vcTemplatesLoop rest index' in
      (index'', t' :: rest')
  end.

(** [createVolumeClaimTemplatesIndex] (lines 393-410): the index, and the
    installation as the function leaves it. *)
Definition createVolumeClaimTemplatesIndex (chi : ClickHouseInstallation)
    : vcTemplatesIndex * ClickHouseInstallation :=
  let '(index, ts) := vcTemplatesLoop (chiVolumeClaimTemplates chi) ∅ in
  (index, {| chiName := chiName chi;
             chiNamespace := chiNamespace chi;
             chiClusters := chiClusters chi;
             chiPodTemplates := chiPodTemplates chi;
             chiVolumeClaimTemplates := ts |}).

(** [createPodTemplatesIndex] (lines 413-425): the stored container list
    shares the installation's containers, mount slices included. *)
Definition createPodTemplatesIndex (chi : ClickHouseInstallation) : podTemplatesIndex :=
  foldl (λ index podTemplate,
           <[ ptName podTemplate := {| containers := ptContainers podTemplate;
                                       volumes := ptVolumes podTemplate |} ]> index)
        ∅ (chiPodTemplates chi).

(** The common mounts (lines 198-210), one per section in the visiting order
    of the range of line 201.  The slice is local to the function and only
    read afterwards, so its elements are kept as a list. *)
Definition commonVolumeMountsOf (configMapCommonName : string)
    (order : list (string * string)) : list VolumeMount :=
  (λ e, {| vmName := configMapCommonName;
           vmMountPath := CreateClickHouseConfigFullPath K e.1;
           vmSubPath := e.1 |}) <$> order.

Definition macrosVolumeMount (configMapMacrosName : string) : VolumeMount :=
  {| vmName := configMapMacrosName;
     vmMountPath := CreateClickHouseConfigFullPath K filenameMacrosXML;
     vmSubPath := filenameMacrosXML |}.

Definition dataVolumeMount : VolumeMount :=
  {| vmName := chDefaultVolumeMountNameData K;
     vmMountPath := fullPathClickHouseData K;
     vmSubPath := "" |}.

(** Lines 224-234: a new slice with the common mounts, then the macros
    mount appended. *)
Definition currentVolumeMountsOf (commonVolumeMounts : list VolumeMount)
    (configMapMacrosName : string) : M slice :=
  currentVolumeMounts ← makeSlice (length commonVolumeMounts);
  _ ← copySlice currentVolumeMounts commonVolumeMounts;
  append currentVolumeMounts (macrosVolumeMount configMapMacrosName).

Definition withVolumeMounts (c : Container) (s : slice) : Container :=
  {| cName := cName c; cImage := cImage c; cPorts := cPorts c; cVolumeMounts := s |}.

(** Lines 295-300, for one container: every current mount is appended to the
    container's mount slice in turn. *)
Definition appendIndexed (currentVolumeMounts : slice) (s : slice) (j : nat) : M slice :=
  x ← index currentVolumeMounts j;
  append s x.

Definition appendCurrent (currentVolumeMounts : slice) (c : Container) : M Container :=
  s ← foldM (appendIndexed currentVolumeMounts)
            (cVolumeMounts c) (seq 0 (s_len currentVolumeMounts));
  mret (withVolumeMounts c s).

(** Lines 275-312: the volumes and containers of the pod, from the pod
    template when the index has it, else the default container.  [copy] of
    the template's containers copies each container's mount-slice header, not
    the array behind it. *)
Definition podVolumesAndContainers (podTemplatesIndex : podTemplatesIndex)
    (podTemplate statefulSetName : string) (currentVolumeMounts : slice)
    : M (list Volume * list Container) :=
  match podTemplatesIndex !! podTemplate with
  | Some podTemplateData =>
      cs ← forM (appendCurrent currentVolumeMounts) (containers podTemplateData);
      mret (volumes podTemplateData, cs)
  | None =>
      mret ([], [] ++ [createDefaultContainerTemplate statefulSetName currentVolumeMounts])
  end.

(** Lines 326-341: the volume claim template and, for a template that takes
    the default name, the data mount on the first container. *)
Definition claimTemplates (volumeClaimTemplatesIndex : vcTemplatesIndex)
    (volumeClaimTemplate : string) (cs : list Container)
    : M (list Container * list PersistentVolumeClaim) :=
  match volumeClaimTemplatesIndex !! volumeClaimTemplate with
  | Some volumeClaimTemplateData =>
      let claims := [persistentVolumeClaim volumeClaimTemplateData] in
      if useDefaultName volumeClaimTemplateData then
        match cs with
        | [] => raise IndexOutOfRange
        | c0 :: rest =>
            s ← append (cVolumeMounts c0) dataVolumeMount;
            mret (withVolumeMounts c0 s :: rest, claims)
        end
      else mret (cs, claims)
  | None => mret (cs, [])
  end.

(** The body of the loop of lines 215-346 for one entry of
    [fullDeploymentIDToFingerprint]. *)
Definition createStatefulSetObject (chi : ClickHouseInstallation) (options : genOptions)
    (volumeClaimTemplatesIndex : vcTemplatesIndex) (podTemplatesIndex : podTemplatesIndex)
    (commonVolumeMounts : list VolumeMount) (entry : string * string) : M StatefulSet :=
  let fullDeploymentID := entry.1 in
  let fingerprint := entry.2 in
  let configMapCommonName := CreateConfigMapCommonName (chiName chi) in
  let statefulSetName := CreateStatefulSetName fullDeploymentID in
  let serviceName := CreatePodServiceName fullDeploymentID in
  let configMapMacrosName := CreateConfigMapMacrosName (chiName chi) fullDeploymentID in
  match ssDeployments options !! fingerprint with
  | None => raise NilDereference
  | Some deployment =>
      let volumeClaimTemplate := VolumeClaimTemplate deployment in
      let podTemplate := PodTemplate deployment in
      currentVolumeMounts ← currentVolumeMountsOf commonVolumeMounts configMapMacrosName;
      '(vols, cs) ← podVolumesAndContainers podTemplatesIndex podTemplate statefulSetName
                      currentVolumeMounts;
      let vols := (vols ++ [createVolume configMapCommonName])
                    ++ [createVolume configMapMacrosName] in
      '(cs, claims) ← claimTemplates volumeClaimTemplatesIndex volumeClaimTemplate cs;
      mret {| ssMeta := {| omName := statefulSetName;
                           omNamespace := chiNamespace chi;
                           omLabels := generatedLabels chi |};
              ssReplicas := 1;
              ssServiceName := serviceName;
              ssSelector := {[ chDefaultAppLabel K := statefulSetName ]};
              ssTemplateMeta :=
                {| omName := statefulSetName;
                   omNamespace := "";
                   omLabels := {[ chDefaultAppLabel K := statefulSetName;
                                  ChopGeneratedLabel K := chiName chi;
                                  CHIGeneratedLabel K := chiName chi ]} |};
              ssTemplateSpec := {| psVolumes := vols; psContainers := cs |};
              ssVolumeClaimTemplates := claims |}
  end.

(** [createStatefulSetObjects] (lines 188-349).  [mountOrder] is the visiting
    order of the range over [commonConfigSections] (line 201), [order] the
    one of the range over [fullDeploymentIDToFingerprint] (line 215).  The
    installation is returned as the function leaves it. *)
Definition createStatefulSetObjects (chi : ClickHouseInstallation) (options : genOptions)
    (mountOrder order : list (string * string))
    : M (list StatefulSet * ClickHouseInstallation) :=
  let configMapCommonName := CreateConfigMapCommonName (chiName chi) in
  let '(volumeClaimTemplatesIndex, chi') := createVolumeClaimTemplatesIndex chi in
  let podTemplatesIndex := createPodTemplatesIndex chi' in
  let commonVolumeMounts := commonVolumeMountsOf configMapCommonName mountOrder in
  statefulSetList ← forM (createStatefulSetObject chi' options volumeClaimTemplatesIndex
                            podTemplatesIndex commonVolumeMounts) order;
  mret (statefulSetList, chi').

(** The visiting orders of the five ranges over maps in one compile. *)
Record Schedule := {
  idsOrder : list (string * string);
  servicesOrder : list (string * string);
  configMapsOrder : list (string * string);
  mountsOrder : list (string * string);
  statefulSetsOrder : list (string * string)
}.

(** Lines 31-44: the options with their maps allocated. *)
Definition newOptions (countMax : gmap string Z) : genOptions :=
  {| deploymentCountMax := countMax;
     fullDeploymentIDToFingerprint := ∅;
     ssDeployments := ∅;
     macrosData := ∅;
     commonConfigSections := ∅ |}.

(** Lines 45-50: the options after the generators have run and the non-empty
    sections are in place. *)
Definition prepareOptions (chi : ClickHouseInstallation) (countMax : gmap string Z)
    : genOptions :=
  let '(remoteServers, options) := generateRemoteServersConfig G chi (newOptions countMax) in
  let sections := includeNonEmpty (commonConfigSections options)
                    filenameRemoteServersXML remoteServers in
  let sections := includeNonEmpty sections filenameZookeeperXML (generateZookeeperConfig G chi) in
  let sections := includeNonEmpty sections filenameUsersXML (generateUsersConfig G chi) in
  let sections := includeNonEmpty sections filenameProfilesXML (generateProfilesConfig G chi) in
  let sections := includeNonEmpty sections filenameQuotasXML (generateQuotasConfig G chi) in
  let sections := includeNonEmpty sections filenameSettingsXML (generateSettingsConfig G chi) in
  {| deploymentCountMax := deploymentCountMax options;
     fullDeploymentIDToFingerprint := fullDeploymentIDToFingerprint options;
     ssDeployments := ssDeployments options;
     macrosData := macrosData options;
     commonConfigSections := sections |}.

(** [CreateCHIObjects] (lines 30-66): the objects, the slice of deployment
    ids, and the installation as the compile leaves it. *)
Definition CreateCHIObjects (sch : Schedule) (chi : ClickHouseInstallation)
    (countMax : gmap string Z)
    : M (ObjectsMap * list string * ClickHouseInstallation) :=
  let options := prepareOptions chi countMax in
  let fullDeploymentIDs := (idsOrder sch).*1 in
  let services := createServiceObjects chi options (servicesOrder sch) in
  let configMaps := createConfigMapObjects chi options (configMapsOrder sch) in
  '(statefulSets, chi') ← createStatefulSetObjects chi options
                            (mountsOrder sch) (statefulSetsOrder sch);
  mret ({| ObjectsServices := services;
           ObjectsConfigMaps := configMaps;
           ObjectsStatefulSets := statefulSets |}, fullDeploymentIDs, chi').

(** A schedule fits the options when each of its orders lists the entries of
    the map it ranges over, each once. *)
Definition schedule_ok (sch : Schedule) (options : genOptions) : Prop :=
  idsOrder sch ≡ₚ map_to_list (fullDeploymentIDToFingerprint options) ∧
  servicesOrder sch ≡ₚ map_to_list (fullDeploymentIDToFingerprint options) ∧
  configMapsOrder sch ≡ₚ map_to_list (fullDeploymentIDToFingerprint options) ∧
  mountsOrder sch ≡ₚ map_to_list (commonConfigSections options) ∧
  statefulSetsOrder sch ≡ₚ map_to_list (fullDeploymentIDToFingerprint options).

End Creators.

(** * Properties *)

(** ** Names *)

Section Names.

Lemma append_cons (c : ascii) (s t : string) : String c s +:+ t = String c (s +:+ t).
Proof. reflexivity. Qed.

Lemma append_empty_r (s : string) : s +:+ "" = s.
Proof. induction s as [|c s IH]; [done | by rewrite append_cons, IH]. Qed.

Lemma append_inj_l (s a b : string) : s +:+ a = s +:+ b → a = b.
Proof. induction s as [|c s IH]; [done | rewrite !append_cons; intros [=]; auto]. Qed.

(** The closed forms of the formatters. *)
Lemma CreateConfigMapCommonName_eq I :
  CreateConfigMapCommonName I = "chi-" +:+ I +:+ "-common-configd".
Proof. reflexivity. Qed.

Lemma CreateConfigMapMacrosName_eq I D :
  CreateConfigMapMacrosName I D = "chi-" +:+ I +:+ "-deploy-confd-" +:+ D.
Proof.
  transitivity ("chi-" +:+ I +:+ "-deploy-confd-" +:+ (D +:+ "")); [done|].
  by rewrite append_empty_r.
Qed.

Lemma CreateChiServiceName_eq I : CreateChiServiceName I = "chi-" +:+ I.
Proof. transitivity ("chi-" +:+ (I +:+ "")); [done | by rewrite append_empty_r]. Qed.

Lemma CreatePodServiceName_eq D : CreatePodServiceName D = "chi-service-" +:+ D.
Proof. transitivity ("chi-service-" +:+ (D +:+ "")); [done | by rewrite append_empty_r]. Qed.

Lemma CreateStatefulSetName_eq D : CreateStatefulSetName D = "chi-" +:+ D.
Proof. transitivity ("chi-" +:+ (D +:+ "")); [done | by rewrite append_empty_r]. Qed.

Lemma CreatePodHostname_eq D : CreatePodHostname D = "chi-" +:+ D +:+ "-0".
Proof. reflexivity. Qed.

Lemma CreateNamespaceDomainName_eq N :
  CreateNamespaceDomainName N = "." +:+ N +:+ ".svc.cluster.local".
Proof. reflexivity. Qed.

Lemma CreatePodFQDN_eq N D :
  CreatePodFQDN N D = "chi-service-" +:+ D +:+ "." +:+ N +:+ ".svc.cluster.local".
Proof. reflexivity. Qed.

Global Instance CreateStatefulSetName_inj : Inj (=) (=) CreateStatefulSetName.
Proof.
  intros a b. rewrite !CreateStatefulSetName_eq. apply (append_inj_l "chi-").
Qed.

Global Instance CreatePodServiceName_inj : Inj (=) (=) CreatePodServiceName.
Proof.
  intros a b. rewrite !CreatePodServiceName_eq. apply (append_inj_l "chi-service-").
Qed.

Global Instance CreateConfigMapMacrosName_inj I : Inj (=) (=) (CreateConfigMapMacrosName I).
Proof.
  intros a b. rewrite !CreateConfigMapMacrosName_eq. intros H.
  apply (append_inj_l "chi-") in H. apply append_inj_l in H.
  by apply (append_inj_l "-deploy-confd-") in H.
Qed.

(** The shared ConfigMap never bears the name of a private one. *)
Lemma common_name_not_macros I D :
  CreateConfigMapCommonName I ≠ CreateConfigMapMacrosName I D.
Proof.
  rewrite CreateConfigMapCommonName_eq, CreateConfigMapMacrosName_eq. intros H.
  apply (append_inj_l "chi-") in H. apply append_inj_l in H. discriminate H.
Qed.

End Names.

(** ** The store monad *)

Section Monad.

Context {A B : Type}.

Lemma bind_Ok (m : M A) (f : A → M B) (h : heap) (b : B) (h' : heap) :
  (m ≫= f) h = Ok (b, h') ↔ ∃ a h1, m h = Ok (a, h1) ∧ f a h1 = Ok (b, h').
Proof.
  unfold mbind, M_bind. split.
  - destruct (m h) as [[a h1]|p]; [eauto | done].
  - by intros (a & h1 & -> & ?).
Qed.

Lemma ret_Ok (a : A) (h : heap) (a' : A) (h' : heap) :
  mret (M := M) a h = Ok (a', h') ↔ a = a' ∧ h = h'.
Proof. unfold mret, M_ret. split; [by intros [= -> ->] | by intros [-> ->]]. Qed.

End Monad.

(** A computation that returns from every store. *)
Definition total {A} (m : M A) : Prop := ∀ h, ∃ a h', m h = Ok (a, h').

Lemma total_ret {A} (a : A) : total (mret a).
Proof. intros h. by exists a, h. Qed.

Lemma total_bind {A B} (m : M A) (f : A → M B) :
  total m → (∀ a, total (f a)) → total (m ≫= f).
Proof.
  intros Hm Hf h. destruct (Hm h) as (a & h1 & E).
  destruct (Hf a h1) as (b & h2 & E'). exists b, h2.
  unfold mbind, M_bind. by rewrite E.
Qed.

Lemma total_foldM {A B} (f : B → A → M B) (l : list A) (b : B) :
  (∀ b a, total (f b a)) → total (foldM f b l).
Proof.
  intros Hf. revert b. induction l as [|a l IH]; intros b; simpl.
  - apply total_ret.
  - apply total_bind; auto.
Qed.

Lemma total_forM {A B} (f : A → M B) (l : list A) :
  (∀ a, total (f a)) → total (forM f l).
Proof.
  intros Hf. induction l as [|a l IH]; simpl.
  - apply total_ret.
  - apply total_bind; [done|]. intros b. apply total_bind; [done|].
    intros bs. apply total_ret.
Qed.

(** ** Slices *)

(** A header is valid in a store when its length is within its capacity and,
    unless the capacity is zero, its array exists and is as long as the
    capacity. *)
Definition slice_ok (h : heap) (s : slice) : Prop :=
  s_len s ≤ s_cap s ∧
  (s_cap s = 0 ∨ (s_arr s < length h ∧ s_cap s ≤ length (array_at h (s_arr s)))).

(** No room behind the visible elements: [append] has to move. *)
Definition tight (s : slice) : Prop := s_cap s ≤ s_len s.

(** [append] to [s] does not write into an array at an address in
    [[lo, p)]. *)
Definition safe (lo p : nat) (s : slice) : Prop :=
  tight s ∨ s_arr s < lo ∨ p ≤ s_arr s.

(** The store [g'] has all the arrays of [g], and those at the addresses in
    [[lo, p)] unchanged. *)
Definition frame (lo p : nat) (g g' : heap) : Prop :=
  length g ≤ length g' ∧ ∀ a, lo ≤ a → a < p → g' !! a = g !! a.

Lemma frame_refl lo p g : frame lo p g g.
Proof. by split. Qed.

Lemma frame_trans lo p g1 g2 g3 :
  frame lo p g1 g2 → frame lo p g2 g3 → frame lo p g1 g3.
Proof.
  intros [L1 F1] [L2 F2]. split; [lia|]. intros a ? ?.
  rewrite F2, F1; auto.
Qed.

Lemma frame_weaken lo p q g g' : q ≤ p → frame lo p g g' → frame lo q g g'.
Proof. intros ? [L F]. split; [done|]. intros a ? ?. apply F; lia. Qed.

Lemma readSlice_length h s : slice_ok h s → length (readSlice h s) = s_len s.
Proof.
  intros [L [Z|[_ C]]]; unfold readSlice; rewrite length_take; lia.
Qed.

Lemma readSlice_stable g g' s :
  g' !! s_arr s = g !! s_arr s → readSlice g' s = readSlice g s.
Proof. unfold readSlice, array_at. by intros ->. Qed.

Lemma slice_ok_stable g g' s :
  length g ≤ length g' → g' !! s_arr s = g !! s_arr s →
  slice_ok g s → slice_ok g' s.
Proof.
  intros L E [? [?|[? ?]]]; split; auto. right. unfold array_at in *.
  rewrite E. split; [lia | done].
Qed.

Lemma growcap_ge c n : n ≤ growcap c n.
Proof. unfold growcap. lia. Qed.

(** The two ways of [append]. *)
Lemma append_cases s x h :
  (s_len s < s_cap s ∧
   append s x h = Ok (Slice (s_arr s) (S (s_len s)) (s_cap s),
                      <[s_arr s := <[s_len s := x]> (array_at h (s_arr s))]> h)) ∨
  (tight s ∧
   append s x h =
     Ok (Slice (length h) (S (s_len s)) (growcap (s_cap s) (S (s_len s))),
         h ++ [readSlice h s ++ x ::
                 replicate (growcap (s_cap s) (S (s_len s)) - S (s_len s)) zeroVolumeMount])).
Proof.
  unfold append, tight. destruct (decide (s_len s < s_cap s)); [left | right]; split; auto; lia.
Qed.

Lemma total_append s x : total (append s x).
Proof. intros h. destruct (append_cases s x h) as [[_ ->]|[_ ->]]; eauto. Qed.

Lemma append_len s x h s' h' :
  append s x h = Ok (s', h') → s_len s' = S (s_len s).
Proof.
  destruct (append_cases s x h) as [[_ ->]|[_ ->]]; by intros [= <- <-].
Qed.

Lemma append_frame lo p s x g s' g' :
  p ≤ length g → safe lo p s → append s x g = Ok (s', g') →
  frame lo p g g' ∧ safe lo p s'.
Proof.
  intros Hp Hs. destruct (append_cases s x g) as [[Hlt ->]|[Ht ->]]; intros [= <- <-].
  - destruct Hs as [Ht|Hs]; [unfold tight in Ht; lia|]. split.
    + split; [by rewrite length_insert|]. intros a ? ?.
      apply list_lookup_insert_ne. lia.
    + right. done.
  - split.
    + split; [rewrite length_app; lia|]. intros a ? ?. apply lookup_app_l. lia.
    + right. right. simpl. lia.
Qed.

Lemma append_read s x g s' g' :
  slice_ok g s → append s x g = Ok (s', g') →
  slice_ok g' s' ∧ readSlice g' s' = readSlice g s ++ [x].
Proof.
  intros Hok. pose proof (readSlice_length _ _ Hok) as Hlen.
  destruct Hok as [L C].
  destruct (append_cases s x g) as [[Hlt ->]|[Ht ->]]; intros [= <- <-].
  - destruct C as [?|[Ha Hc]]; [lia|].
    assert (array_at (<[s_arr s:=<[s_len s:=x]> (array_at g (s_arr s))]> g) (s_arr s)
            = <[s_len s:=x]> (array_at g (s_arr s))) as E.
    { unfold array_at at 1. by rewrite list_lookup_insert_eq. }
    split.
    + split; simpl; [lia|]. right. rewrite length_insert. split; [done|].
      rewrite E, length_insert. done.
    + unfold readSlice. simpl. rewrite E.
      rewrite (take_S_r _ _ x); [by rewrite take_insert_ge|].
      apply list_lookup_insert_eq. lia.
  - assert (array_at (g ++ [readSlice g s ++ x ::
                replicate (growcap (s_cap s) (S (s_len s)) - S (s_len s)) zeroVolumeMount])
              (length g)
            = readSlice g s ++ x ::
                replicate (growcap (s_cap s) (S (s_len s)) - S (s_len s)) zeroVolumeMount) as E.
    { unfold array_at at 1. by rewrite list_lookup_middle. }
    pose proof (growcap_ge (s_cap s) (S (s_len s))).
    split.
    + split; simpl; [done|]. right. rewrite length_app. simpl. split; [lia|].
      rewrite E, length_app. simpl. rewrite length_replicate. lia.
    + unfold readSlice at 1. simpl. rewrite E.
      rewrite (cons_middle x), app_assoc.
      rewrite take_app_length'; [done|]. rewrite length_app. simpl. lia.
Qed.

Lemma append_fresh p s x g s' g' :
  p ≤ length g → p ≤ s_arr s ∨ tight s → append s x g = Ok (s', g') → p ≤ s_arr s'.
Proof.
  intros Hp Hs. destruct (append_cases s x g) as [[Hlt ->]|[Ht ->]]; intros [= <- <-]; simpl.
  - destruct Hs as [?|Ht]; [done | unfold tight in Ht; lia].
  - done.
Qed.

Lemma append_grows s x g s' g' :
  append s x g = Ok (s', g') → length g ≤ length g'.
Proof.
  destruct (append_cases s x g) as [[Hlt ->]|[Ht ->]]; intros [= <- <-].
  - by rewrite length_insert.
  - rewrite length_app. lia.
Qed.

Lemma slice_ok_arr g s : slice_ok g s → 0 < s_len s → s_arr s < length g.
Proof. intros [? [?|[? ?]]] ?; lia. Qed.

Lemma total_appendIndexed cur s j : total (appendIndexed cur s j).
Proof.
  apply total_bind; [|intros x; apply total_append].
  intros h. unfold index. eauto.
Qed.

Lemma appendIndexed_inv cur s j g s' g' :
  appendIndexed cur s j g = Ok (s', g') →
  append s (default zeroVolumeMount (array_at g (s_arr cur) !! j)) g = Ok (s', g').
Proof.
  unfold appendIndexed. intros (x & h1 & Hi & Ha)%bind_Ok.
  unfold index in Hi. by injection Hi as <- <-.
Qed.

Lemma foldM_appendIndexed_frame lo p cur js : ∀ s g s' g',
  p ≤ length g → safe lo p s →
  foldM (appendIndexed cur) s js g = Ok (s', g') →
  frame lo p g g' ∧ safe lo p s'.
Proof.
  induction js as [|j js IH]; intros s g s' g' Hp Hs; simpl.
  - intros [<- <-]%ret_Ok. split; [apply frame_refl | done].
  - intros (s1 & g1 & H1 & H2)%bind_Ok. apply appendIndexed_inv in H1.
    destruct (append_frame _ _ _ _ _ _ _ Hp Hs H1) as [F1 S1].
    destruct (IH s1 g1 s' g') as [F2 S2]; auto.
    { destruct F1. lia. }
    split; [by eapply frame_trans | done].
Qed.

Lemma foldM_appendIndexed_fresh p cur js : ∀ s g s' g',
  p ≤ length g → p ≤ s_arr s ∨ (tight s ∧ js ≠ []) →
  foldM (appendIndexed cur) s js g = Ok (s', g') → p ≤ s_arr s'.
Proof.
  induction js as [|j js IH]; intros s g s' g' Hp Hs; simpl.
  - intros [<- <-]%ret_Ok. destruct Hs as [?|[_ ?]]; done.
  - intros (s1 & g1 & H1 & H2)%bind_Ok. apply appendIndexed_inv in H1.
    eapply (IH s1 g1); [|left|done].
    + apply append_grows in H1. lia.
    + eapply append_fresh; [done| |done]. destruct Hs as [?|[? _]]; auto.
Qed.

Lemma foldM_appendIndexed_len cur js : ∀ s g s' g',
  foldM (appendIndexed cur) s js g = Ok (s', g') → s_len s' = s_len s + length js.
Proof.
  induction js as [|j js IH]; intros s g s' g'; simpl.
  - intros [<- <-]%ret_Ok. lia.
  - intros (s1 & g1 & H1 & H2)%bind_Ok. apply appendIndexed_inv in H1.
    apply append_len in H1. apply IH in H2. lia.
Qed.

Lemma foldM_appendIndexed_read lo p cur js : ∀ s g s' g',
  slice_ok g s → p ≤ length g → safe lo p s → lo ≤ s_arr cur → s_arr cur < p →
  foldM (appendIndexed cur) s js g = Ok (s', g') →
  slice_ok g' s' ∧
  readSlice g' s' =
    readSlice g s ++ ((λ j, default zeroVolumeMount (array_at g (s_arr cur) !! j)) <$> js).
Proof.
  induction js as [|j js IH]; intros s g s' g' Hok Hp Hs Hlo Hc; simpl.
  - intros [<- <-]%ret_Ok. by rewrite app_nil_r.
  - intros (s1 & g1 & H1 & H2)%bind_Ok. apply appendIndexed_inv in H1.
    destruct (append_frame _ _ _ _ _ _ _ Hp Hs H1) as [[L1 F1] S1].
    destruct (append_read _ _ _ _ _ Hok H1) as [Hok1 R1].
    destruct (IH s1 g1 s' g') as [Hok' R']; auto; [lia|].
    split; [done|]. rewrite R', R1, <- app_assoc. simpl.
    unfold array_at. by rewrite (F1 (s_arr cur)).
Qed.

Lemma fmap_lookup_seq {A} (d : A) (l : list A) n :
  n ≤ length l → (λ j, default d (l !! j)) <$> seq 0 n = take n l.
Proof.
  induction n as [|n IH]; intros Hn; [by rewrite take_0|].
  rewrite seq_S, fmap_app, IH by lia. simpl.
  destruct (lookup_lt_is_Some_2 l n) as [x Hx]; [lia|].
  by rewrite (take_S_r _ _ x), Hx.
Qed.

Lemma readSlice_seq g s :
  slice_ok g s →
  (λ j, default zeroVolumeMount (array_at g (s_arr s) !! j)) <$> seq 0 (s_len s)
  = readSlice g s.
Proof.
  intros [L C]. unfold readSlice. destruct C as [Z|[_ C]].
  - assert (s_len s = 0) as -> by lia. by rewrite take_0.
  - apply fmap_lookup_seq. lia.
Qed.

Lemma total_appendCurrent cur c : total (appendCurrent cur c).
Proof.
  apply total_bind; [|intros; apply total_ret].
  apply total_foldM. intros. apply total_appendIndexed.
Qed.

(** A store that only grew: every array of [g] is in [g'] unchanged. *)
Lemma frame0_stable g g' s :
  frame 0 (length g) g g' → slice_ok g s →
  slice_ok g' s ∧ readSlice g' s = readSlice g s.
Proof.
  intros [L F] Hok. destruct (decide (s_arr s < length g)) as [Hlt|Hge].
  - split; [eapply slice_ok_stable; eauto; apply F; lia|].
    apply readSlice_stable, F; lia.
  - destruct Hok as [Hl [Z|[? ?]]]; [|lia].
    split; [split; auto|]. unfold readSlice.
    assert (s_len s = 0) as -> by lia. by rewrite !take_0.
Qed.

Lemma appendCurrent_frame lo cur tc g c g' :
  safe lo (length g) (cVolumeMounts tc) →
  appendCurrent cur tc g = Ok (c, g') →
  frame lo (length g) g g' ∧ c = withVolumeMounts tc (cVolumeMounts c) ∧
  safe lo (length g) (cVolumeMounts c) ∧
  s_len (cVolumeMounts c) = s_len (cVolumeMounts tc) + s_len cur.
Proof.
  intros Hs. unfold appendCurrent. intros (s' & g1 & H1 & [<- <-]%ret_Ok)%bind_Ok.
  destruct (foldM_appendIndexed_frame _ _ _ _ _ _ _ _ (Nat.le_refl _) Hs H1) as [F S].
  apply foldM_appendIndexed_len in H1. rewrite length_seq in H1. done.
Qed.

Lemma appendCurrent_read cur tc g c g' :
  slice_ok g cur → 0 < s_len cur →
  slice_ok g (cVolumeMounts tc) → tight (cVolumeMounts tc) →
  appendCurrent cur tc g = Ok (c, g') →
  frame 0 (length g) g g' ∧ c = withVolumeMounts tc (cVolumeMounts c) ∧
  slice_ok g' (cVolumeMounts c) ∧
  readSlice g' (cVolumeMounts c) = readSlice g (cVolumeMounts tc) ++ readSlice g cur ∧
  length g ≤ s_arr (cVolumeMounts c) ∧ s_arr (cVolumeMounts c) < length g'.
Proof.
  intros Hcur Hpos Hok Ht. unfold appendCurrent.
  intros (s' & g1 & H1 & [<- <-]%ret_Ok)%bind_Ok.
  assert (safe 0 (length g) (cVolumeMounts tc)) as Hs by (by left).
  destruct (foldM_appendIndexed_frame _ _ _ _ _ _ _ _ (Nat.le_refl _) Hs H1) as [F S].
  destruct (foldM_appendIndexed_read 0 (length g) cur _ _ _ _ _ Hok (Nat.le_refl _) Hs
              (Nat.le_0_l _) (slice_ok_arr _ _ Hcur Hpos) H1) as [Hok' R].
  rewrite readSlice_seq in R by done.
  assert (length g ≤ s_arr s') as Hfresh.
  { eapply foldM_appendIndexed_fresh; [| |exact H1]; [done|]. right. split; [done|].
    destruct (s_len cur); [lia | done]. }
  simpl. split_and!; try done.
  apply slice_ok_arr; [done|].
  apply foldM_appendIndexed_len in H1. rewrite length_seq in H1. lia.
Qed.

(** [append] to a template's slice does not write at or above [lo]. *)
Definition tsafe (lo : nat) (s : slice) : Prop := tight s ∨ s_arr s < lo.

Lemma tsafe_safe lo p s : tsafe lo s → safe lo p s.
Proof. intros [?|?]; [by left | by right; left]. Qed.

Lemma safe_weaken lo p q s : q ≤ p → safe lo p s → safe lo q s.
Proof. intros ? [?|[?|?]]; [by left | by right; left | right; right; lia]. Qed.

Lemma slice_ok_tsafe g s : slice_ok g s → tsafe (length g) s.
Proof. intros [? [?|[? ?]]]; [left; unfold tight; lia | by right]. Qed.

Definition mountsAddr (c : Container) : nat := s_arr (cVolumeMounts c).

Lemma forM_appendCurrent_frame lo cur tcs : ∀ g cs g',
  Forall (λ tc, tsafe lo (cVolumeMounts tc)) tcs →
  forM (appendCurrent cur) tcs g = Ok (cs, g') →
  frame lo (length g) g g' ∧
  Forall2 (λ tc c, c = withVolumeMounts tc (cVolumeMounts c) ∧
                   s_len (cVolumeMounts c) = s_len (cVolumeMounts tc) + s_len cur) tcs cs ∧
  Forall (λ c, safe lo (length g) (cVolumeMounts c)) cs.
Proof.
  induction tcs as [|tc tcs IH]; intros g cs g' Hs; simpl.
  - intros [<- <-]%ret_Ok. split_and!; [apply frame_refl | constructor | constructor].
  - intros (c & g1 & H1 & (cs' & g2 & H2 & [<- <-]%ret_Ok)%bind_Ok)%bind_Ok.
    inversion Hs as [|?? Hs1 Hs2]; subst.
    destruct (appendCurrent_frame lo cur tc g c g1) as (F1 & E1 & S1 & L1);
      [by apply tsafe_safe | done |].
    destruct (IH g1 cs' g2 Hs2 H2) as (F2 & R2 & S2).
    assert (length g ≤ length g1) by apply F1.
    split_and!.
    + eapply frame_trans; [done|]. by eapply frame_weaken.
    + by constructor.
    + constructor; [done|]. eapply Forall_impl; [done|].
      intros c'. by apply safe_weaken.
Qed.

Lemma forM_appendCurrent_read cur tcs : ∀ g cs g',
  slice_ok g cur → 0 < s_len cur →
  Forall (λ tc, slice_ok g (cVolumeMounts tc) ∧ tight (cVolumeMounts tc)) tcs →
  forM (appendCurrent cur) tcs g = Ok (cs, g') →
  frame 0 (length g) g g' ∧
  Forall2 (λ tc c, c = withVolumeMounts tc (cVolumeMounts c) ∧
                   slice_ok g' (cVolumeMounts c) ∧
                   readSlice g' (cVolumeMounts c)
                     = readSlice g' (cVolumeMounts tc) ++ readSlice g' cur ∧
                   length g ≤ mountsAddr c ∧ mountsAddr c < length g') tcs cs ∧
  NoDup (mountsAddr <$> cs).
Proof.
  induction tcs as [|tc tcs IH]; intros g cs g' Hcur Hpos Hs; simpl.
  - intros [<- <-]%ret_Ok. split_and!; [apply frame_refl | constructor | constructor].
  - intros (c & g1 & H1 & (cs' & g2 & H2 & [<- <-]%ret_Ok)%bind_Ok)%bind_Ok.
    inversion Hs as [|?? [Hok1 Ht1] Hs2]; subst.
    destruct (appendCurrent_read cur tc g c g1) as (F1 & E1 & Ok1 & R1 & A1 & B1); auto.
    destruct (frame0_stable g g1 cur F1 Hcur) as [Hcur1 Rcur1].
    destruct (frame0_stable g g1 _ F1 Hok1) as [Hok1' Rtc1].
    destruct (IH g1 cs' g2) as (F2 & R2 & N2); auto.
    { eapply Forall_impl; [exact Hs2|]. intros tc' [? ?]. split; [|done].
      by apply (frame0_stable g g1). }
    assert (length g ≤ length g1) by apply F1.
    assert (length g1 ≤ length g2) by apply F2.
    split_and!.
    + eapply frame_trans; [done|]. by eapply frame_weaken.
    + constructor.
      * destruct (frame0_stable g1 g2 (cVolumeMounts c) F2 Ok1) as [? Rc].
        destruct (frame0_stable g1 g2 cur F2 Hcur1) as [_ Rcur2].
        destruct (frame0_stable g1 g2 _ F2 Hok1') as [_ Rtc2].
        split_and!; [done | done | | done | unfold mountsAddr; lia].
        by rewrite Rc, R1, Rcur2, Rtc2, Rcur1, Rtc1.
      * eapply Forall2_impl; [exact R2|]. intros tc' c' (? & ? & R & ? & ?).
        split_and!; [done | done | done | lia | done].
    + simpl. constructor; [|done]. intros Hin.
      apply list_elem_of_fmap in Hin as (c' & E & Hin).
      eapply Forall2_Forall_r in R2.
      * eapply Forall_forall in R2; [|exact Hin]. instantiate (1 := λ c', length g1 ≤ mountsAddr c') in R2.
        simpl in R2. rewrite <- E in R2. unfold mountsAddr in R2. lia.
      * apply Forall_forall. intros tc' _ c'' (? & ? & _ & ? & ?). done.
Qed.

(** ** The steps of the StatefulSet builder *)

Section Steps.

Variable K : Constants.

Definition mountsOf (h : heap) (c : Container) : list VolumeMount :=
  readSlice h (cVolumeMounts c).

Lemma array_at_snoc (g : heap) x : array_at (g ++ [x]) (length g) = x.
Proof. unfold array_at. by rewrite list_lookup_middle. Qed.

Lemma insert_snoc (g : heap) x y : <[length g := y]> (g ++ [x]) = g ++ [y].
Proof.
  rewrite insert_app_r_alt by lia. by rewrite Nat.sub_diag.
Qed.

(** The current mounts are built in two new arrays; the second one holds the
    common mounts and the macros mount. *)
Lemma currentVolumeMountsOf_eq common name g :
  currentVolumeMountsOf K common name g =
    Ok (Slice (S (length g)) (S (length common))
              (growcap (length common) (S (length common))),
        g ++ [common;
              common ++ macrosVolumeMount K name ::
                replicate (growcap (length common) (S (length common)) - S (length common))
                          zeroVolumeMount]).
Proof.
  unfold currentVolumeMountsOf, mbind, M_bind, makeSlice, copySlice. simpl.
  rewrite array_at_snoc, Nat.min_id, insert_snoc.
  rewrite firstn_all, drop_replicate, Nat.sub_diag. simpl. rewrite app_nil_r.
  destruct (append_cases (Slice (length g) (length common) (length common))
              (macrosVolumeMount K name) (g ++ [common])) as [[Hlt _]|[_ ->]].
  { simpl in Hlt. lia. }
  simpl. rewrite length_app. simpl. rewrite Nat.add_1_r.
  unfold readSlice. simpl. rewrite array_at_snoc, firstn_all.
  by rewrite <- app_assoc.
Qed.

Lemma currentVolumeMountsOf_spec common name g cur g' :
  currentVolumeMountsOf K common name g = Ok (cur, g') →
  frame 0 (length g) g g' ∧ slice_ok g' cur ∧
  readSlice g' cur = common ++ [macrosVolumeMount K name] ∧
  s_len cur = S (length common) ∧
  length g ≤ s_arr cur ∧ s_arr cur < length g'.
Proof.
  rewrite currentVolumeMountsOf_eq. intros [= <- <-].
  pose proof (growcap_ge (length common) (S (length common))).
  assert (array_at
            (g ++ [common;
              common ++ macrosVolumeMount K name ::
                replicate (growcap (length common) (S (length common)) - S (length common))
                          zeroVolumeMount]) (S (length g))
          = common ++ macrosVolumeMount K name ::
                replicate (growcap (length common) (S (length common)) - S (length common))
                          zeroVolumeMount) as E.
  { unfold array_at. rewrite lookup_app_r by lia.
    by replace (S (length g) - length g) with 1 by lia. }
  split_and!; simpl; try lia.
  - split; [rewrite length_app; lia|]. intros a _ ?. by apply lookup_app_l.
  - split; simpl; [done|]. right. rewrite length_app. simpl. split; [lia|].
    rewrite E, length_app. simpl. rewrite length_replicate. lia.
  - unfold readSlice. simpl. rewrite E, (cons_middle (macrosVolumeMount K name)), app_assoc.
    apply take_app_length'. rewrite length_app. simpl. lia.
  - rewrite length_app. simpl. lia.
Qed.

Lemma total_currentVolumeMountsOf common name : total (currentVolumeMountsOf K common name).
Proof. intros g. rewrite currentVolumeMountsOf_eq. eauto. Qed.

(** *** The volume claim template and the data mount *)

(** The data mount that the first container receives for a deployment whose
    claim template takes the default name. *)
Definition dataMounts (volumeClaimTemplatesIndex : vcTemplatesIndex)
    (volumeClaimTemplate : string) : list VolumeMount :=
  match volumeClaimTemplatesIndex !! volumeClaimTemplate with
  | Some d => if useDefaultName d then [dataVolumeMount K] else []
  | None => []
  end.

Definition claimsOf (volumeClaimTemplatesIndex : vcTemplatesIndex)
    (volumeClaimTemplate : string) : list PersistentVolumeClaim :=
  match volumeClaimTemplatesIndex !! volumeClaimTemplate with
  | Some d => [persistentVolumeClaim d]
  | None => []
  end.

(** The one failure of [claimTemplates]: a data mount is due and there is no
    first container. *)
Lemma claimTemplates_panic vcI vct g :
  dataMounts vcI vct ≠ [] →
  claimTemplates K vcI vct [] g = Panic IndexOutOfRange.
Proof.
  unfold dataMounts, claimTemplates.
  destruct (vcI !! vct) as [d|]; [|done]. by destruct (useDefaultName d).
Qed.

Lemma claimTemplates_inv vcI vct cs g cs' claims g' :
  claimTemplates K vcI vct cs g = Ok (cs', claims, g') →
  claims = claimsOf vcI vct ∧
  ((dataMounts vcI vct = [] ∧ cs' = cs ∧ g' = g) ∨
   (dataMounts vcI vct = [dataVolumeMount K] ∧
    ∃ c0 rest s, cs = c0 :: rest ∧ cs' = withVolumeMounts c0 s :: rest ∧
                 append (cVolumeMounts c0) (dataVolumeMount K) g = Ok (s, g'))).
Proof.
  unfold dataMounts, claimsOf, claimTemplates.
  destruct (vcI !! vct) as [d|].
  - destruct (useDefaultName d).
    + destruct cs as [|c0 rest]; [done|].
      intros (s & g1 & Ha & [[= <- <-] <-]%ret_Ok)%bind_Ok.
      split; [done|]. right. split; [done|]. by exists c0, rest, s.
    + intros [[= <- <-] <-]%ret_Ok. split; [done|]. by left.
  - intros [[= <- <-] <-]%ret_Ok. split; [done|]. by left.
Qed.

Lemma claimTemplates_total vcI vct cs :
  dataMounts vcI vct = [] ∨ cs ≠ [] → total (claimTemplates K vcI vct cs).
Proof.
  unfold dataMounts, claimTemplates. intros H g.
  destruct (vcI !! vct) as [d|]; [|by eexists _, _].
  destruct (useDefaultName d); [|by eexists _, _].
  destruct cs as [|c0 rest]; [by destruct H|].
  destruct (total_append (cVolumeMounts c0) (dataVolumeMount K) g) as (s & g' & E).
  exists (withVolumeMounts c0 s :: rest, [persistentVolumeClaim d]), g'.
  unfold mbind, M_bind. by rewrite E.
Qed.

Lemma claimTemplates_frame lo p vcI vct cs g cs' claims g' :
  p ≤ length g → Forall (λ c, safe lo p (cVolumeMounts c)) cs →
  claimTemplates K vcI vct cs g = Ok (cs', claims, g') →
  frame lo p g g'.
Proof.
  intros Hp Hs [_ [(_ & _ & ->)|(_ & c0 & rest & s & -> & -> & Ha)]]%claimTemplates_inv.
  - apply frame_refl.
  - inversion Hs; subst. by eapply append_frame.
Qed.

(** *** Volumes and containers of the pod *)

(** The containers the pod starts from: the template's, or the default one. *)
Definition baseContainers (podI : podTemplatesIndex) (podTemplate name : string)
    : list Container :=
  match podI !! podTemplate with
  | Some d => containers d
  | None => [createDefaultContainerTemplate K name nilSlice]
  end.

Definition baseVolumes (podI : podTemplatesIndex) (podTemplate : string) : list Volume :=
  match podI !! podTemplate with
  | Some d => volumes d
  | None => []
  end.

(** Every mount slice stored in the index satisfies [P]. *)
Definition index_slices (P : slice → Prop) (podI : podTemplatesIndex) : Prop :=
  ∀ n d, podI !! n = Some d → Forall (λ c, P (cVolumeMounts c)) (containers d).

Lemma total_podVolumesAndContainers podI pt name cur :
  total (podVolumesAndContainers K podI pt name cur).
Proof.
  unfold podVolumesAndContainers. destruct (podI !! pt) as [d|]; [|apply total_ret].
  apply total_bind; [|intros; apply total_ret].
  apply total_forM. intros. apply total_appendCurrent.
Qed.

Lemma podVolumesAndContainers_frame lo p podI pt name cur g vols cs g' :
  p ≤ length g → index_slices (tsafe lo) podI → safe lo p cur →
  podVolumesAndContainers K podI pt name cur g = Ok (vols, cs, g') →
  frame lo p g g' ∧ vols = baseVolumes podI pt ∧
  Forall2 (λ tc c, c = withVolumeMounts tc (cVolumeMounts c))
          (baseContainers podI pt name) cs ∧
  Forall (λ c, safe lo p (cVolumeMounts c)) cs.
Proof.
  intros Hp HI Hcur. unfold podVolumesAndContainers, baseVolumes, baseContainers.
  destruct (podI !! pt) as [d|] eqn:E.
  - intros (cs0 & g1 & H1 & [[= <- <-] <-]%ret_Ok)%bind_Ok.
    destruct (forM_appendCurrent_frame lo cur _ _ _ _ (HI _ _ E) H1) as (F & R & S).
    split_and!; [by eapply frame_weaken | done | |].
    + eapply Forall2_impl; [exact R|]. by intros ?? [? _].
    + eapply Forall_impl; [exact S|]. intros c. by apply safe_weaken.
  - intros [[= <- <-] <-]%ret_Ok.
    split_and!; [apply frame_refl | done | | by constructor].
    simpl. by repeat constructor.
Qed.

End Steps.

(** ** One StatefulSet *)

Section OneStatefulSet.

Variable K : Constants.
Variable chi : ClickHouseInstallation.
Variable options : genOptions.
Variable vcI : vcTemplatesIndex.
Variable podI : podTemplatesIndex.
Variable common : list VolumeMount.

(** The StatefulSet of an entry, given its pod volumes, containers and
    claims. *)
Definition statefulSetOf (fullDeploymentID : string) (vols : list Volume)
    (cs : list Container) (claims : list PersistentVolumeClaim) : StatefulSet :=
  let statefulSetName := CreateStatefulSetName fullDeploymentID in
  {| ssMeta := {| omName := statefulSetName;
                  omNamespace := chiNamespace chi;
                  omLabels := generatedLabels K chi |};
     ssReplicas := 1;
     ssServiceName := CreatePodServiceName fullDeploymentID;
     ssSelector := {[ chDefaultAppLabel K := statefulSetName ]};
     ssTemplateMeta :=
       {| omName := statefulSetName;
          omNamespace := "";
          omLabels := {[ chDefaultAppLabel K := statefulSetName;
                         ChopGeneratedLabel K := chiName chi;
                         CHIGeneratedLabel K := chiName chi ]} |};
     ssTemplateSpec := {| psVolumes := vols; psContainers := cs |};
     ssVolumeClaimTemplates := claims |}.

(** The volumes of the pod: the template's, then the two ConfigMap volumes. *)
Definition podVolumes (podTemplate fullDeploymentID : string) : list Volume :=
  baseVolumes podI podTemplate
    ++ [createVolume (CreateConfigMapCommonName (chiName chi));
        createVolume (CreateConfigMapMacrosName (chiName chi) fullDeploymentID)].

(** The entry can be built: its fingerprint has a deployment, and a data
    mount is not due on an empty container list. *)
Definition buildable (entry : string * string) : Prop :=
  ∃ deployment, ssDeployments options !! entry.2 = Some deployment ∧
    (dataMounts K vcI (VolumeClaimTemplate deployment) = [] ∨
     baseContainers K podI (PodTemplate deployment) (CreateStatefulSetName entry.1) ≠ []).

Lemma createStatefulSetObject_inv entry g ss g' :
  createStatefulSetObject K chi options vcI podI common entry g = Ok (ss, g') →
  ∃ deployment cur g1 cs0 g2 cs,
    ssDeployments options !! entry.2 = Some deployment ∧
    currentVolumeMountsOf K common (CreateConfigMapMacrosName (chiName chi) entry.1) g
      = Ok (cur, g1) ∧
    podVolumesAndContainers K podI (PodTemplate deployment) (CreateStatefulSetName entry.1)
      cur g1 = Ok (baseVolumes podI (PodTemplate deployment), cs0, g2) ∧
    claimTemplates K vcI (VolumeClaimTemplate deployment) cs0 g2
      = Ok (cs, claimsOf vcI (VolumeClaimTemplate deployment), g') ∧
    ss = statefulSetOf entry.1 (podVolumes (PodTemplate deployment) entry.1) cs
           (claimsOf vcI (VolumeClaimTemplate deployment)).
Proof.
  unfold createStatefulSetObject.
  destruct (ssDeployments options !! entry.2) as [dep|]; [|done].
  intros (cur & g1 & H1 & ([vols cs0] & g2 & H2 & ([cs claims] & g3 & H3 & [<- <-]%ret_Ok)
            %bind_Ok)%bind_Ok)%bind_Ok.
  exists dep, cur, g1, cs0, g2, cs.
  assert (vols = baseVolumes podI (PodTemplate dep)) as ->.
  { unfold podVolumesAndContainers, baseVolumes in *.
    destruct (podI !! PodTemplate dep).
    - by apply bind_Ok in H2 as (? & ? & _ & [[= <- <-] <-]%ret_Ok).
    - by apply ret_Ok in H2 as [[= <- <-] <-]. }
  pose proof (claimTemplates_inv _ _ _ _ _ _ _ _ H3) as [-> _].
  split_and!; try done.
  unfold statefulSetOf, podVolumes. by rewrite <- app_assoc.
Qed.

(** The builder fails on an entry exactly when the entry is not buildable,
    whatever the store. *)
Lemma createStatefulSetObject_Ok entry g :
  buildable entry ↔
  ∃ ss g', createStatefulSetObject K chi options vcI podI common entry g = Ok (ss, g').
Proof.
  split.
  - intros (dep & Hdep & Hb). unfold createStatefulSetObject. rewrite Hdep.
    destruct (total_currentVolumeMountsOf K common
                (CreateConfigMapMacrosName (chiName chi) entry.1) g) as (cur & g1 & E1).
    destruct (total_podVolumesAndContainers K podI (PodTemplate dep)
                (CreateStatefulSetName entry.1) cur g1) as ([vols cs0] & g2 & E2).
    assert (dataMounts K vcI (VolumeClaimTemplate dep) = [] ∨ cs0 ≠ []) as Hb'.
    { destruct Hb as [?|Hb]; [by left | right].
      pose proof E1 as Hcur%currentVolumeMountsOf_spec.
      unfold podVolumesAndContainers, baseContainers in *.
      destruct (podI !! PodTemplate dep) as [d|].
      - apply bind_Ok in E2 as (cs1 & ? & Hf & [[= <- <-] <-]%ret_Ok).
        intros ->.
        destruct (containers d); [done|].
        simpl in Hf. by apply bind_Ok in Hf as (? & ? & _ & (? & ? & _ & [? _]%ret_Ok)%bind_Ok).
      - by apply ret_Ok in E2 as [[= <- <-] <-]. }
    destruct (claimTemplates_total K vcI _ cs0 Hb' g2) as ([cs claims] & g3 & E3).
    unfold mbind, M_bind. rewrite E1, E2, E3. eauto.
  - intros (ss & g' & H).
    apply createStatefulSetObject_inv in H
      as (dep & cur & g1 & cs0 & g2 & cs & Hdep & H1 & H2 & H3 & _).
    exists dep. split; [done|].
    destruct (dataMounts K vcI (VolumeClaimTemplate dep)) eqn:Ed; [by left | right].
    intros Hbase.
    assert (cs0 = []) as ->.
    { unfold podVolumesAndContainers, baseContainers in *.
      destruct (podI !! PodTemplate dep) as [d|]; [|done].
      apply bind_Ok in H2 as (cs1 & ? & Hf & [[= _ <-] <-]%ret_Ok).
      rewrite Hbase in Hf. simpl in Hf. by apply ret_Ok in Hf as [<- _]. }
    rewrite claimTemplates_panic in H3; [done|]. by rewrite Ed.
Qed.

(** What an entry that is not buildable does. *)
Lemma createStatefulSetObject_None entry g :
  ssDeployments options !! entry.2 = None →
  createStatefulSetObject K chi options vcI podI common entry g = Panic NilDereference.
Proof. unfold createStatefulSetObject. by intros ->. Qed.

(** The fields that do not depend on the store. *)
Lemma createStatefulSetObject_shape entry g ss g' :
  createStatefulSetObject K chi options vcI podI common entry g = Ok (ss, g') →
  ∃ deployment cs,
    ssDeployments options !! entry.2 = Some deployment ∧
    ss = statefulSetOf entry.1 (podVolumes (PodTemplate deployment) entry.1) cs
           (claimsOf vcI (VolumeClaimTemplate deployment)) ∧
    Forall2 (λ tc c, c = withVolumeMounts tc (cVolumeMounts c))
      (baseContainers K podI (PodTemplate deployment) (CreateStatefulSetName entry.1)) cs.
Proof.
  intros (dep & cur & g1 & cs0 & g2 & cs & Hdep & H1 & H2 & H3 & ->)%createStatefulSetObject_inv.
  exists dep, cs. split_and!; [done..|].
  assert (Forall2 (λ tc c, c = withVolumeMounts tc (cVolumeMounts c))
            (baseContainers K podI (PodTemplate dep) (CreateStatefulSetName entry.1)) cs0) as R.
  { unfold podVolumesAndContainers, baseContainers in *.
    destruct (podI !! PodTemplate dep) as [d|].
    - apply bind_Ok in H2 as (cs1 & ? & Hf & [[= _ <-] <-]%ret_Ok).
      clear -Hf. revert cs1 g1 x Hf. induction (containers d) as [|tc tcs IH]; simpl.
      + intros ??? [<- _]%ret_Ok. constructor.
      + intros cs1 g1 x (c & ? & Hc & (cs' & ? & Hf & [<- _]%ret_Ok)%bind_Ok)%bind_Ok.
        constructor; [|by eapply IH].
        unfold appendCurrent in Hc.
        by apply bind_Ok in Hc as (? & ? & _ & [<- _]%ret_Ok).
    - apply ret_Ok in H2 as [[= _ <-] _]. simpl. by repeat constructor. }
  apply claimTemplates_inv in H3 as [_ [(_ & -> & _)|(_ & c0 & rest & s & -> & -> & _)]];
    [done|].
  inversion R as [|tc0 ? tcs ? R0 R1]; subst. constructor; [|done].
  by rewrite R0.
Qed.

(** Writes stay out of the arrays at the addresses from [lo] up to the
    length of the store before the step. *)
Lemma createStatefulSetObject_frame lo entry g ss g' :
  index_slices (tsafe lo) podI →
  createStatefulSetObject K chi options vcI podI common entry g = Ok (ss, g') →
  frame lo (length g) g g'.
Proof.
  intros HI (dep & cur & g1 & cs0 & g2 & cs & Hdep & H1 & H2 & H3 & _)%createStatefulSetObject_inv.
  apply currentVolumeMountsOf_spec in H1 as (F1 & _ & _ & _ & A1 & _).
  assert (length g ≤ length g1) by apply F1.
  assert (frame lo (length g) g g1) as F1'.
  { split; [done|]. intros a _ ?. apply F1; lia. }
  destruct (podVolumesAndContainers_frame K lo (length g) podI _ _ cur g1 _ cs0 g2 H HI
              (or_intror (or_intror A1)) H2) as (F2 & _ & _ & S2).
  assert (length g1 ≤ length g2) by apply F2.
  eapply frame_trans; [done|]. eapply frame_trans; [done|].
  eapply claimTemplates_frame; [| |done]; [lia|done].
Qed.

Lemma append_other s x g s' g' a :
  append s x g = Ok (s', g') → a ≠ s_arr s → a < length g → g' !! a = g !! a.
Proof.
  destruct (append_cases s x g) as [[_ ->]|[_ ->]]; intros [= <- <-] ??.
  - by apply list_lookup_insert_ne.
  - by apply lookup_app_l.
Qed.

(** The mounts of the default container: the common mounts, the macros
    mount, and the data mount when it is due.  The container's array is new. *)
Lemma createStatefulSetObject_default entry g ss g' deployment :
  createStatefulSetObject K chi options vcI podI common entry g = Ok (ss, g') →
  ssDeployments options !! entry.2 = Some deployment →
  podI !! PodTemplate deployment = None →
  ∃ c, psContainers (ssTemplateSpec ss) = [c] ∧
       c = createDefaultContainerTemplate K (CreateStatefulSetName entry.1) (cVolumeMounts c) ∧
       mountsOf g' c
         = common ++ [macrosVolumeMount K (CreateConfigMapMacrosName (chiName chi) entry.1)]
             ++ dataMounts K vcI (VolumeClaimTemplate deployment) ∧
       length g ≤ mountsAddr c ∧ mountsAddr c < length g'.
Proof.
  intros (dep & cur & g1 & cs0 & g2 & cs & Hdep & H1 & H2 & H3 & ->)%createStatefulSetObject_inv
    Hdep' Hpod.
  rewrite Hdep in Hdep'. injection Hdep' as ->.
  apply currentVolumeMountsOf_spec in H1 as (F1 & Ok1 & R1 & L1 & A1 & B1).
  unfold podVolumesAndContainers in H2. rewrite Hpod in H2.
  apply ret_Ok in H2 as [[= _ <-] <-]. simpl in H3.
  apply claimTemplates_inv in H3 as [_ [(Hd & -> & ->)|(Hd & c0 & rest & s & [= <- <-] & -> & Ha)]].
  - eexists. split; [done|]. rewrite Hd, app_nil_r. unfold mountsOf, mountsAddr. simpl.
    split_and!; done.
  - eexists. split; [done|]. rewrite Hd. unfold mountsOf, mountsAddr. simpl in *.
    destruct (append_read _ _ _ _ _ Ok1 Ha) as [Ok2 R2].
    split_and!; [done | by rewrite R2, R1, <- app_assoc | |].
    + eapply append_fresh; [| |exact Ha]; [apply F1 | by left].
    + apply slice_ok_arr; [done|]. apply append_len in Ha. lia.
Qed.

(** The mounts of the containers taken from a pod template whose mount
    slices are valid and without spare room: the declared mounts, the common
    mounts, the macros mount and, on the first container, the data mount
    when it is due.  Every array of the store before the step is unchanged. *)
Lemma createStatefulSetObject_template entry g ss g' deployment d :
  createStatefulSetObject K chi options vcI podI common entry g = Ok (ss, g') →
  ssDeployments options !! entry.2 = Some deployment →
  podI !! PodTemplate deployment = Some d →
  Forall (λ tc, slice_ok g (cVolumeMounts tc) ∧ tight (cVolumeMounts tc)) (containers d) →
  frame 0 (length g) g g' ∧
  Forall2 (λ tc c, c = withVolumeMounts tc (cVolumeMounts c) ∧
                   length g ≤ mountsAddr c ∧ mountsAddr c < length g')
          (containers d) (psContainers (ssTemplateSpec ss)) ∧
  ∀ i tc c, containers d !! i = Some tc → psContainers (ssTemplateSpec ss) !! i = Some c →
    mountsOf g' c
      = mountsOf g tc ++ common
          ++ [macrosVolumeMount K (CreateConfigMapMacrosName (chiName chi) entry.1)]
          ++ (if decide (i = 0) then dataMounts K vcI (VolumeClaimTemplate deployment) else []).
Proof.
  intros (dep & cur & g1 & cs0 & g2 & cs & Hdep & H1 & H2 & H3 & ->)%createStatefulSetObject_inv
    Hdep' Hpod Hs.
  rewrite Hdep in Hdep'. injection Hdep' as ->.
  apply currentVolumeMountsOf_spec in H1 as (F1 & Ok1 & R1 & L1 & A1 & B1).
  unfold podVolumesAndContainers in H2. rewrite Hpod in H2.
  apply bind_Ok in H2 as (cs1 & gm & H2 & [[= _ <-] ->]%ret_Ok).
  assert (length g ≤ length g1) as Hg1 by apply F1.
  assert (Forall (λ tc, slice_ok g1 (cVolumeMounts tc) ∧ tight (cVolumeMounts tc)) (containers d))
    as Hs1.
  { eapply Forall_impl; [exact Hs|]. intros tc [? ?]. split; [|done].
    by apply (frame0_stable g g1). }
  assert (0 < s_len cur) as Hpos by lia.
  destruct (forM_appendCurrent_read cur _ _ _ _ Ok1 Hpos Hs1 H2) as (F2 & R2 & N2).
  assert (length g1 ≤ length g2) as Hg2 by apply F2.
  assert (frame 0 (length g) g g2) as F02.
  { eapply frame_trans; [done|]. by eapply frame_weaken. }
  assert (Forall2 (λ tc c, c = withVolumeMounts tc (cVolumeMounts c) ∧
                     length g ≤ mountsAddr c ∧ mountsAddr c < length g2 ∧
                     mountsOf g2 c = mountsOf g tc ++ common
                       ++ [macrosVolumeMount K (CreateConfigMapMacrosName (chiName chi) entry.1)])
            (containers d) cs1) as R.
  { apply Forall2_same_length_lookup. split; [by eapply Forall2_length|].
    intros i tc c Htc Hc.
    destruct (Forall2_lookup_lr _ _ _ _ _ _ R2 Htc Hc) as (E & Okc & Rc & Ac & Bc).
    eapply Forall_lookup_1 in Hs as [Hok _]; [|exact Htc].
    destruct (frame0_stable g g2 _ F02 Hok) as [_ Rtc].
    destruct (frame0_stable g1 g2 _ F2 Ok1) as [_ Rcur].
    split_and!; [done | lia | done |].
    unfold mountsOf. by rewrite Rc, Rtc, Rcur, R1. }
  simpl.
  apply claimTemplates_inv in H3 as [_ [(Hd & -> & ->)|(Hd & c0 & rest & s & -> & -> & Ha)]].
  - split_and!; [done | |].
    + eapply Forall2_impl; [exact R|]. intros tc c (? & ? & ? & _). done.
    + intros i tc c Htc Hc.
      destruct (Forall2_lookup_lr _ _ _ _ _ _ R Htc Hc) as (_ & _ & _ & ->).
      rewrite Hd. destruct (decide (i = 0)); by rewrite ?app_nil_r.
  - inversion R as [|tc0 ? tcs ? (E0 & A0 & B0 & R0) Rrest Etc]; subst.
    assert (slice_ok g2 (cVolumeMounts c0)) as Okc0.
    { rewrite <- Etc in R2. by apply Forall2_cons_1 in R2 as [(_ & ? & _) _]. }
    destruct (append_read _ _ _ _ _ Okc0 Ha) as [Ok3 R3].
    assert (safe 0 (length g) (cVolumeMounts c0)) as S0 by (right; right; exact A0).
    assert (length g ≤ length g2) as Hle by lia.
    destruct (append_frame 0 (length g) _ _ _ _ _ Hle S0 Ha) as [F3 _].
    assert (length g2 ≤ length g') as Hg3 by (by eapply append_grows).
    assert (length g ≤ s_arr s) as As.
    { eapply append_fresh; [| |exact Ha]; [lia | by left]. }
    assert (s_arr s < length g') as Bs.
    { apply slice_ok_arr; [done|]. apply append_len in Ha. lia. }
    split_and!.
    + by eapply frame_trans.
    + constructor.
      { unfold mountsAddr. simpl. split_and!; [by rewrite E0 | done | done]. }
      eapply Forall2_impl; [exact Rrest|].
      intros tc c (? & ? & ? & _). split_and!; [done | done | lia].
    + intros i tc c Htc Hc. rewrite Hd. destruct i as [|i]; simpl in *.
      * injection Htc as <-. injection Hc as <-. unfold mountsOf in *. simpl.
        by rewrite R3, R0, <- !app_assoc.
      * destruct (Forall2_lookup_lr _ _ _ _ _ _ Rrest Htc Hc) as (_ & _ & Bc & Rc).
        rewrite <- Rc.
        unfold mountsOf. apply readSlice_stable.
        eapply append_other; [exact Ha | | done].
        simpl in N2. apply NoDup_cons_1_1 in N2. intros Eq. apply N2.
        apply list_elem_of_fmap. exists c. split; [done|].
        by eapply list_elem_of_lookup_2.
Qed.

End OneStatefulSet.

(** ** Loops over the entries *)

Section Loops.

Context {A B : Type}.
Variable f : A → M B.

(** A loop establishes [Q] for every element when each turn establishes it
    for its own element and keeps it for the earlier ones. *)
Lemma forM_Forall2 (Inv : heap → Prop) (Q : A → B → heap → Prop) (l : list A) :
  (∀ a h b h', a ∈ l → Inv h → f a h = Ok (b, h') →
     Inv h' ∧ Q a b h' ∧ ∀ a0 b0, Q a0 b0 h → Q a0 b0 h') →
  ∀ h bs h', Inv h → forM f l h = Ok (bs, h') →
    Inv h' ∧ Forall2 (λ a b, Q a b h') l bs ∧ ∀ a0 b0, Q a0 b0 h → Q a0 b0 h'.
Proof.
  induction l as [|a l IH]; intros Hstep h bs h' HI; simpl.
  - intros [<- <-]%ret_Ok. split_and!; [done | constructor | done].
  - intros (b & h1 & H1 & (bs' & h2 & H2 & [<- <-]%ret_Ok)%bind_Ok)%bind_Ok.
    destruct (Hstep a h b h1) as (HI1 & Q1 & S1); [left | done | done |].
    destruct (IH (λ a0 h0 b0 h0' Hin, Hstep a0 h0 b0 h0' (list_elem_of_further _ _ _ Hin))
                h1 bs' h2 HI1 H2) as (HI2 & Q2 & S2).
    split_and!; [done | constructor; auto | auto].
Qed.

(** When success of a turn does not depend on the store, the loop succeeds
    exactly when every turn does. *)
Lemma forM_Ok (P : A → Prop) (l : list A) :
  (∀ a h, P a ↔ ∃ b h', f a h = Ok (b, h')) →
  ∀ h, Forall P l ↔ ∃ bs h', forM f l h = Ok (bs, h').
Proof.
  intros HP. induction l as [|a l IH]; intros h; simpl.
  - split; [intros _; by eexists _, _ | constructor].
  - split.
    + intros [Ha Hl]%Forall_cons. apply (HP a h) in Ha as (b & h1 & E1).
      apply (IH h1) in Hl as (bs & h2 & E2).
      exists (b :: bs), h2. unfold mbind, M_bind. by rewrite E1, E2.
    + intros (bs & h' & (b & h1 & H1 & (bs' & h2 & H2 & _)%bind_Ok)%bind_Ok).
      constructor; [apply (HP a h); eauto | apply (IH h1); eauto].
Qed.

(** The first turn that fails ends the loop with its panic. *)
Lemma forM_Panic (l1 l2 : list A) (a : A) (p : panic) :
  (∀ h, f a h = Panic p) → (∀ a', a' ∈ l1 → total (f a')) →
  ∀ h, forM f (l1 ++ a :: l2) h = Panic p.
Proof.
  intros Ha. induction l1 as [|a1 l1 IH]; intros Hl1 h; simpl.
  - unfold mbind, M_bind. by rewrite Ha.
  - destruct (Hl1 a1 (list_elem_of_here _ _) h) as (b & h1 & E).
    unfold mbind, M_bind. rewrite E.
    rewrite IH; [done|]. intros a' Hin. apply Hl1. by right.
Qed.

End Loops.

(** ** The template indices *)

Section Indices.

Variable K : Constants.

(** Every mount slice declared in the installation's pod templates
    satisfies [P]. *)
Definition declared_slices (P : slice → Prop) (chi : ClickHouseInstallation) : Prop :=
  Forall (λ pt, Forall (λ c, P (cVolumeMounts c)) (ptContainers pt)) (chiPodTemplates chi).

Lemma podTemplatesIndex_lookup chi n d :
  createPodTemplatesIndex chi !! n = Some d →
  ∃ pt, pt ∈ chiPodTemplates chi ∧ ptName pt = n ∧
        containers d = ptContainers pt ∧ volumes d = ptVolumes pt.
Proof.
  unfold createPodTemplatesIndex. intros H.
  cut ((∅ : podTemplatesIndex) !! n = Some d ∨
       ∃ pt, pt ∈ chiPodTemplates chi ∧ ptName pt = n ∧
             containers d = ptContainers pt ∧ volumes d = ptVolumes pt).
  { intros [E|?]; [by rewrite lookup_empty in E | done]. }
  revert H. generalize (∅ : podTemplatesIndex).
  induction (chiPodTemplates chi) as [|pt pts IH]; intros idx; simpl; [by left|].
  intros [H|(pt' & Hin & ?)]%IH.
  - apply lookup_insert_Some in H as [[<- <-]|[_ ?]]; [right | by left].
    exists pt. split; [left | done].
  - right. exists pt'. split; [by right | done].
Qed.

Lemma createPodTemplatesIndex_slices P chi :
  declared_slices P chi → index_slices P (createPodTemplatesIndex chi).
Proof.
  intros Hall n d (pt & Hin & _ & -> & _)%podTemplatesIndex_lookup.
  unfold declared_slices in Hall. by eapply Forall_forall in Hall.
Qed.

(** The index entry made for a claim template (lines 399-407). *)
Definition vcEntryOf (t : ChiVolumeClaimTemplate) : vcTemplatesIndexData :=
  {| useDefaultName := (resolveClaimName K t).2;
     persistentVolumeClaim := vctPersistentVolumeClaim (resolveClaimName K t).1 |}.

Lemma resolveClaimName_name t : vctName (resolveClaimName K t).1 = vctName t.
Proof. unfold resolveClaimName. by case_bool_decide. Qed.

Lemma vcTemplatesLoop_cons t ts idx :
  vcTemplatesLoop K (t :: ts) idx =
    ((vcTemplatesLoop K ts (<[vctName t := vcEntryOf t]> idx)).1,
     (resolveClaimName K t).1 :: (vcTemplatesLoop K ts (<[vctName t := vcEntryOf t]> idx)).2).
Proof.
  simpl. unfold vcEntryOf. rewrite <- (resolveClaimName_name t).
  destruct (resolveClaimName K t) as [t' flag]. simpl.
  by destruct (vcTemplatesLoop K ts _).
Qed.

(** The templates as the loop leaves them in the installation. *)
Lemma vcTemplatesLoop_templates ts : ∀ idx,
  (vcTemplatesLoop K ts idx).2 = (λ t, (resolveClaimName K t).1) <$> ts.
Proof.
  induction ts as [|t ts IH]; intros idx; [done|].
  rewrite vcTemplatesLoop_cons. simpl. by rewrite IH.
Qed.

(** The last template declared under a name owns the index entry. *)
Lemma vcTemplatesLoop_last l1 t l2 : ∀ idx,
  Forall (λ t', vctName t' ≠ vctName t) l2 →
  (vcTemplatesLoop K (l1 ++ t :: l2) idx).1 !! vctName t = Some (vcEntryOf t).
Proof.
  intros idx Hl2. revert idx. induction l1 as [|t1 l1 IH]; intros idx.
  - simpl app. rewrite vcTemplatesLoop_cons. simpl.
    generalize (lookup_insert_eq idx (vctName t) (vcEntryOf t)).
    generalize (<[vctName t:=vcEntryOf t]> idx).
    induction Hl2 as [|t2 l2 Hne _ IH2]; intros idx' E; [done|].
    rewrite vcTemplatesLoop_cons. simpl. apply IH2.
    by rewrite lookup_insert_ne.
  - simpl app. rewrite vcTemplatesLoop_cons. simpl. apply IH.
Qed.

(** Every index entry belongs to a declared template of that name. *)
Lemma vcTemplatesLoop_lookup ts n d : ∀ idx,
  (vcTemplatesLoop K ts idx).1 !! n = Some d →
  idx !! n = Some d ∨ ∃ t, t ∈ ts ∧ vctName t = n ∧ d = vcEntryOf t.
Proof.
  induction ts as [|t ts IH]; intros idx; [by left|].
  rewrite vcTemplatesLoop_cons. simpl. intros [H|(t' & Hin & ?)]%IH.
  - apply lookup_insert_Some in H as [[<- <-]|[_ ?]]; [right | by left].
    exists t. split; [left | done].
  - right. exists t'. split; [by right | done].
Qed.

(** The index and the installation that [createVolumeClaimTemplatesIndex]
    returns. *)
Definition vcIndexOf (chi : ClickHouseInstallation) : vcTemplatesIndex :=
  (createVolumeClaimTemplatesIndex K chi).1.

Definition chiAfter (chi : ClickHouseInstallation) : ClickHouseInstallation :=
  (createVolumeClaimTemplatesIndex K chi).2.

(** The installation after a compile: every claim named by the placeholder
    bears the default data-volume name; nothing else differs. *)
Lemma chiAfter_eq chi :
  chiAfter chi =
    {| chiName := chiName chi;
       chiNamespace := chiNamespace chi;
       chiClusters := chiClusters chi;
       chiPodTemplates := chiPodTemplates chi;
       chiVolumeClaimTemplates :=
         (λ t, (resolveClaimName K t).1) <$> chiVolumeClaimTemplates chi |}.
Proof.
  unfold chiAfter, createVolumeClaimTemplatesIndex.
  rewrite <- (vcTemplatesLoop_templates _ ∅).
  by destruct (vcTemplatesLoop K (chiVolumeClaimTemplates chi) ∅).
Qed.

Lemma vcIndexOf_eq chi :
  vcIndexOf chi = (vcTemplatesLoop K (chiVolumeClaimTemplates chi) ∅).1.
Proof.
  unfold vcIndexOf, createVolumeClaimTemplatesIndex.
  by destruct (vcTemplatesLoop K (chiVolumeClaimTemplates chi) ∅).
Qed.

Lemma createPodTemplatesIndex_chiAfter chi :
  createPodTemplatesIndex (chiAfter chi) = createPodTemplatesIndex chi.
Proof. by rewrite chiAfter_eq. Qed.

End Indices.

Lemma forM_ext {A B} (f g : A → M B) (l : list A) :
  (∀ a h, f a h = g a h) → ∀ h, forM f l h = forM g l h.
Proof.
  intros E. induction l as [|a l IH]; intros h; simpl; [done|].
  unfold mbind, M_bind. rewrite E. destruct (g a h) as [[b h1]|p]; [|done].
  by rewrite IH.
Qed.

(** ** The list of StatefulSets *)

Section StatefulSets.

Variable K : Constants.
Variable chi : ClickHouseInstallation.
Variable options : genOptions.
Variable mountOrder : list (string * string).

(** The common mounts of the compile and the macros mount of a deployment. *)
Definition commonMounts : list VolumeMount :=
  commonVolumeMountsOf K (CreateConfigMapCommonName (chiName chi)) mountOrder.

Definition macrosMount (fullDeploymentID : string) : VolumeMount :=
  macrosVolumeMount K (CreateConfigMapMacrosName (chiName chi) fullDeploymentID).

Lemma createStatefulSetObject_chiAfter vcI podI common entry :
  createStatefulSetObject K (chiAfter K chi) options vcI podI common entry
  = createStatefulSetObject K chi options vcI podI common entry.
Proof. by rewrite chiAfter_eq. Qed.

Lemma createStatefulSetObjects_eq order h :
  createStatefulSetObjects K chi options mountOrder order h =
    (l ← forM (createStatefulSetObject K chi options (vcIndexOf K chi)
                 (createPodTemplatesIndex chi) commonMounts) order;
     mret (l, chiAfter K chi)) h.
Proof.
  unfold createStatefulSetObjects.
  pose proof (createPodTemplatesIndex_chiAfter K chi) as E1.
  pose proof createStatefulSetObject_chiAfter as E2.
  unfold chiAfter, vcIndexOf in *.
  destruct (createVolumeClaimTemplatesIndex K chi) as [vcI chi']. simpl in *.
  rewrite E1. unfold commonMounts, mbind, M_bind.
  by rewrite (forM_ext _ _ order (λ a h, f_equal (λ F, F h) (E2 vcI _ _ a))).
Qed.

Lemma createStatefulSetObjects_inv order h l chi' h' :
  createStatefulSetObjects K chi options mountOrder order h = Ok (l, chi', h') →
  chi' = chiAfter K chi ∧
  forM (createStatefulSetObject K chi options (vcIndexOf K chi)
          (createPodTemplatesIndex chi) commonMounts) order h = Ok (l, h').
Proof.
  rewrite createStatefulSetObjects_eq.
  by intros (l0 & h0 & H & [[= <- <-] <-]%ret_Ok)%bind_Ok.
Qed.

(** Every entry of the order can be built. *)
Definition all_buildable (order : list (string * string)) : Prop :=
  Forall (buildable K options (vcIndexOf K chi) (createPodTemplatesIndex chi)) order.

(** The builder returns exactly when every entry can be built. *)
Lemma createStatefulSetObjects_Ok order h :
  all_buildable order ↔
  ∃ l chi' h', createStatefulSetObjects K chi options mountOrder order h = Ok (l, chi', h').
Proof.
  unfold all_buildable.
  rewrite (forM_Ok (createStatefulSetObject K chi options (vcIndexOf K chi)
             (createPodTemplatesIndex chi) commonMounts) _ order
             (λ a h, createStatefulSetObject_Ok K chi options _ _ commonMounts a h) h).
  split.
  - intros (l & h' & E). exists l, (chiAfter K chi), h'.
    rewrite createStatefulSetObjects_eq. unfold mbind, M_bind. by rewrite E.
  - intros (l & chi' & h' & [_ E]%createStatefulSetObjects_inv). eauto.
Qed.

(** The store-independent part of every StatefulSet. *)
Lemma createStatefulSetObjects_shape order h l chi' h' :
  createStatefulSetObjects K chi options mountOrder order h = Ok (l, chi', h') →
  Forall2 (λ entry ss, ∃ deployment cs,
      ssDeployments options !! entry.2 = Some deployment ∧
      ss = statefulSetOf K chi entry.1
             (podVolumes chi (createPodTemplatesIndex chi) (PodTemplate deployment) entry.1) cs
             (claimsOf (vcIndexOf K chi) (VolumeClaimTemplate deployment)) ∧
      Forall2 (λ tc c, c = withVolumeMounts tc (cVolumeMounts c))
        (baseContainers K (createPodTemplatesIndex chi) (PodTemplate deployment)
           (CreateStatefulSetName entry.1)) cs) order l.
Proof.
  intros [_ H]%createStatefulSetObjects_inv.
  eapply (forM_Forall2 _ (λ _, True) (λ entry ss _, _)) in H as (_ & H & _); [exact H| |done].
  intros e g ss g' _ _ Hs. split_and!; [done | | done].
  by eapply createStatefulSetObject_shape.
Qed.

(** The default containers, in a store in which the declared mount slices
    are valid. *)
Lemma createStatefulSetObjects_default order h l chi' h' :
  declared_slices (slice_ok h) chi →
  createStatefulSetObjects K chi options mountOrder order h = Ok (l, chi', h') →
  Forall2 (λ entry ss, ∀ deployment,
      ssDeployments options !! entry.2 = Some deployment →
      createPodTemplatesIndex chi !! PodTemplate deployment = None →
      ∃ c, psContainers (ssTemplateSpec ss) = [c] ∧
           c = createDefaultContainerTemplate K (CreateStatefulSetName entry.1) (cVolumeMounts c) ∧
           mountsOf h' c = commonMounts ++ [macrosMount entry.1]
             ++ dataMounts K (vcIndexOf K chi) (VolumeClaimTemplate deployment)) order l.
Proof.
  intros Hok [_ H]%createStatefulSetObjects_inv.
  assert (index_slices (tsafe (length h)) (createPodTemplatesIndex chi)) as HI.
  { apply createPodTemplatesIndex_slices. unfold declared_slices in *.
    eapply Forall_impl; [exact Hok|]. intros pt Hpt.
    eapply Forall_impl; [exact Hpt|]. intros c. apply slice_ok_tsafe. }
  eapply (forM_Forall2 _ (λ g, length h ≤ length g)
            (λ entry ss g, ∀ deployment,
               ssDeployments options !! entry.2 = Some deployment →
               createPodTemplatesIndex chi !! PodTemplate deployment = None →
               ∃ c, psContainers (ssTemplateSpec ss) = [c] ∧
                 c = createDefaultContainerTemplate K (CreateStatefulSetName entry.1)
                       (cVolumeMounts c) ∧
                 mountsOf g c = commonMounts ++ [macrosMount entry.1]
                   ++ dataMounts K (vcIndexOf K chi) (VolumeClaimTemplate deployment) ∧
                 length h ≤ mountsAddr c ∧ mountsAddr c < length g)) in H as (_ & H & _).
  - eapply Forall2_impl; [exact H|]. intros e ss Q dep Hdep Hpod.
    destruct (Q dep Hdep Hpod) as (c & ? & ? & ? & _). eauto.
  - intros e g ss g' _ Hg Hs.
    pose proof (createStatefulSetObject_frame K chi options _ _ commonMounts _ e g ss g' HI Hs)
      as [Lg F].
    split_and!; [lia | |].
    + intros dep Hdep Hpod.
      destruct (createStatefulSetObject_default K chi options _ _ commonMounts e g ss g' dep
                  Hs Hdep Hpod) as (c & ? & ? & ? & ? & ?).
      exists c. split_and!; [done | done | done | lia | done].
    + intros e0 ss0 Q dep Hdep Hpod.
      destruct (Q dep Hdep Hpod) as (c & ? & ? & R & ? & ?).
      exists c. split_and!; [done | done | | done | lia].
      rewrite <- R. unfold mountsOf. apply readSlice_stable, F; done.
  - done.
Qed.

(** The containers taken from pod templates, in a store in which the
    declared mount slices are valid and have no spare room. *)
Lemma createStatefulSetObjects_template order h l chi' h' :
  declared_slices (λ s, slice_ok h s ∧ tight s) chi →
  createStatefulSetObjects K chi options mountOrder order h = Ok (l, chi', h') →
  frame 0 (length h) h h' ∧
  Forall2 (λ entry ss, ∀ deployment d,
      ssDeployments options !! entry.2 = Some deployment →
      createPodTemplatesIndex chi !! PodTemplate deployment = Some d →
      ∀ i tc c, containers d !! i = Some tc → psContainers (ssTemplateSpec ss) !! i = Some c →
        mountsOf h' c = mountsOf h tc ++ commonMounts ++ [macrosMount entry.1]
          ++ (if decide (i = 0)
              then dataMounts K (vcIndexOf K chi) (VolumeClaimTemplate deployment) else []))
    order l.
Proof.
  intros Hok [_ H]%createStatefulSetObjects_inv.
  pose proof (createPodTemplatesIndex_slices _ _ Hok) as HI.
  assert (index_slices (tsafe 0) (createPodTemplatesIndex chi)) as HI0.
  { intros n d Hd. eapply Forall_impl; [exact (HI n d Hd)|]. intros c [_ ?]. by left. }
  eapply (forM_Forall2 _ (λ g, frame 0 (length h) h g)
            (λ entry ss g, ∀ deployment d,
               ssDeployments options !! entry.2 = Some deployment →
               createPodTemplatesIndex chi !! PodTemplate deployment = Some d →
               ∀ i tc c, containers d !! i = Some tc →
                 psContainers (ssTemplateSpec ss) !! i = Some c →
                 mountsAddr c < length g ∧
                 mountsOf g c = mountsOf h tc ++ commonMounts ++ [macrosMount entry.1]
                   ++ (if decide (i = 0)
                       then dataMounts K (vcIndexOf K chi) (VolumeClaimTemplate deployment)
                       else []))) in H as (F & H & _).
  - split; [done|]. eapply Forall2_impl; [exact H|]. intros e ss Q dep d Hdep Hpod i tc c Htc Hc.
    by destruct (Q dep d Hdep Hpod i tc c Htc Hc).
  - intros e g ss g' _ Fg Hs.
    pose proof (createStatefulSetObject_frame K chi options _ _ commonMounts _ e g ss g' HI0 Hs)
      as Fs.
    assert (length h ≤ length g) as Lg by apply Fg.
    split_and!.
    + eapply frame_trans; [done|]. by eapply frame_weaken.
    + intros dep d Hdep Hpod i tc c Htc Hc.
      assert (Forall (λ tc, slice_ok g (cVolumeMounts tc) ∧ tight (cVolumeMounts tc))
                (containers d)) as Hg.
      { eapply Forall_impl; [exact (HI _ _ Hpod)|]. intros tc' [? ?]. split; [|done].
        by apply (frame0_stable h g). }
      destruct (createStatefulSetObject_template K chi options _ _ commonMounts e g ss g' dep d
                  Hs Hdep Hpod Hg) as (_ & R & V).
      destruct (Forall2_lookup_lr _ _ _ _ _ _ R Htc Hc) as (_ & _ & ?).
      split; [done|]. rewrite (V i tc c Htc Hc). f_equal.
      eapply Forall_lookup_1 in HI as [Hoktc _]; [|exact Hpod|exact Htc]. simpl in Hoktc.
      unfold mountsOf. by apply (frame0_stable h g).
    + intros e0 ss0 Q dep d Hdep Hpod i tc c Htc Hc.
      destruct (Q dep d Hdep Hpod i tc c Htc Hc) as [B R].
      destruct Fs as [Ls Fs]. split; [lia|].
      rewrite <- R. unfold mountsOf. apply readSlice_stable, Fs; [lia | done].
  - apply frame_refl.
Qed.

End StatefulSets.

(** ** The compile as a whole *)

Section Compile.

Variable K : Constants.
Variable G : Generators.

Lemma CreateCHIObjects_inv sch chi countMax h objs ids chi' h' :
  CreateCHIObjects K G sch chi countMax h = Ok (objs, ids, chi', h') →
  ids = (idsOrder sch).*1 ∧
  ObjectsServices objs
    = createServiceObjects K chi (prepareOptions G chi countMax) (servicesOrder sch) ∧
  ObjectsConfigMaps objs
    = createConfigMapObjects K G chi (prepareOptions G chi countMax) (configMapsOrder sch) ∧
  createStatefulSetObjects K chi (prepareOptions G chi countMax)
    (mountsOrder sch) (statefulSetsOrder sch) h = Ok (ObjectsStatefulSets objs, chi', h').
Proof.
  unfold CreateCHIObjects.
  intros ([l c] & h1 & H & [[= <- <- <-] <-]%ret_Ok)%bind_Ok. done.
Qed.

Lemma CreateCHIObjects_Ok sch chi countMax h :
  all_buildable K chi (prepareOptions G chi countMax) (statefulSetsOrder sch) ↔
  ∃ out h', CreateCHIObjects K G sch chi countMax h = Ok (out, h').
Proof.
  rewrite (createStatefulSetObjects_Ok K chi _ (mountsOrder sch) _ h). split.
  - intros (l & chi' & h' & E). unfold CreateCHIObjects, mbind, M_bind. rewrite E.
    by eexists _, _.
  - intros ([[objs ids] chi'] & h' & (_ & _ & _ & E)%CreateCHIObjects_inv). eauto.
Qed.

End Compile.

(** ** Counting the objects of a deployment *)

Section Counting.

Context {B : Type}.

(** Among objects built one per entry of an order without repeated keys, the
    objects that [P] recognises as the deployment's are exactly one when the
    deployment is in the order, and none when it is not. *)
Lemma filter_absent (R : string * string → B → Prop) (P : B → Prop) `{∀ x, Decision (P x)}
    (d : string) (order : list (string * string)) (l : list B) :
  Forall2 R order l → (∀ e x, R e x → P x → e.1 = d) →
  d ∉ order.*1 → filter P l = [].
Proof.
  intros HR HP. induction HR as [|e x order l Hex _ IH]; intros Hd; [done|].
  rewrite filter_cons. rewrite decide_False.
  - apply IH. intros Hin. apply Hd. simpl. by right.
  - intros Hx. apply Hd. simpl. apply elem_of_cons. left. symmetry. by eapply HP.
Qed.

Lemma filter_unique (R : string * string → B → Prop) (P : B → Prop) `{∀ x, Decision (P x)}
    (d : string) (order : list (string * string)) (l : list B) :
  Forall2 R order l → (∀ e x, R e x → (P x ↔ e.1 = d)) →
  NoDup order.*1 → d ∈ order.*1 → length (filter P l) = 1.
Proof.
  intros HR HP. induction HR as [|e x order l Hex HR IH]; intros Hnd Hd.
  { by apply elem_of_nil in Hd. }
  simpl in Hnd. apply NoDup_cons in Hnd as [Hnotin Hnd].
  rewrite filter_cons. destruct (decide (P x)) as [Hx|Hx].
  - apply (HP e x Hex) in Hx. subst d.
    rewrite (filter_absent R P e.1 order l); [done | done | | done].
    intros e' x' Hex' Hx'. by apply (HP e' x' Hex').
  - apply IH; [done|]. simpl in Hd. apply elem_of_cons in Hd as [->|Hd]; [|done].
    destruct Hx. by apply (HP e x Hex).
Qed.

End Counting.

(** The keys of a range order are the keys of the map, each once. *)
Lemma range_keys {V} (m : gmap string V) (order : list (string * V)) :
  order ≡ₚ map_to_list m →
  NoDup order.*1 ∧ length order = size m ∧
  ∀ d, d ∈ order.*1 ↔ is_Some (m !! d).
Proof.
  intros Hp. split_and!.
  - rewrite Hp. apply NoDup_fst_map_to_list.
  - rewrite Hp. by rewrite length_map_to_list.
  - intros d. rewrite Hp. rewrite list_elem_of_fmap. split.
    + intros ([k v] & -> & Hin). apply elem_of_map_to_list in Hin. by exists v.
    + intros [v Hv]. exists (d, v). split; [done|]. by apply elem_of_map_to_list.
Qed.

Lemma range_lookup {V} (m : gmap string V) (order : list (string * V)) e :
  order ≡ₚ map_to_list m → e ∈ order → m !! e.1 = Some e.2.
Proof.
  intros Hp Hin. rewrite Hp in Hin. destruct e. by apply elem_of_map_to_list in Hin.
Qed.

(** ** One object of each kind per deployment *)

(** How the objects of a deployment and the two installation-wide objects
    are recognised in the output lists. *)
Definition isStatefulSetOf (d : string) (ss : StatefulSet) : Prop :=
  omName (ssMeta ss) = CreateStatefulSetName d.

Definition isMacrosConfigMapOf (chi : ClickHouseInstallation) (d : string) (cm : ConfigMap)
    : Prop :=
  omName (cmMeta cm) = CreateConfigMapMacrosName (chiName chi) d.

Definition isPodServiceOf (d : string) (s : Service) : Prop :=
  svcType s = "ClusterIP" ∧ omName (svcMeta s) = CreatePodServiceName d.

Definition isCommonConfigMap (chi : ClickHouseInstallation) (cm : ConfigMap) : Prop :=
  omName (cmMeta cm) = CreateConfigMapCommonName (chiName chi).

Definition isChiService (s : Service) : Prop := svcType s = "LoadBalancer".

Global Instance isStatefulSetOf_dec d ss : Decision (isStatefulSetOf d ss).
Proof. unfold isStatefulSetOf. apply _. Defined.
Global Instance isMacrosConfigMapOf_dec chi d cm : Decision (isMacrosConfigMapOf chi d cm).
Proof. unfold isMacrosConfigMapOf. apply _. Defined.
Global Instance isPodServiceOf_dec d s : Decision (isPodServiceOf d s).
Proof. unfold isPodServiceOf. apply _. Defined.
Global Instance isCommonConfigMap_dec chi cm : Decision (isCommonConfigMap chi cm).
Proof. unfold isCommonConfigMap. apply _. Defined.
Global Instance isChiService_dec s : Decision (isChiService s).
Proof. unfold isChiService. apply _. Defined.

(** The number of elements of a list that satisfy [P]. *)
Definition count {A} (P : A → Prop) `{∀ x, Decision (P x)} (l : list A) : nat :=
  length (filter P l).

Lemma filter_none {A} (P : A → Prop) `{∀ x, Decision (P x)} (l : list A) :
  Forall (λ x, ¬ P x) l → filter P l = [].
Proof.
  induction 1 as [|x l Hx _ IH]; [done|]. by rewrite filter_cons, decide_False.
Qed.

Section Completeness.

Variable K : Constants.
Variable G : Generators.

Lemma count_services chi options order d :
  NoDup order.*1 →
  count isChiService (createServiceObjects K chi options order) = 1 ∧
  length (createServiceObjects K chi options order) = 1 + length order ∧
  (d ∈ order.*1 → count (isPodServiceOf d) (createServiceObjects K chi options order) = 1).
Proof.
  intros Hnd. unfold count, createServiceObjects. split_and!.
  - rewrite filter_app, length_app, filter_cons, decide_True, filter_nil by done.
    rewrite filter_none; [done|]. apply Forall_fmap, Forall_forall. by intros e _.
  - by rewrite length_app, length_fmap.
  - intros Hd. rewrite filter_app, length_app, filter_cons, decide_False, filter_nil
      by (by intros [? _]).
    apply (filter_unique (λ e x, x = podService K chi e.1) _ d order); [| |done|done].
    + apply Forall2_fmap_r, Forall_Forall2_diag, Forall_forall. by intros e _.
    + intros e x ->. unfold isPodServiceOf. simpl. split.
      * intros [_ ?]. by apply (inj CreatePodServiceName).
      * by intros ->.
Qed.

Lemma count_configMaps chi options order d :
  NoDup order.*1 →
  count (isCommonConfigMap chi) (createConfigMapObjects K G chi options order) = 1 ∧
  length (createConfigMapObjects K G chi options order) = 1 + length order ∧
  (d ∈ order.*1 →
   count (isMacrosConfigMapOf chi d) (createConfigMapObjects K G chi options order) = 1).
Proof.
  intros Hnd. unfold count, createConfigMapObjects. split_and!.
  - rewrite filter_app, length_app, filter_cons, decide_True, filter_nil by done.
    rewrite filter_none; [done|]. apply Forall_fmap, Forall_forall. intros e _.
    unfold isCommonConfigMap. simpl. intros E. by eapply common_name_not_macros.
  - by rewrite length_app, length_fmap.
  - intros Hd. rewrite filter_app, length_app, filter_cons, decide_False, filter_nil.
    2:{ unfold isMacrosConfigMapOf. simpl. apply common_name_not_macros. }
    apply (filter_unique (λ e x, x = macrosConfigMap K G chi options e.1) _ d order);
      [| |done|done].
    + apply Forall2_fmap_r, Forall_Forall2_diag, Forall_forall. by intros e _.
    + intros e x ->. unfold isMacrosConfigMapOf. simpl. split.
      * apply (inj (CreateConfigMapMacrosName (chiName chi))).
      * by intros ->.
Qed.

Lemma count_statefulSets chi options mountOrder order h l chi' h' d :
  createStatefulSetObjects K chi options mountOrder order h = Ok (l, chi', h') →
  NoDup order.*1 →
  length l = length order ∧ (d ∈ order.*1 → count (isStatefulSetOf d) l = 1).
Proof.
  intros Hs%createStatefulSetObjects_shape Hnd. split.
  - symmetry. by eapply Forall2_length.
  - intros Hd. unfold count.
    eapply (filter_unique _ _ d order); [exact Hs| |done|done].
    intros e ss (dep & cs & _ & -> & _). unfold isStatefulSetOf. simpl. split.
    + apply (inj CreateStatefulSetName).
    + by intros ->.
Qed.

(** C1 (completeness).  In a compile that returns, the output holds exactly
    one installation-wide Service, exactly one shared ConfigMap and, for
    every deployment id of the fingerprint index, exactly one StatefulSet,
    one private macros ConfigMap and one per-replica Service, and nothing
    else; the slice of ids has one id per deployment.  The compile returns
    whenever every entry can be built, and always when the fingerprint index
    is empty, in which case the only objects are the shared ConfigMap and the
    installation-wide Service. *)
Theorem one_object_per_deployment sch chi countMax h :
  schedule_ok sch (prepareOptions G chi countMax) →
  (all_buildable K chi (prepareOptions G chi countMax) (statefulSetsOrder sch) →
   ∃ out h', CreateCHIObjects K G sch chi countMax h = Ok (out, h')) ∧
  (fullDeploymentIDToFingerprint (prepareOptions G chi countMax) = ∅ →
   ∃ chi' h', CreateCHIObjects K G sch chi countMax h =
     Ok ({| ObjectsServices := [chiService K chi];
            ObjectsConfigMaps := [commonConfigMap K chi (prepareOptions G chi countMax)];
            ObjectsStatefulSets := [] |}, [], chi', h')) ∧
  ∀ objs ids chi' h',
    CreateCHIObjects K G sch chi countMax h = Ok (objs, ids, chi', h') →
    count isChiService (ObjectsServices objs) = 1 ∧
    count (isCommonConfigMap chi) (ObjectsConfigMaps objs) = 1 ∧
    length (ObjectsServices objs)
      = 1 + size (fullDeploymentIDToFingerprint (prepareOptions G chi countMax)) ∧
    length (ObjectsConfigMaps objs)
      = 1 + size (fullDeploymentIDToFingerprint (prepareOptions G chi countMax)) ∧
    length (ObjectsStatefulSets objs)
      = size (fullDeploymentIDToFingerprint (prepareOptions G chi countMax)) ∧
    length ids = size (fullDeploymentIDToFingerprint (prepareOptions G chi countMax)) ∧
    ∀ d, is_Some (fullDeploymentIDToFingerprint (prepareOptions G chi countMax) !! d) →
      count (isStatefulSetOf d) (ObjectsStatefulSets objs) = 1 ∧
      count (isMacrosConfigMapOf chi d) (ObjectsConfigMaps objs) = 1 ∧
      count (isPodServiceOf d) (ObjectsServices objs) = 1.
Proof.
  intros (Hids & Hsvc & Hcm & Hmnt & Hss).
  destruct (range_keys _ _ Hids) as (_ & Lids & _).
  destruct (range_keys _ _ Hsvc) as (Nsvc & Lsvc & Ksvc).
  destruct (range_keys _ _ Hcm) as (Ncm & Lcm & Kcm).
  destruct (range_keys _ _ Hss) as (Nss & Lss & Kss).
  split_and!.
  - apply CreateCHIObjects_Ok.
  - intros Hempty. rewrite Hempty, map_to_list_empty in *.
    apply Permutation_nil_r in Hids, Hsvc, Hcm, Hss.
    destruct (proj1 (CreateCHIObjects_Ok K G sch chi countMax h)) as ([[objs ids] chi'] & h' & E).
    { unfold all_buildable. rewrite Hss. constructor. }
    exists chi', h'. rewrite E.
    apply CreateCHIObjects_inv in E as (-> & Es & Ec & Et).
    apply createStatefulSetObjects_inv in Et as [_ Et].
    rewrite Hss in Et. simpl in Et. apply ret_Ok in Et as [Et _].
    rewrite Hsvc in Es. rewrite Hcm in Ec. rewrite Hids.
    destruct objs as [s c t]. simpl in *. by rewrite Es, Ec, <- Et.
  - intros objs ids chi' h' (-> & -> & -> & Et)%CreateCHIObjects_inv.
    destruct (count_services chi (prepareOptions G chi countMax) _ "" Nsvc) as (C1 & L1 & _).
    destruct (count_configMaps chi (prepareOptions G chi countMax) _ "" Ncm) as (C2 & L2 & _).
    destruct (count_statefulSets _ _ _ _ _ _ _ _ "" Et Nss) as (L3 & _).
    split_and!; [done | done | lia | lia | lia | by rewrite length_fmap |].
    intros d Hd. split_and!.
    + destruct (count_statefulSets _ _ _ _ _ _ _ _ d Et Nss) as (_ & C). apply C. by apply Kss.
    + destruct (count_configMaps chi (prepareOptions G chi countMax) _ d Ncm) as (_ & _ & C).
      apply C. by apply Kcm.
    + destruct (count_services chi (prepareOptions G chi countMax) _ d Nsvc) as (_ & _ & C).
      apply C. by apply Ksvc.
Qed.

End Completeness.

(** ** Sample inputs *)

Module Sample.

(** An assignment of the package's constants. *)
Definition constants : Constants :=
  {| ChopGeneratedLabel := "clickhouse.altinity.com/chop";
     CHIGeneratedLabel := "clickhouse.altinity.com/chi";
     chDefaultAppLabel := "clickhouse.altinity.com/app";
     chDefaultRPCPortName := "rpc";
     chDefaultRPCPortNumber := 9000;
     chDefaultInterServerPortName := "interserver";
     chDefaultInterServerPortNumber := 9009;
     chDefaultRestPortName := "rest";
     chDefaultRestPortNumber := 8123;
     chDefaultDockerImage := "yandex/clickhouse-server:latest";
     chDefaultVolumeMountNameData := "clickhouse-data";
     fullPathClickHouseData := "/var/lib/clickhouse";
     useDefaultNamePlaceholder := "USE_DEFAULT_NAME";
     templateDefaultsServiceClusterIP := "None";
     fullPathConfigTemplate := "/etc/clickhouse-server/config.d/%s" |}.

(** A walker in the place of the package's own: one deployment per replica,
    identified by cluster name, shard position and replica position, with the
    pair of template names as fingerprint. *)
Definition fingerprintOf (deployment : ChiDeployment) : string :=
  PodTemplate deployment +:+ "/" +:+ VolumeClaimTemplate deployment.

Definition replicasOf (chi : ClickHouseInstallation) : list (string * ChiDeployment) :=
  cluster ← chiClusters chi;
  concat (imap (λ si shard,
            imap (λ ri deployment,
                    (clusterName cluster +:+ "-" +:+ pretty si +:+ "-" +:+ pretty ri,
                     deployment)) shard)
          (clusterShards cluster)).

Definition walk (chi : ClickHouseInstallation) (options : genOptions) : genOptions :=
  foldl (λ o r,
           {| deploymentCountMax := deploymentCountMax o;
              fullDeploymentIDToFingerprint :=
                <[r.1 := fingerprintOf r.2]> (fullDeploymentIDToFingerprint o);
              ssDeployments := <[fingerprintOf r.2 := r.2]> (ssDeployments o);
              macrosData := <[r.1 := [r.1]]> (macrosData o);
              commonConfigSections := commonConfigSections o |})
        options (replicasOf chi).

Definition generators : Generators :=
  {| generateRemoteServersConfig := λ chi options,
       (match replicasOf chi with [] => "" | _ => "<remote_servers/>" end, walk chi options);
     generateZookeeperConfig := λ _, "";
     generateUsersConfig := λ _, "<users/>";
     generateProfilesConfig := λ _, "";
     generateQuotasConfig := λ _, "";
     generateSettingsConfig := λ _, "";
     generateHostMacros := λ chiName fullDeploymentID _,
       "<macros>" +:+ fullDeploymentID +:+ "</macros>" |}.

(** The schedule in which every range visits its map in the order of
    [map_to_list]. *)
Definition scheduleOf (options : genOptions) : Schedule :=
  {| idsOrder := map_to_list (fullDeploymentIDToFingerprint options);
     servicesOrder := map_to_list (fullDeploymentIDToFingerprint options);
     configMapsOrder := map_to_list (fullDeploymentIDToFingerprint options);
     mountsOrder := map_to_list (commonConfigSections options);
     statefulSetsOrder := map_to_list (fullDeploymentIDToFingerprint options) |}.

(** The result of a run, for runs that return. *)
Definition returned {A} (r : result A) (fallback : A) : A :=
  match r with Ok a => a | Panic _ => fallback end.

Definition scratchMount : VolumeMount :=
  {| vmName := "scratch"; vmMountPath := "/scratch"; vmSubPath := "" |}.

(** An installation with a pod template (one container with one declared
    mount, in an array without spare room), a claim template named by the
    placeholder, and three replicas: one selects both templates, one only the
    claim template, one only the pod template. *)
Definition chi : ClickHouseInstallation :=
  {| chiName := "demo";
     chiNamespace := "my-ns";
     chiClusters :=
       [ {| clusterName := "main";
            clusterShards :=
              [ [ {| PodTemplate := "pod"; VolumeClaimTemplate := "data" |};
                  {| PodTemplate := ""; VolumeClaimTemplate := "data" |};
                  {| PodTemplate := "pod"; VolumeClaimTemplate := "" |} ] ] |} ];
     chiPodTemplates :=
       [ {| ptName := "pod";
            ptContainers :=
              [ {| cName := "clickhouse"; cImage := "yandex/clickhouse-server:19.1";
                   cPorts := []; cVolumeMounts := Slice 0 1 1 |};
                {| cName := "sidecar"; cImage := "busybox";
                   cPorts := []; cVolumeMounts := nilSlice |} ];
            ptVolumes := [ {| volName := "scratch"; volSource := OtherSource "emptyDir" |} ] |} ];
     chiVolumeClaimTemplates :=
       [ {| vctName := "data";
            vctPersistentVolumeClaim :=
              {| pvcName := "USE_DEFAULT_NAME"; pvcSpec := "10Gi" |} |} ] |}.

Definition store : heap := [[scratchMount]].

Definition options : genOptions := prepareOptions generators chi ∅.
Definition schedule : Schedule := scheduleOf options.

Definition emptyObjects : ObjectsMap :=
  {| ObjectsServices := []; ObjectsConfigMaps := []; ObjectsStatefulSets := [] |}.

Definition run : ObjectsMap * list string * ClickHouseInstallation * heap :=
  returned (CreateCHIObjects constants generators schedule chi ∅ store)
           (emptyObjects, [], chi, []).

Definition objects : ObjectsMap := run.1.1.1.
Definition ids : list string := run.1.1.2.
Definition chiAfterRun : ClickHouseInstallation := run.1.2.
Definition storeAfterRun : heap := run.2.

End Sample.


Lemma schedule_ok_scheduleOf options : schedule_ok (Sample.scheduleOf options) options.
Proof. by repeat split. Qed.

Lemma Sample_run_eq :
  CreateCHIObjects Sample.constants Sample.generators Sample.schedule Sample.chi ∅ Sample.store
  = Ok (Sample.objects, Sample.ids, Sample.chiAfterRun, Sample.storeAfterRun).
Proof. vm_compute. reflexivity. Qed.

Lemma one_object_per_deployment_witness :
  schedule_ok Sample.schedule (prepareOptions Sample.generators Sample.chi ∅) ∧
  CreateCHIObjects Sample.constants Sample.generators Sample.schedule Sample.chi ∅ Sample.store
    = Ok (Sample.objects, Sample.ids, Sample.chiAfterRun, Sample.storeAfterRun) ∧
  is_Some (fullDeploymentIDToFingerprint (prepareOptions Sample.generators Sample.chi ∅)
             !! "main-0-1") ∧
  count isChiService (ObjectsServices Sample.objects) = 1 ∧
  count (isCommonConfigMap Sample.chi) (ObjectsConfigMaps Sample.objects) = 1 ∧
  length (ObjectsStatefulSets Sample.objects) = 3 ∧
  count (isStatefulSetOf "main-0-1") (ObjectsStatefulSets Sample.objects) = 1 ∧
  count (isMacrosConfigMapOf Sample.chi "main-0-1") (ObjectsConfigMaps Sample.objects) = 1 ∧
  count (isPodServiceOf "main-0-1") (ObjectsServices Sample.objects) = 1.
Proof.
  assert (is_Some (fullDeploymentIDToFingerprint
                     (prepareOptions Sample.generators Sample.chi ∅) !! "main-0-1")) as Hd.
  { vm_compute. eauto. }
  destruct (one_object_per_deployment Sample.constants Sample.generators Sample.schedule
              Sample.chi ∅ Sample.store (schedule_ok_scheduleOf _)) as (_ & _ & H).
  destruct (H _ _ _ _ Sample_run_eq) as (C1 & C2 & _ & _ & L & _ & Hall).
  destruct (Hall "main-0-1" Hd) as (C3 & C4 & C5).
  split; [apply schedule_ok_scheduleOf|].
  split; [exact Sample_run_eq|].
  split; [exact Hd|].
  split; [exact C1|].
  split; [exact C2|].
  split; [rewrite L; vm_compute; reflexivity|].
  split; [exact C3|].
  split; [exact C4 | exact C5].
Defined.

(** ** Names (C9) *)

(** C9 (name formatting).  The formatters are functions of their arguments
    alone; on the two examples they give the expected names, and for all
    installation names [I], namespaces [N] and deployment ids [D] they give
    the names of the fixed pattern table, character for character. *)
Theorem name_formatters_match_patterns :
  CreatePodFQDN "my-ns" "ss-1eb454-2-0"
    = "chi-service-ss-1eb454-2-0.my-ns.svc.cluster.local" ∧
  CreateConfigMapMacrosName "chi1" "ss-1eb454-2-0" = "chi-chi1-deploy-confd-ss-1eb454-2-0" ∧
  ∀ I N D : string,
    CreateConfigMapCommonName I = "chi-" +:+ I +:+ "-common-configd" ∧
    CreateConfigMapMacrosName I D = "chi-" +:+ I +:+ "-deploy-confd-" +:+ D ∧
    CreateChiServiceName I = "chi-" +:+ I ∧
    CreatePodServiceName D = "chi-service-" +:+ D ∧
    CreateStatefulSetName D = "chi-" +:+ D ∧
    CreatePodHostname D = "chi-" +:+ D +:+ "-0" ∧
    CreateNamespaceDomainName N = "." +:+ N +:+ ".svc.cluster.local" ∧
    CreatePodFQDN N D = "chi-service-" +:+ D +:+ "." +:+ N +:+ ".svc.cluster.local".
Proof.
  split; [reflexivity|]. split; [reflexivity|]. intros I N D.
  split_and!.
  - apply CreateConfigMapCommonName_eq.
  - apply CreateConfigMapMacrosName_eq.
  - apply CreateChiServiceName_eq.
  - apply CreatePodServiceName_eq.
  - apply CreateStatefulSetName_eq.
  - apply CreatePodHostname_eq.
  - apply CreateNamespaceDomainName_eq.
  - apply CreatePodFQDN_eq.
Qed.

(** ** The shared sections (C5) *)

(** The six shared configuration domains, the file name of each and the text
    its generator renders for an installation. *)
Inductive Domain :=
  | RemoteServers | Zookeeper | Users | Profiles | Quotas | Settings.

Definition domainFilename (dom : Domain) : string :=
  match dom with
  | RemoteServers => filenameRemoteServersXML
  | Zookeeper => filenameZookeeperXML
  | Users => filenameUsersXML
  | Profiles => filenameProfilesXML
  | Quotas => filenameQuotasXML
  | Settings => filenameSettingsXML
  end.

Definition domainOutput (G : Generators) (chi : ClickHouseInstallation)
    (countMax : gmap string Z) (dom : Domain) : string :=
  match dom with
  | RemoteServers => (generateRemoteServersConfig G chi (newOptions countMax)).1
  | Zookeeper => generateZookeeperConfig G chi
  | Users => generateUsersConfig G chi
  | Profiles => generateProfilesConfig G chi
  | Quotas => generateQuotasConfig G chi
  | Settings => generateSettingsConfig G chi
  end.

(** The remote-servers generator fills the deployment maps of the options
    but leaves the section map alone. *)
Definition sections_untouched (G : Generators) (chi : ClickHouseInstallation)
    (countMax : gmap string Z) : Prop :=
  commonConfigSections (generateRemoteServersConfig G chi (newOptions countMax)).2 = ∅.

Section SharedSections.

Variable K : Constants.
Variable G : Generators.

Lemma lookup_includeNonEmpty dst key src k :
  includeNonEmpty dst key src !! k
  = if decide (key = k ∧ src ≠ "") then Some src else dst !! k.
Proof.
  unfold includeNonEmpty. case_bool_decide as Hs.
  - rewrite decide_False; [done|]. by intros [_ ?].
  - destruct (decide (key = k)) as [->|Hk].
    + rewrite decide_True by done. apply lookup_insert_eq.
    + rewrite decide_False by (by intros [? _]). by apply lookup_insert_ne.
Qed.

Lemma prepareOptions_sections chi countMax k :
  sections_untouched G chi countMax →
  commonConfigSections (prepareOptions G chi countMax) !! k
  = (if decide (filenameSettingsXML = k ∧ domainOutput G chi countMax Settings ≠ "")
     then Some (domainOutput G chi countMax Settings) else
     if decide (filenameQuotasXML = k ∧ domainOutput G chi countMax Quotas ≠ "")
     then Some (domainOutput G chi countMax Quotas) else
     if decide (filenameProfilesXML = k ∧ domainOutput G chi countMax Profiles ≠ "")
     then Some (domainOutput G chi countMax Profiles) else
     if decide (filenameUsersXML = k ∧ domainOutput G chi countMax Users ≠ "")
     then Some (domainOutput G chi countMax Users) else
     if decide (filenameZookeeperXML = k ∧ domainOutput G chi countMax Zookeeper ≠ "")
     then Some (domainOutput G chi countMax Zookeeper) else
     if decide (filenameRemoteServersXML = k ∧ domainOutput G chi countMax RemoteServers ≠ "")
     then Some (domainOutput G chi countMax RemoteServers) else None).
Proof.
  unfold sections_untouched, prepareOptions, domainOutput.
  destruct (generateRemoteServersConfig G chi (newOptions countMax)) as [rs o]. simpl.
  intros ->. by rewrite !lookup_includeNonEmpty, lookup_empty.
Qed.

(** C5 (shared-config minimality).  The shared ConfigMap is the first
    ConfigMap of the output; its data holds the file name of a shared domain
    exactly when the domain's generator rendered a non-empty text, then bound
    to that text, and it holds no other key. *)
Theorem shared_section_iff_nonempty chi countMax :
  sections_untouched G chi countMax →
  (∀ order, head (createConfigMapObjects K G chi (prepareOptions G chi countMax) order)
            = Some (commonConfigMap K chi (prepareOptions G chi countMax))) ∧
  (∀ sch h objs ids chi' h',
     CreateCHIObjects K G sch chi countMax h = Ok (objs, ids, chi', h') →
     head (ObjectsConfigMaps objs)
     = Some (commonConfigMap K chi (prepareOptions G chi countMax))) ∧
  (∀ dom,
     (is_Some (cmData (commonConfigMap K chi (prepareOptions G chi countMax))
                 !! domainFilename dom)
      ↔ domainOutput G chi countMax dom ≠ "") ∧
     (domainOutput G chi countMax dom ≠ "" →
      cmData (commonConfigMap K chi (prepareOptions G chi countMax)) !! domainFilename dom
      = Some (domainOutput G chi countMax dom))) ∧
  (∀ key, is_Some (cmData (commonConfigMap K chi (prepareOptions G chi countMax)) !! key) →
          ∃ dom, key = domainFilename dom).
Proof.
  intros Hu. split_and!.
  - done.
  - by intros sch h objs ids chi' h' (_ & _ & -> & _)%CreateCHIObjects_inv.
  - intros dom. simpl. rewrite (prepareOptions_sections _ _ _ Hu).
    destruct dom; simpl;
      repeat (match goal with
              | |- context [decide (?a = ?b ∧ ?P)] =>
                  destruct (decide (a = b ∧ P)) as [[? ?]|?]; try discriminate
              end);
      (split; [split|]); intros; try done; try (by eexists);
      try (match goal with H : is_Some None |- _ => by destruct H end);
      try (match goal with H : ¬ (_ ∧ _) |- _ => exfalso; apply H; by split end).
  - intros key. simpl. rewrite (prepareOptions_sections _ _ _ Hu).
    repeat (match goal with
            | |- context [decide (?a = key ∧ ?P)] =>
                destruct (decide (a = key ∧ P)) as [[<- ?]|?]
            end); intros Hs.
    + by exists Settings.
    + by exists Quotas.
    + by exists Profiles.
    + by exists Users.
    + by exists Zookeeper.
    + by exists RemoteServers.
    + by destruct Hs.
Qed.

End SharedSections.

Lemma shared_section_iff_nonempty_witness :
  sections_untouched Sample.generators Sample.chi ∅ ∧
  (is_Some (cmData (commonConfigMap Sample.constants Sample.chi
                      (prepareOptions Sample.generators Sample.chi ∅))
              !! domainFilename Users)
   ↔ domainOutput Sample.generators Sample.chi ∅ Users ≠ "") ∧
  (is_Some (cmData (commonConfigMap Sample.constants Sample.chi
                      (prepareOptions Sample.generators Sample.chi ∅))
              !! domainFilename Zookeeper)
   ↔ domainOutput Sample.generators Sample.chi ∅ Zookeeper ≠ "").
Proof.
  assert (sections_untouched Sample.generators Sample.chi ∅) as Hu by (by vm_compute).
  destruct (shared_section_iff_nonempty Sample.constants Sample.generators Sample.chi ∅ Hu)
    as (_ & _ & H & _).
  split; [done|]. split; apply H.
Defined.

(** ** Failures of the compile (C3) *)

Module EmptyPod.

(** An installation whose pod template declares no container and whose claim
    template is named by the placeholder; its one replica selects both. *)
Definition chi : ClickHouseInstallation :=
  {| chiName := "demo";
     chiNamespace := "my-ns";
     chiClusters :=
       [ {| clusterName := "main";
            clusterShards :=
              [ [ {| PodTemplate := "bare"; VolumeClaimTemplate := "data" |} ] ] |} ];
     chiPodTemplates := [ {| ptName := "bare"; ptContainers := []; ptVolumes := [] |} ];
     chiVolumeClaimTemplates :=
       [ {| vctName := "data";
            vctPersistentVolumeClaim :=
              {| pvcName := "USE_DEFAULT_NAME"; pvcSpec := "10Gi" |} |} ] |}.

Definition schedule : Schedule :=
  Sample.scheduleOf (prepareOptions Sample.generators chi ∅).

(** Options whose fingerprint index names a fingerprint that has no
    deployment. *)
Definition danglingOptions : genOptions :=
  {| deploymentCountMax := ∅;
     fullDeploymentIDToFingerprint := {[ "main-0-0" := "bare/data" ]};
     ssDeployments := ∅;
     macrosData := ∅;
     commonConfigSections := ∅ |}.

End EmptyPod.

Section Failures.

Variable K : Constants.
Variable G : Generators.

(** A compile either returns or panics, and it panics exactly when some
    entry of the fingerprint index cannot be built. *)
Lemma CreateCHIObjects_Panic sch chi countMax h :
  ¬ all_buildable K chi (prepareOptions G chi countMax) (statefulSetsOrder sch) ↔
  ∃ p, CreateCHIObjects K G sch chi countMax h = Panic p.
Proof.
  rewrite (CreateCHIObjects_Ok K G sch chi countMax h).
  destruct (CreateCHIObjects K G sch chi countMax h) as [[out h']|p].
  - split; [intros []; eauto | by intros [p ?]].
  - split; [eauto | by intros _ (? & ? & ?)].
Qed.

End Failures.

(** The builder dereferences the deployment of a fingerprint without looking
    whether the fingerprint has one. *)
Lemma createStatefulSetObjects_nil_dereference :
  createStatefulSetObjects Sample.constants EmptyPod.chi EmptyPod.danglingOptions []
    [("main-0-0", "bare/data")] [] = Panic NilDereference.
Proof. vm_compute. reflexivity. Qed.

(** C3 (lookup misses never fail) does not hold of the code: the compile of
    an installation whose replica selects a pod template without containers
    and a claim template named by the placeholder panics with an index out
    of range, when the data mount is appended to the first container. *)
Theorem compile_panics_without_first_container :
  CreateCHIObjects Sample.constants Sample.generators EmptyPod.schedule EmptyPod.chi ∅ []
  = Panic IndexOutOfRange.
Proof. vm_compute. reflexivity. Qed.

(** ** The installation after the compile (C4) *)

(** C4 as stated: a compile that returns leaves the installation as it
    was. *)
Definition input_unchanged (K : Constants) (G : Generators) (sch : Schedule)
    (chi : ClickHouseInstallation) (countMax : gmap string Z) (h : heap) : Prop :=
  ∀ objs ids chi' h',
    CreateCHIObjects K G sch chi countMax h = Ok (objs, ids, chi', h') → chi' = chi.

(** The compile of the sample installation renames the claim of its claim
    template. *)
Lemma input_unchanged_fails :
  ¬ input_unchanged Sample.constants Sample.generators Sample.schedule Sample.chi ∅
      Sample.store.
Proof.
  intros H. specialize (H _ _ _ _ Sample_run_eq).
  apply (f_equal chiVolumeClaimTemplates) in H. vm_compute in H. discriminate H.
Qed.

Section Input.

Variable K : Constants.
Variable G : Generators.

(** The claim name a template has after the compile. *)
Definition resolvedClaimName (t : ChiVolumeClaimTemplate) : string :=
  if bool_decide (pvcName (vctPersistentVolumeClaim t) = useDefaultNamePlaceholder K)
  then chDefaultVolumeMountNameData K
  else pvcName (vctPersistentVolumeClaim t).

Lemma resolveClaimName_spec t :
  vctName (resolveClaimName K t).1 = vctName t ∧
  pvcSpec (vctPersistentVolumeClaim (resolveClaimName K t).1)
    = pvcSpec (vctPersistentVolumeClaim t) ∧
  pvcName (vctPersistentVolumeClaim (resolveClaimName K t).1) = resolvedClaimName t ∧
  (resolveClaimName K t).2
    = bool_decide (pvcName (vctPersistentVolumeClaim t) = useDefaultNamePlaceholder K).
Proof. unfold resolveClaimName, resolvedClaimName. by case_bool_decide. Qed.

Lemma resolveClaimName_id t :
  pvcName (vctPersistentVolumeClaim t) ≠ useDefaultNamePlaceholder K →
  (resolveClaimName K t).1 = t.
Proof. intros H. unfold resolveClaimName. by rewrite bool_decide_eq_false_2. Qed.

Lemma resolveClaimName_all_id ts :
  Forall (λ t, pvcName (vctPersistentVolumeClaim t) ≠ useDefaultNamePlaceholder K) ts →
  (λ t, (resolveClaimName K t).1) <$> ts = ts.
Proof.
  induction 1 as [|t ts' Ht _ IH]; [done|].
  rewrite fmap_cons, IH. by rewrite resolveClaimName_id.
Qed.

(** C4 (the input after a compile), amended.  A compile that returns leaves
    the installation as it was except for the claim templates whose claim is
    named by the placeholder: their claim bears the default data-volume name
    afterwards.  Names, namespace, clusters, pod templates, the order and
    names of the claim templates and the rest of every claim are unchanged;
    an installation without such a template is unchanged altogether.  When
    the declared mount slices are valid and without spare room, the mounts
    visible through them are unchanged as well. *)
Theorem input_changes_only_placeholder_claims sch chi countMax h objs ids chi' h' :
  CreateCHIObjects K G sch chi countMax h = Ok (objs, ids, chi', h') →
  chi' = {| chiName := chiName chi;
            chiNamespace := chiNamespace chi;
            chiClusters := chiClusters chi;
            chiPodTemplates := chiPodTemplates chi;
            chiVolumeClaimTemplates :=
              (λ t, (resolveClaimName K t).1) <$> chiVolumeClaimTemplates chi |} ∧
  Forall2 (λ t t',
             vctName t' = vctName t ∧
             pvcSpec (vctPersistentVolumeClaim t') = pvcSpec (vctPersistentVolumeClaim t) ∧
             pvcName (vctPersistentVolumeClaim t') = resolvedClaimName t)
          (chiVolumeClaimTemplates chi) (chiVolumeClaimTemplates chi') ∧
  (Forall (λ t, pvcName (vctPersistentVolumeClaim t) ≠ useDefaultNamePlaceholder K)
          (chiVolumeClaimTemplates chi) → chi' = chi) ∧
  (declared_slices (λ s, slice_ok h s ∧ tight s) chi →
   Forall (λ pt, Forall (λ c, mountsOf h' c = mountsOf h c) (ptContainers pt))
          (chiPodTemplates chi)).
Proof.
  intros (_ & _ & _ & Hs)%CreateCHIObjects_inv.
  pose proof Hs as [-> _]%createStatefulSetObjects_inv.
  rewrite chiAfter_eq. split_and!.
  - done.
  - simpl. apply Forall2_fmap_r, Forall_Forall2_diag, Forall_forall. intros t _.
    by destruct (resolveClaimName_spec t) as (? & ? & ? & _).
  - intros Hall. rewrite (resolveClaimName_all_id _ Hall). by destruct chi.
  - intros Hok.
    destruct (createStatefulSetObjects_template K chi _ _ _ h _ _ _ Hok Hs) as [F _].
    unfold declared_slices in Hok.
    eapply Forall_impl; [exact Hok|]. intros pt Hpt.
    eapply Forall_impl; [exact Hpt|]. intros c [Hc _].
    unfold mountsOf. by apply (frame0_stable h h').
Qed.

End Input.

Lemma input_changes_only_placeholder_claims_witness :
  CreateCHIObjects Sample.constants Sample.generators Sample.schedule Sample.chi ∅ Sample.store
    = Ok (Sample.objects, Sample.ids, Sample.chiAfterRun, Sample.storeAfterRun) ∧
  Forall2 (λ t t',
             vctName t' = vctName t ∧
             pvcSpec (vctPersistentVolumeClaim t') = pvcSpec (vctPersistentVolumeClaim t) ∧
             pvcName (vctPersistentVolumeClaim t') = resolvedClaimName Sample.constants t)
          (chiVolumeClaimTemplates Sample.chi) (chiVolumeClaimTemplates Sample.chiAfterRun).
Proof.
  split; [exact Sample_run_eq|].
  exact (proj1 (proj2 (input_changes_only_placeholder_claims Sample.constants Sample.generators
                         _ _ _ _ _ _ _ _ Sample_run_eq))).
Defined.

(** ** The StatefulSet of a deployment *)

Section Located.

Variable K : Constants.
Variable G : Generators.

(** In a compile that returns, the StatefulSet of a deployment of the
    fingerprint index is in the output, at the position of the deployment's
    entry in the visiting order. *)
Lemma statefulSet_located sch chi countMax h objs ids chi' h' d f :
  schedule_ok sch (prepareOptions G chi countMax) →
  CreateCHIObjects K G sch chi countMax h = Ok (objs, ids, chi', h') →
  fullDeploymentIDToFingerprint (prepareOptions G chi countMax) !! d = Some f →
  ∃ i ss, statefulSetsOrder sch !! i = Some (d, f) ∧
          ObjectsStatefulSets objs !! i = Some ss ∧
          createStatefulSetObjects K chi (prepareOptions G chi countMax)
            (mountsOrder sch) (statefulSetsOrder sch) h
            = Ok (ObjectsStatefulSets objs, chi', h').
Proof.
  intros (_ & _ & _ & _ & Hss) (_ & _ & _ & Hs)%CreateCHIObjects_inv Hd.
  assert ((d, f) ∈ statefulSetsOrder sch) as Hin.
  { rewrite Hss. by apply elem_of_map_to_list. }
  apply list_elem_of_lookup in Hin as [i Hi].
  pose proof (createStatefulSetObjects_shape _ _ _ _ _ _ _ _ _ Hs) as Hsh.
  destruct (Forall2_lookup_l _ _ _ _ _ Hsh Hi) as (ss & Hl & _).
  by exists i, ss.
Qed.

(** The StatefulSets of the output belong to the deployments of the
    fingerprint index. *)
Lemma statefulSet_origin sch chi countMax h objs ids chi' h' ss :
  schedule_ok sch (prepareOptions G chi countMax) →
  CreateCHIObjects K G sch chi countMax h = Ok (objs, ids, chi', h') →
  ss ∈ ObjectsStatefulSets objs →
  ∃ d f deployment cs,
    fullDeploymentIDToFingerprint (prepareOptions G chi countMax) !! d = Some f ∧
    ssDeployments (prepareOptions G chi countMax) !! f = Some deployment ∧
    ss = statefulSetOf K chi d
           (podVolumes chi (createPodTemplatesIndex chi) (PodTemplate deployment) d) cs
           (claimsOf (vcIndexOf K chi) (VolumeClaimTemplate deployment)).
Proof.
  intros (_ & _ & _ & _ & Hss) (_ & _ & _ & Hs)%CreateCHIObjects_inv Hin.
  apply list_elem_of_lookup in Hin as [i Hi].
  pose proof (createStatefulSetObjects_shape _ _ _ _ _ _ _ _ _ Hs) as Hsh.
  destruct (Forall2_lookup_r _ _ _ _ _ Hsh Hi) as ([d f] & Ho & dep & cs & Hdep & -> & _).
  exists d, f, dep, cs. split_and!; [|done..].
  apply (range_lookup _ _ (d, f) Hss). by eapply list_elem_of_lookup_2.
Qed.

End Located.

(** ** Services, StatefulSets and pods (C10) *)

(** A selector selects the pods whose labels include all its pairs. *)
Definition selects (selector labels : gmap string string) : Prop := selector ⊆ labels.

(** The labels of the pods of a StatefulSet. *)
Definition podLabels (ss : StatefulSet) : gmap string string := omLabels (ssTemplateMeta ss).

Lemma selects_singleton k v (m : gmap string string) :
  selects {[k := v]} m ↔ m !! k = Some v.
Proof.
  unfold selects. rewrite map_subseteq_spec. split.
  - intros H. apply H. apply lookup_singleton_eq.
  - intros Hm k' v' [-> ->]%lookup_singleton_Some. done.
Qed.

(** C10 as stated, for the installation-wide Service: it selects the pod of
    one deployment only. *)
Definition chiService_selects_one_pod (K : Constants) (G : Generators) (sch : Schedule)
    (chi : ClickHouseInstallation) (countMax : gmap string Z) (h : heap) : Prop :=
  ∀ objs ids chi' h' ss ss',
    CreateCHIObjects K G sch chi countMax h = Ok (objs, ids, chi', h') →
    ss ∈ ObjectsStatefulSets objs → ss' ∈ ObjectsStatefulSets objs →
    selects (svcSelector (chiService K chi)) (podLabels ss) →
    selects (svcSelector (chiService K chi)) (podLabels ss') →
    omName (ssMeta ss') = omName (ssMeta ss).

(** In the sample installation the installation-wide Service selects the
    pods of two deployments. *)
Lemma chiService_selects_one_pod_fails :
  ¬ chiService_selects_one_pod Sample.constants Sample.generators Sample.schedule Sample.chi
      ∅ Sample.store.
Proof.
  intros H.
  destruct (ObjectsStatefulSets Sample.objects !! 0) as [ss|] eqn:E0;
    [|vm_compute in E0; discriminate E0].
  destruct (ObjectsStatefulSets Sample.objects !! 1) as [ss'|] eqn:E1;
    [|vm_compute in E1; discriminate E1].
  specialize (H _ _ _ _ ss ss' Sample_run_eq
                (list_elem_of_lookup_2 _ _ _ E0) (list_elem_of_lookup_2 _ _ _ E1)).
  vm_compute in E0. injection E0 as <-. vm_compute in E1. injection E1 as <-.
  change (svcSelector (chiService Sample.constants Sample.chi))
    with ({[ "clickhouse.altinity.com/chi" := "demo" ]} : gmap string string) in H.
  rewrite !selects_singleton in H.
  assert ("chi-main-0-2" = "chi-main-0-1") as E; [|discriminate E].
  apply H; vm_compute; reflexivity.
Qed.

Section Links.

Variable K : Constants.
Variable G : Generators.

Lemma podLabels_app chi d vols cs claims :
  podLabels (statefulSetOf K chi d vols cs claims) !! chDefaultAppLabel K
  = Some (CreateStatefulSetName d).
Proof. unfold podLabels. simpl. apply lookup_insert_eq. Qed.

Lemma podLabels_chi chi d vols cs claims :
  labels_distinct K →
  podLabels (statefulSetOf K chi d vols cs claims) !! CHIGeneratedLabel K
  = Some (chiName chi).
Proof.
  intros (H1 & H2 & H3). unfold podLabels. simpl.
  rewrite lookup_insert_ne by done. rewrite lookup_insert_ne by done.
  apply lookup_singleton_eq.
Qed.

(** C10 (links between the objects of a deployment), amended.  In a compile
    that returns, the StatefulSet of a deployment names that deployment's
    per-replica Service as its service; the selector of the per-replica
    Service is the single pair of the application label and the StatefulSet's
    name; the labels of the StatefulSet's pods hold that pair and the
    installation label that the installation-wide Service selects by.  So
    both Services select the deployment's pod; the per-replica Service
    selects the pods of no other deployment, whereas the installation-wide
    Service selects the pods of every deployment. *)
Theorem deployment_objects_linked sch chi countMax h objs ids chi' h' d f :
  labels_distinct K →
  schedule_ok sch (prepareOptions G chi countMax) →
  CreateCHIObjects K G sch chi countMax h = Ok (objs, ids, chi', h') →
  fullDeploymentIDToFingerprint (prepareOptions G chi countMax) !! d = Some f →
  ∃ ss svc,
    ss ∈ ObjectsStatefulSets objs ∧ isStatefulSetOf d ss ∧
    svc ∈ ObjectsServices objs ∧ isPodServiceOf d svc ∧
    chiService K chi ∈ ObjectsServices objs ∧
    ssServiceName ss = omName (svcMeta svc) ∧
    svcSelector svc = {[ chDefaultAppLabel K := omName (ssMeta ss) ]} ∧
    svcSelector (chiService K chi) = {[ CHIGeneratedLabel K := chiName chi ]} ∧
    podLabels ss !! chDefaultAppLabel K = Some (omName (ssMeta ss)) ∧
    podLabels ss !! CHIGeneratedLabel K = Some (chiName chi) ∧
    selects (svcSelector svc) (podLabels ss) ∧
    selects (svcSelector (chiService K chi)) (podLabels ss) ∧
    (∀ ss', ss' ∈ ObjectsStatefulSets objs →
            selects (svcSelector svc) (podLabels ss') → isStatefulSetOf d ss') ∧
    (∀ ss', ss' ∈ ObjectsStatefulSets objs →
            selects (svcSelector (chiService K chi)) (podLabels ss')).
Proof.
  intros HK Hsch Hrun Hd.
  destruct (statefulSet_located K G _ _ _ _ _ _ _ _ _ _ Hsch Hrun Hd) as (i & ss & Hi & Hl & Hs).
  pose proof (createStatefulSetObjects_shape _ _ _ _ _ _ _ _ _ Hs) as Hsh.
  destruct (Forall2_lookup_lr _ _ _ _ _ _ Hsh Hi Hl) as (dep & cs & Hdep & -> & _).
  pose proof Hrun as (_ & Esvc & _ & _)%CreateCHIObjects_inv.
  destruct Hsch as (_ & Hsvc & _ & _ & _).
  exists (statefulSetOf K chi d
            (podVolumes chi (createPodTemplatesIndex chi) (PodTemplate dep) d) cs
            (claimsOf (vcIndexOf K chi) (VolumeClaimTemplate dep))), (podService K chi d).
  split_and!.
  - by eapply list_elem_of_lookup_2.
  - done.
  - rewrite Esvc. unfold createServiceObjects. apply elem_of_app. right.
    apply list_elem_of_fmap. exists (d, f). split; [done|].
    rewrite Hsvc. by apply elem_of_map_to_list.
  - done.
  - rewrite Esvc. unfold createServiceObjects. apply elem_of_app. left. apply list_elem_of_here.
  - done.
  - done.
  - done.
  - apply podLabels_app.
  - by apply podLabels_chi.
  - apply selects_singleton. apply podLabels_app.
  - apply selects_singleton. by apply podLabels_chi.
  - intros ss' Hin Hsel.
    apply list_elem_of_lookup in Hin as [j Hj].
    destruct (Forall2_lookup_r _ _ _ _ _ Hsh Hj) as ([d' f'] & _ & dep' & cs' & _ & -> & _).
    apply selects_singleton in Hsel. simpl in Hsel.
    rewrite podLabels_app in Hsel. apply (inj Some) in Hsel.
    apply (inj CreateStatefulSetName) in Hsel. simpl. by subst d'.
  - intros ss' Hin.
    apply list_elem_of_lookup in Hin as [j Hj].
    destruct (Forall2_lookup_r _ _ _ _ _ Hsh Hj) as ([d' f'] & _ & dep' & cs' & _ & -> & _).
    apply selects_singleton. by apply podLabels_chi.
Qed.

End Links.

Lemma Sample_labels_distinct : labels_distinct Sample.constants.
Proof. repeat split; discriminate. Qed.

Lemma deployment_objects_linked_witness :
  labels_distinct Sample.constants ∧
  schedule_ok Sample.schedule (prepareOptions Sample.generators Sample.chi ∅) ∧
  CreateCHIObjects Sample.constants Sample.generators Sample.schedule Sample.chi ∅ Sample.store
    = Ok (Sample.objects, Sample.ids, Sample.chiAfterRun, Sample.storeAfterRun) ∧
  fullDeploymentIDToFingerprint (prepareOptions Sample.generators Sample.chi ∅) !! "main-0-1"
    = Some "/data" ∧
  ∃ ss svc,
    ss ∈ ObjectsStatefulSets Sample.objects ∧ isStatefulSetOf "main-0-1" ss ∧
    svc ∈ ObjectsServices Sample.objects ∧ isPodServiceOf "main-0-1" svc ∧
    ssServiceName ss = omName (svcMeta svc) ∧
    selects (svcSelector svc) (podLabels ss) ∧
    selects (svcSelector (chiService Sample.constants Sample.chi)) (podLabels ss).
Proof.
  assert (fullDeploymentIDToFingerprint (prepareOptions Sample.generators Sample.chi ∅)
            !! "main-0-1" = Some "/data") as Hd by (vm_compute; reflexivity).
  split; [exact Sample_labels_distinct|].
  split; [apply schedule_ok_scheduleOf|].
  split; [exact Sample_run_eq|].
  split; [exact Hd|].
  destruct (deployment_objects_linked Sample.constants Sample.generators _ _ _ _ _ _ _ _ _ _
              Sample_labels_distinct (schedule_ok_scheduleOf _) Sample_run_eq Hd)
    as (ss & svc & H1 & H2 & H3 & H4 & _ & H5 & _ & _ & _ & _ & H6 & H7 & _).
  exists ss, svc. repeat (split; [assumption|]). assumption.
Defined.

(** ** The default container (C6) *)

Definition defaultPorts (K : Constants) : list ContainerPort :=
  [ {| cpName := chDefaultRPCPortName K; cpContainerPort := chDefaultRPCPortNumber K |};
    {| cpName := chDefaultInterServerPortName K;
       cpContainerPort := chDefaultInterServerPortNumber K |};
    {| cpName := chDefaultRestPortName K; cpContainerPort := chDefaultRestPortNumber K |} ].

(** C6 as stated: the mounts of the container synthesized for a deployment
    whose pod template is absent are the common mounts and the macros mount,
    and no more. *)
Definition default_mounts_are_common_and_macros (K : Constants) (G : Generators)
    (sch : Schedule) (chi : ClickHouseInstallation) (countMax : gmap string Z) (h : heap)
    : Prop :=
  ∀ objs ids chi' h' d f deployment ss c,
    CreateCHIObjects K G sch chi countMax h = Ok (objs, ids, chi', h') →
    fullDeploymentIDToFingerprint (prepareOptions G chi countMax) !! d = Some f →
    ssDeployments (prepareOptions G chi countMax) !! f = Some deployment →
    createPodTemplatesIndex chi !! PodTemplate deployment = None →
    ss ∈ ObjectsStatefulSets objs → isStatefulSetOf d ss →
    c ∈ psContainers (ssTemplateSpec ss) →
    mountsOf h' c = commonMounts K chi (mountsOrder sch) ++ [macrosMount K chi d].

(** In the sample installation the replica that selects no pod template but
    the claim template named by the placeholder gets a third kind of mount:
    the data mount. *)
Lemma default_mounts_are_common_and_macros_fails :
  ¬ default_mounts_are_common_and_macros Sample.constants Sample.generators Sample.schedule
      Sample.chi ∅ Sample.store.
Proof.
  intros H.
  destruct (ObjectsStatefulSets Sample.objects !! 0) as [ss|] eqn:E0;
    [|vm_compute in E0; discriminate E0].
  destruct (psContainers (ssTemplateSpec ss) !! 0) as [c|] eqn:E1;
    [|vm_compute in E0; injection E0 as <-; vm_compute in E1; discriminate E1].
  specialize (H _ _ _ _ "main-0-1" "/data"
                {| PodTemplate := ""; VolumeClaimTemplate := "data" |} ss c Sample_run_eq).
  assert (mountsOf Sample.storeAfterRun c
          = commonMounts Sample.constants Sample.chi (mountsOrder Sample.schedule)
              ++ [macrosMount Sample.constants Sample.chi "main-0-1"]) as E.
  { apply H.
    - vm_compute. reflexivity.
    - vm_compute. reflexivity.
    - vm_compute. reflexivity.
    - by eapply list_elem_of_lookup_2.
    - vm_compute in E0. injection E0 as <-. vm_compute. reflexivity.
    - by eapply list_elem_of_lookup_2. }
  vm_compute in E0. injection E0 as <-. vm_compute in E1. injection E1 as <-.
  vm_compute in E. discriminate E.
Qed.

Section DefaultContainer.

Variable K : Constants.
Variable G : Generators.

(** C6 (template fallback), amended.  In a compile that returns from a store
    in which the declared mount slices are valid, the StatefulSet of a
    deployment whose pod-template name is absent from the pod template index
    has exactly one container: it bears the StatefulSet's name, the default
    image and the three fixed ports, and its mounts are the common mounts
    (one per shared section, in the order in which the sections were
    visited), then the macros mount, then the data mount when the
    deployment's claim template takes the default name. *)
Theorem default_container_when_template_absent sch chi countMax h objs ids chi' h'
    d f deployment :
  declared_slices (slice_ok h) chi →
  schedule_ok sch (prepareOptions G chi countMax) →
  CreateCHIObjects K G sch chi countMax h = Ok (objs, ids, chi', h') →
  fullDeploymentIDToFingerprint (prepareOptions G chi countMax) !! d = Some f →
  ssDeployments (prepareOptions G chi countMax) !! f = Some deployment →
  createPodTemplatesIndex chi !! PodTemplate deployment = None →
  ∃ ss c,
    ss ∈ ObjectsStatefulSets objs ∧ isStatefulSetOf d ss ∧
    psContainers (ssTemplateSpec ss) = [c] ∧
    cName c = CreateStatefulSetName d ∧
    cImage c = chDefaultDockerImage K ∧
    cPorts c = defaultPorts K ∧
    mountsOf h' c
      = commonMounts K chi (mountsOrder sch) ++ [macrosMount K chi d]
          ++ dataMounts K (vcIndexOf K chi) (VolumeClaimTemplate deployment) ∧
    commonMounts K chi (mountsOrder sch)
      ≡ₚ (λ e, {| vmName := CreateConfigMapCommonName (chiName chi);
                  vmMountPath := CreateClickHouseConfigFullPath K e.1;
                  vmSubPath := e.1 |})
           <$> map_to_list (commonConfigSections (prepareOptions G chi countMax)).
Proof.
  intros Hok Hsch Hrun Hd Hdep Hpod.
  destruct (statefulSet_located K G _ _ _ _ _ _ _ _ _ _ Hsch Hrun Hd) as (i & ss & Hi & Hl & Hs).
  pose proof (createStatefulSetObjects_shape _ _ _ _ _ _ _ _ _ Hs) as Hsh.
  destruct (Forall2_lookup_lr _ _ _ _ _ _ Hsh Hi Hl) as (dep & cs & Hdep' & Ess & _).
  pose proof (createStatefulSetObjects_default _ _ _ _ _ _ _ _ _ Hok Hs) as Hdef.
  destruct (Forall2_lookup_lr _ _ _ _ _ _ Hdef Hi Hl _ Hdep Hpod) as (c & Hc & Ec & Hm).
  exists ss, c. split_and!.
  - by eapply list_elem_of_lookup_2.
  - by rewrite Ess.
  - done.
  - by rewrite Ec.
  - by rewrite Ec.
  - by rewrite Ec.
  - done.
  - unfold commonMounts, commonVolumeMountsOf. apply fmap_Permutation. apply Hsch.
Qed.

End DefaultContainer.

Lemma default_container_when_template_absent_witness :
  declared_slices (slice_ok Sample.store) Sample.chi ∧
  schedule_ok Sample.schedule (prepareOptions Sample.generators Sample.chi ∅) ∧
  CreateCHIObjects Sample.constants Sample.generators Sample.schedule Sample.chi ∅ Sample.store
    = Ok (Sample.objects, Sample.ids, Sample.chiAfterRun, Sample.storeAfterRun) ∧
  fullDeploymentIDToFingerprint (prepareOptions Sample.generators Sample.chi ∅) !! "main-0-1"
    = Some "/data" ∧
  ssDeployments (prepareOptions Sample.generators Sample.chi ∅) !! "/data"
    = Some {| PodTemplate := ""; VolumeClaimTemplate := "data" |} ∧
  createPodTemplatesIndex Sample.chi !! "" = None ∧
  ∃ ss c,
    ss ∈ ObjectsStatefulSets Sample.objects ∧ isStatefulSetOf "main-0-1" ss ∧
    psContainers (ssTemplateSpec ss) = [c] ∧
    cImage c = chDefaultDockerImage Sample.constants ∧
    mountsOf Sample.storeAfterRun c
      = commonMounts Sample.constants Sample.chi (mountsOrder Sample.schedule)
          ++ [macrosMount Sample.constants Sample.chi "main-0-1"]
          ++ [dataVolumeMount Sample.constants].
Proof.
  assert (declared_slices (slice_ok Sample.store) Sample.chi) as H1.
  { repeat constructor; simpl; lia. }
  assert (fullDeploymentIDToFingerprint (prepareOptions Sample.generators Sample.chi ∅)
            !! "main-0-1" = Some "/data") as H2 by (vm_compute; reflexivity).
  assert (ssDeployments (prepareOptions Sample.generators Sample.chi ∅) !! "/data"
          = Some {| PodTemplate := ""; VolumeClaimTemplate := "data" |}) as H3
    by (vm_compute; reflexivity).
  assert (createPodTemplatesIndex Sample.chi !! "" = None) as H4 by (vm_compute; reflexivity).
  split; [exact H1|]. split; [apply schedule_ok_scheduleOf|].
  split; [exact Sample_run_eq|]. split; [exact H2|]. split; [exact H3|]. split; [exact H4|].
  destruct (default_container_when_template_absent Sample.constants Sample.generators
              _ _ _ _ _ _ _ _ _ _ _ H1 (schedule_ok_scheduleOf _) Sample_run_eq H2 H3 H4)
    as (ss & c & A1 & A2 & A3 & _ & A4 & _ & A5 & _).
  exists ss, c. repeat (split; [assumption|]). exact A5.
Defined.

(** ** Claims named by the placeholder (C7) *)

Module Redeclared.

(** An installation that declares two claim templates under one name: the
    first names its claim by the placeholder, the second does not. *)
Definition chi : ClickHouseInstallation :=
  {| chiName := "demo";
     chiNamespace := "my-ns";
     chiClusters :=
       [ {| clusterName := "main";
            clusterShards := [ [ {| PodTemplate := ""; VolumeClaimTemplate := "data" |} ] ] |} ];
     chiPodTemplates := [];
     chiVolumeClaimTemplates :=
       [ {| vctName := "data";
            vctPersistentVolumeClaim :=
              {| pvcName := "USE_DEFAULT_NAME"; pvcSpec := "10Gi" |} |};
         {| vctName := "data";
            vctPersistentVolumeClaim := {| pvcName := "custom"; pvcSpec := "20Gi" |} |} ] |}.

End Redeclared.

(** C7 as stated, for the index: every declared claim template whose claim is
    named by the placeholder has, under its name, an index entry with the
    flag set and the claim renamed. *)
Definition placeholder_claims_flagged (K : Constants) (chi : ClickHouseInstallation) : Prop :=
  ∀ t, t ∈ chiVolumeClaimTemplates chi →
    pvcName (vctPersistentVolumeClaim t) = useDefaultNamePlaceholder K →
    ∃ data, vcIndexOf K chi !! vctName t = Some data ∧
            useDefaultName data = true ∧
            pvcName (persistentVolumeClaim data) = chDefaultVolumeMountNameData K.

(** A later template of the same name takes the index entry over. *)
Lemma placeholder_claims_flagged_fails :
  ¬ placeholder_claims_flagged Sample.constants Redeclared.chi.
Proof.
  intros H.
  destruct (H {| vctName := "data";
                 vctPersistentVolumeClaim :=
                   {| pvcName := "USE_DEFAULT_NAME"; pvcSpec := "10Gi" |} |})
    as (data & Hdata & Hflag & _).
  - apply list_elem_of_here.
  - reflexivity.
  - vm_compute in Hdata. injection Hdata as <-. discriminate Hflag.
Qed.

(** The mounts that a pod template declares for its container at a
    position, as the store shows them; none without a template. *)
Definition declaredMounts (h : heap) (podI : podTemplatesIndex) (podTemplate : string)
    (i : nat) : list VolumeMount :=
  match podI !! podTemplate with
  | Some data =>
      match containers data !! i with
      | Some tc => readSlice h (cVolumeMounts tc)
      | None => []
      end
  | None => []
  end.

Section DataMount.

Variable K : Constants.
Variable G : Generators.

Lemma declared_slices_and (P Q : slice → Prop) chi :
  declared_slices P chi → declared_slices Q chi → declared_slices (λ s, P s ∧ Q s) chi.
Proof.
  unfold declared_slices. intros HP HQ.
  induction HP as [|pt pts Hpt _ IH]; [constructor|].
  inversion HQ as [|?? Hqt HQ']; subst. constructor; [|by apply IH].
  clear -Hpt Hqt. induction Hpt as [|c cs Hc _ IH]; [constructor|].
  inversion Hqt; subst. constructor; auto.
Qed.

(** C7 (default volume claim naming), amended.  Index: the compile renames
    the claim of every claim template whose claim is named by the
    placeholder to the default data-volume name, and the template's name is
    bound in the index to that claim with the flag set provided no later
    template is declared under the same name (the last declaration of a name
    owns the entry).  StatefulSet: in a compile that returns from a store in
    which the declared mount slices are valid, for a deployment whose claim
    template has the flag set and whose pod template is absent or whose
    installation declares mount slices without spare room, the claim is the
    StatefulSet's one volume claim template and the mounts of the first
    container are its declared mounts, the common mounts, the macros mount
    and last the data mount (default data-volume name, data path); the other
    containers get no data mount. *)
Theorem default_claim_name_and_data_mount chi :
  (∀ l1 t l2,
     chiVolumeClaimTemplates chi = l1 ++ t :: l2 →
     pvcName (vctPersistentVolumeClaim t) = useDefaultNamePlaceholder K →
     chiVolumeClaimTemplates (chiAfter K chi) !! length l1
       = Some {| vctName := vctName t;
                 vctPersistentVolumeClaim :=
                   {| pvcName := chDefaultVolumeMountNameData K;
                      pvcSpec := pvcSpec (vctPersistentVolumeClaim t) |} |} ∧
     (Forall (λ t', vctName t' ≠ vctName t) l2 →
      vcIndexOf K chi !! vctName t
        = Some {| useDefaultName := true;
                  persistentVolumeClaim :=
                    {| pvcName := chDefaultVolumeMountNameData K;
                       pvcSpec := pvcSpec (vctPersistentVolumeClaim t) |} |})) ∧
  (∀ sch countMax h objs ids chi' h' d f deployment data,
     declared_slices (slice_ok h) chi →
     schedule_ok sch (prepareOptions G chi countMax) →
     CreateCHIObjects K G sch chi countMax h = Ok (objs, ids, chi', h') →
     fullDeploymentIDToFingerprint (prepareOptions G chi countMax) !! d = Some f →
     ssDeployments (prepareOptions G chi countMax) !! f = Some deployment →
     vcIndexOf K chi !! VolumeClaimTemplate deployment = Some data →
     useDefaultName data = true →
     createPodTemplatesIndex chi !! PodTemplate deployment = None ∨ declared_slices tight chi →
     ∃ ss c0 rest,
       ss ∈ ObjectsStatefulSets objs ∧ isStatefulSetOf d ss ∧
       ssVolumeClaimTemplates ss = [persistentVolumeClaim data] ∧
       psContainers (ssTemplateSpec ss) = c0 :: rest ∧
       mountsOf h' c0
         = (declaredMounts h (createPodTemplatesIndex chi) (PodTemplate deployment) 0
              ++ commonMounts K chi (mountsOrder sch) ++ [macrosMount K chi d])
             ++ [dataVolumeMount K] ∧
       ∀ i c, rest !! i = Some c →
         mountsOf h' c
           = declaredMounts h (createPodTemplatesIndex chi) (PodTemplate deployment) (S i)
               ++ commonMounts K chi (mountsOrder sch) ++ [macrosMount K chi d]).
Proof.
  split.
  - intros l1 t l2 Hts Hp. split.
    + rewrite chiAfter_eq. simpl. rewrite Hts, fmap_app, fmap_cons.
      rewrite lookup_app_r by (by rewrite length_fmap).
      rewrite length_fmap, Nat.sub_diag. simpl. f_equal.
      unfold resolveClaimName. by rewrite bool_decide_eq_true_2.
    + intros Hl2. rewrite vcIndexOf_eq, Hts, (vcTemplatesLoop_last K l1 t l2 ∅ Hl2).
      f_equal. unfold vcEntryOf, resolveClaimName. by rewrite bool_decide_eq_true_2.
  - intros sch countMax h objs ids chi' h' d f dep data Hok Hsch Hrun Hd Hdep Hdata Hflag Hpt.
    destruct (statefulSet_located K G _ _ _ _ _ _ _ _ _ _ Hsch Hrun Hd)
      as (i & ss & Hi & Hl & Hs).
    pose proof (createStatefulSetObjects_shape _ _ _ _ _ _ _ _ _ Hs) as Hsh.
    destruct (Forall2_lookup_lr _ _ _ _ _ _ Hsh Hi Hl) as (dep' & cs & Hdep' & Ess & Hcs).
    simpl in Hdep'. rewrite Hdep in Hdep'. injection Hdep' as <-.
    assert (dataMounts K (vcIndexOf K chi) (VolumeClaimTemplate dep) = [dataVolumeMount K])
      as Hdm by (unfold dataMounts; by rewrite Hdata, Hflag).
    assert (claimsOf (vcIndexOf K chi) (VolumeClaimTemplate dep) = [persistentVolumeClaim data])
      as Hcl by (unfold claimsOf; by rewrite Hdata).
    assert (ss ∈ ObjectsStatefulSets objs) as Hin by (by eapply list_elem_of_lookup_2).
    simpl in Ess. subst ss.
    destruct (createPodTemplatesIndex chi !! PodTemplate dep) as [pd|] eqn:Hpod.
    + destruct Hpt as [?|Ht]; [done|].
      pose proof (declared_slices_and _ _ _ Hok Ht) as Hokt.
      destruct (createStatefulSetObjects_template _ _ _ _ _ _ _ _ _ Hokt Hs) as [_ Htm].
      pose proof (Forall2_lookup_lr _ _ _ _ _ _ Htm Hi Hl _ _ Hdep Hpod) as Hm.
      simpl in Hm.
      unfold baseContainers in Hcs. rewrite Hpod in Hcs.
      destruct cs as [|c0 rest].
      { apply Forall2_nil_inv_r in Hcs.
        assert (all_buildable K chi (prepareOptions G chi countMax) (statefulSetsOrder sch))
          as Hb by (apply (createStatefulSetObjects_Ok K chi _ (mountsOrder sch) _ h); eauto).
        eapply Forall_lookup_1 in Hb as (dep2 & Hdep2 & Hb); [|exact Hi].
        simpl in Hdep2. rewrite Hdep in Hdep2. injection Hdep2 as <-.
        destruct Hb as [Hb|Hb]; [by rewrite Hdm in Hb|].
        exfalso. apply Hb. unfold baseContainers. by rewrite Hpod. }
      destruct (containers pd) as [|tc0 tcs] eqn:Etcs; [by apply Forall2_nil_inv_l in Hcs|].
      eexists _, c0, rest. split; [exact Hin|]. split; [done|]. split; [done|].
      split; [done|]. split.
      * rewrite (Hm 0 tc0 c0 eq_refl eq_refl). simpl. rewrite Hdm.
        unfold declaredMounts. rewrite Hpod, Etcs. simpl.
        unfold mountsOf, commonMounts, macrosMount. by rewrite <- !app_assoc.
      * intros j c Hc.
        apply Forall2_cons_1 in Hcs as [_ Hcs].
        destruct (Forall2_lookup_r _ _ _ _ _ Hcs Hc) as (tc & Htc & _).
        rewrite (Hm (S j) tc c Htc Hc). simpl.
        unfold declaredMounts. rewrite Hpod, Etcs. simpl. rewrite Htc.
        by rewrite ?app_nil_r.
    + pose proof (createStatefulSetObjects_default _ _ _ _ _ _ _ _ _ Hok Hs) as Hdef.
      destruct (Forall2_lookup_lr _ _ _ _ _ _ Hdef Hi Hl _ Hdep Hpod) as (c & Hc & Ec & Hm).
      simpl in Hc, Hm.
      eexists _, c, []. split; [exact Hin|]. split; [done|]. split; [done|].
      split; [done|]. split.
      * rewrite Hm, Hdm. unfold declaredMounts. rewrite Hpod. simpl.
        by rewrite <- !app_assoc.
      * intros j c'. by rewrite lookup_nil.
Qed.

End DataMount.

Lemma default_claim_name_and_data_mount_witness :
  (vcIndexOf Sample.constants Sample.chi !! "data"
   = Some {| useDefaultName := true;
             persistentVolumeClaim := {| pvcName := "clickhouse-data"; pvcSpec := "10Gi" |} |}) ∧
  ∃ ss c0 rest,
    ss ∈ ObjectsStatefulSets Sample.objects ∧ isStatefulSetOf "main-0-0" ss ∧
    psContainers (ssTemplateSpec ss) = c0 :: rest ∧
    mountsOf Sample.storeAfterRun c0
      = ([Sample.scratchMount]
           ++ commonMounts Sample.constants Sample.chi (mountsOrder Sample.schedule)
           ++ [macrosMount Sample.constants Sample.chi "main-0-0"])
          ++ [dataVolumeMount Sample.constants].
Proof.
  destruct (default_claim_name_and_data_mount Sample.constants Sample.generators Sample.chi)
    as [HA HB].
  split.
  - apply (HA [] {| vctName := "data";
                    vctPersistentVolumeClaim :=
                      {| pvcName := "USE_DEFAULT_NAME"; pvcSpec := "10Gi" |} |} []).
    + reflexivity.
    + reflexivity.
    + constructor.
  - assert (declared_slices (slice_ok Sample.store) Sample.chi) as H1.
    { repeat constructor; simpl; lia. }
    assert (declared_slices tight Sample.chi) as H2.
    { repeat constructor. }
    assert (fullDeploymentIDToFingerprint (prepareOptions Sample.generators Sample.chi ∅)
              !! "main-0-0" = Some "pod/data") as H3 by (vm_compute; reflexivity).
    assert (ssDeployments (prepareOptions Sample.generators Sample.chi ∅) !! "pod/data"
            = Some {| PodTemplate := "pod"; VolumeClaimTemplate := "data" |}) as H4
      by (vm_compute; reflexivity).
    assert (vcIndexOf Sample.constants Sample.chi !! "data"
            = Some {| useDefaultName := true;
                      persistentVolumeClaim :=
                        {| pvcName := "clickhouse-data"; pvcSpec := "10Gi" |} |}) as H5
      by (vm_compute; reflexivity).
    destruct (HB _ _ _ _ _ _ _ _ _ _ _ H1 (schedule_ok_scheduleOf _) Sample_run_eq H3 H4 H5
                eq_refl (or_intror H2)) as (ss & c0 & rest & A1 & A2 & _ & A3 & A4 & _).
    exists ss, c0, rest. split; [exact A1|]. split; [exact A2|]. split; [exact A3|].
    exact A4.
Defined.

(** ** Containers taken from a pod template (C8) *)

Module Shared.

(** An installation whose pod template is selected by two replicas; the
    mount slice of its container has one declared mount and room for three
    more in its array. *)
Definition chi : ClickHouseInstallation :=
  {| chiName := "demo";
     chiNamespace := "my-ns";
     chiClusters :=
       [ {| clusterName := "main";
            clusterShards :=
              [ [ {| PodTemplate := "pod"; VolumeClaimTemplate := "" |};
                  {| PodTemplate := "pod"; VolumeClaimTemplate := "" |} ] ] |} ];
     chiPodTemplates :=
       [ {| ptName := "pod";
            ptContainers :=
              [ {| cName := "clickhouse"; cImage := "yandex/clickhouse-server:19.1";
                   cPorts := []; cVolumeMounts := Slice 0 1 4 |} ];
            ptVolumes := [] |} ];
     chiVolumeClaimTemplates := [] |}.

Definition store : heap :=
  [[Sample.scratchMount; zeroVolumeMount; zeroVolumeMount; zeroVolumeMount]].

Definition schedule : Schedule :=
  Sample.scheduleOf (prepareOptions Sample.generators chi ∅).

Definition run : ObjectsMap * list string * ClickHouseInstallation * heap :=
  Sample.returned (CreateCHIObjects Sample.constants Sample.generators schedule chi ∅ store)
                  (Sample.emptyObjects, [], chi, []).

End Shared.

Lemma Shared_run_eq :
  CreateCHIObjects Sample.constants Sample.generators Shared.schedule Shared.chi ∅ Shared.store
  = Ok Shared.run.
Proof. vm_compute. reflexivity. Qed.

(** With room left in the array of a template container's mount slice, the
    StatefulSets that copy the container share the array: the mounts appended
    for the StatefulSet built second overwrite those of the one built first,
    which ends up mounting the macros of the other deployment. *)
Lemma shared_array_mounts_overwritten :
  ∃ ss c,
    ObjectsStatefulSets Shared.run.1.1.1 !! 0 = Some ss ∧
    isStatefulSetOf "main-0-1" ss ∧
    psContainers (ssTemplateSpec ss) = [c] ∧
    mountsOf Shared.run.2 c
      = [Sample.scratchMount]
          ++ commonMounts Sample.constants Shared.chi (mountsOrder Shared.schedule)
          ++ [macrosMount Sample.constants Shared.chi "main-0-0"].
Proof.
  destruct (ObjectsStatefulSets Shared.run.1.1.1 !! 0) as [ss|] eqn:E0;
    [|vm_compute in E0; discriminate E0].
  destruct (psContainers (ssTemplateSpec ss) !! 0) as [c|] eqn:E1;
    [|vm_compute in E0; injection E0 as <-; vm_compute in E1; discriminate E1].
  exists ss, c. vm_compute in E0. injection E0 as <-. vm_compute in E1. injection E1 as <-.
  split; [reflexivity|]. split; [vm_compute; reflexivity|].
  split; [vm_compute; reflexivity|]. vm_compute. reflexivity.
Qed.

(** C8 as stated: the volumes of the pod are the template's volumes, and the
    mounts of every container are the mounts the template declares for it,
    then the common mounts, then the macros mount. *)
Definition template_copied_verbatim (K : Constants) (G : Generators) (sch : Schedule)
    (chi : ClickHouseInstallation) (countMax : gmap string Z) (h : heap) : Prop :=
  ∀ objs ids chi' h' d f deployment data ss,
    CreateCHIObjects K G sch chi countMax h = Ok (objs, ids, chi', h') →
    fullDeploymentIDToFingerprint (prepareOptions G chi countMax) !! d = Some f →
    ssDeployments (prepareOptions G chi countMax) !! f = Some deployment →
    createPodTemplatesIndex chi !! PodTemplate deployment = Some data →
    ss ∈ ObjectsStatefulSets objs → isStatefulSetOf d ss →
    psVolumes (ssTemplateSpec ss) = volumes data ∧
    ∀ i tc c, containers data !! i = Some tc → psContainers (ssTemplateSpec ss) !! i = Some c →
      mountsOf h' c = mountsOf h tc ++ commonMounts K chi (mountsOrder sch)
                        ++ [macrosMount K chi d].

(** In the sample installation, whose store has no spare room, the pod of
    the replica that selects both templates has two volumes more than the
    template, and its first container one mount more, the data mount. *)
Lemma template_copied_verbatim_fails :
  ¬ template_copied_verbatim Sample.constants Sample.generators Sample.schedule Sample.chi ∅
      Sample.store.
Proof.
  intros H.
  destruct (ObjectsStatefulSets Sample.objects !! 2) as [ss|] eqn:E0;
    [|vm_compute in E0; discriminate E0].
  destruct (H _ _ _ _ "main-0-0" "pod/data"
              {| PodTemplate := "pod"; VolumeClaimTemplate := "data" |}
              {| containers :=
                   [ {| cName := "clickhouse"; cImage := "yandex/clickhouse-server:19.1";
                        cPorts := []; cVolumeMounts := Slice 0 1 1 |};
                     {| cName := "sidecar"; cImage := "busybox";
                        cPorts := []; cVolumeMounts := nilSlice |} ];
                 volumes := [ {| volName := "scratch"; volSource := OtherSource "emptyDir" |} ] |}
              ss Sample_run_eq) as [Hv _].
  - vm_compute. reflexivity.
  - vm_compute. reflexivity.
  - vm_compute. reflexivity.
  - by eapply list_elem_of_lookup_2.
  - vm_compute in E0. injection E0 as <-. vm_compute. reflexivity.
  - vm_compute in E0. injection E0 as <-. vm_compute in Hv. discriminate Hv.
Qed.

Section TemplateContainers.

Variable K : Constants.
Variable G : Generators.

(** C8 (containers of a pod template), amended.  In a compile that returns
    from a store in which the declared mount slices are valid and have no
    spare room, the StatefulSet of a deployment whose pod-template name is in
    the pod template index has the template's volumes followed by the two
    ConfigMap volumes (shared, then private) and the template's containers,
    in order, with name, image and ports as declared; the mounts of every
    container are its declared mounts, then the common mounts (one per
    shared section, in the order in which the sections were visited), then the
    deployment's macros mount, and on the first container last the data mount
    when the claim template takes the default name.  The pod templates of the
    installation and the mounts visible through the template's containers
    are the same after the compile. *)
Theorem template_containers_get_current_mounts sch chi countMax h objs ids chi' h'
    d f deployment data :
  declared_slices (λ s, slice_ok h s ∧ tight s) chi →
  schedule_ok sch (prepareOptions G chi countMax) →
  CreateCHIObjects K G sch chi countMax h = Ok (objs, ids, chi', h') →
  fullDeploymentIDToFingerprint (prepareOptions G chi countMax) !! d = Some f →
  ssDeployments (prepareOptions G chi countMax) !! f = Some deployment →
  createPodTemplatesIndex chi !! PodTemplate deployment = Some data →
  ∃ ss,
    ss ∈ ObjectsStatefulSets objs ∧ isStatefulSetOf d ss ∧
    psVolumes (ssTemplateSpec ss)
      = volumes data ++ [createVolume (CreateConfigMapCommonName (chiName chi));
                         createVolume (CreateConfigMapMacrosName (chiName chi) d)] ∧
    Forall2 (λ tc c, cName c = cName tc ∧ cImage c = cImage tc ∧ cPorts c = cPorts tc)
            (containers data) (psContainers (ssTemplateSpec ss)) ∧
    (∀ i tc c, containers data !! i = Some tc → psContainers (ssTemplateSpec ss) !! i = Some c →
       mountsOf h' c
         = mountsOf h tc ++ commonMounts K chi (mountsOrder sch) ++ [macrosMount K chi d]
             ++ (if decide (i = 0)
                 then dataMounts K (vcIndexOf K chi) (VolumeClaimTemplate deployment)
                 else [])) ∧
    commonMounts K chi (mountsOrder sch)
      ≡ₚ (λ e, {| vmName := CreateConfigMapCommonName (chiName chi);
                  vmMountPath := CreateClickHouseConfigFullPath K e.1;
                  vmSubPath := e.1 |})
           <$> map_to_list (commonConfigSections (prepareOptions G chi countMax)) ∧
    chiPodTemplates chi' = chiPodTemplates chi ∧
    createPodTemplatesIndex chi' !! PodTemplate deployment = Some data ∧
    Forall (λ tc, mountsOf h' tc = mountsOf h tc) (containers data).
Proof.
  intros Hokt Hsch Hrun Hd Hdep Hpod.
  destruct (statefulSet_located K G _ _ _ _ _ _ _ _ _ _ Hsch Hrun Hd) as (i & ss & Hi & Hl & Hs).
  pose proof (createStatefulSetObjects_shape _ _ _ _ _ _ _ _ _ Hs) as Hsh.
  destruct (Forall2_lookup_lr _ _ _ _ _ _ Hsh Hi Hl) as (dep' & cs & Hdep' & Ess & Hcs).
  simpl in Hdep'. rewrite Hdep in Hdep'. injection Hdep' as <-.
  destruct (createStatefulSetObjects_template _ _ _ _ _ _ _ _ _ Hokt Hs) as [F Htm].
  pose proof (Forall2_lookup_lr _ _ _ _ _ _ Htm Hi Hl _ _ Hdep Hpod) as Hm.
  pose proof Hs as [-> _]%createStatefulSetObjects_inv.
  assert (ss ∈ ObjectsStatefulSets objs) as Hin by (by eapply list_elem_of_lookup_2).
  simpl in Ess. subst ss. simpl in Hm.
  unfold baseContainers in Hcs. rewrite Hpod in Hcs.
  eexists. split; [exact Hin|]. split; [done|]. simpl. split_and!.
  - unfold podVolumes, baseVolumes. by rewrite Hpod.
  - eapply Forall2_impl; [exact Hcs|]. intros tc c ->. done.
  - exact Hm.
  - unfold commonMounts, commonVolumeMountsOf. apply fmap_Permutation. apply Hsch.
  - by rewrite chiAfter_eq.
  - by rewrite createPodTemplatesIndex_chiAfter.
  - pose proof (createPodTemplatesIndex_slices _ _ Hokt _ _ Hpod) as Hall.
    eapply Forall_impl; [exact Hall|]. intros tc [Hok _].
    unfold mountsOf. by apply (frame0_stable h h').
Qed.

End TemplateContainers.

Lemma template_containers_get_current_mounts_witness :
  declared_slices (λ s, slice_ok Sample.store s ∧ tight s) Sample.chi ∧
  schedule_ok Sample.schedule (prepareOptions Sample.generators Sample.chi ∅) ∧
  CreateCHIObjects Sample.constants Sample.generators Sample.schedule Sample.chi ∅ Sample.store
    = Ok (Sample.objects, Sample.ids, Sample.chiAfterRun, Sample.storeAfterRun) ∧
  fullDeploymentIDToFingerprint (prepareOptions Sample.generators Sample.chi ∅) !! "main-0-2"
    = Some "pod/" ∧
  ssDeployments (prepareOptions Sample.generators Sample.chi ∅) !! "pod/"
    = Some {| PodTemplate := "pod"; VolumeClaimTemplate := "" |} ∧
  ∃ data ss,
    createPodTemplatesIndex Sample.chi !! "pod" = Some data ∧
    ss ∈ ObjectsStatefulSets Sample.objects ∧ isStatefulSetOf "main-0-2" ss ∧
    psVolumes (ssTemplateSpec ss)
      = volumes data ++ [createVolume (CreateConfigMapCommonName "demo");
                         createVolume (CreateConfigMapMacrosName "demo" "main-0-2")] ∧
    Forall (λ tc, mountsOf Sample.storeAfterRun tc = mountsOf Sample.store tc)
           (containers data).
Proof.
  assert (declared_slices (λ s, slice_ok Sample.store s ∧ tight s) Sample.chi) as H1.
  { repeat constructor; simpl; lia. }
  assert (fullDeploymentIDToFingerprint (prepareOptions Sample.generators Sample.chi ∅)
            !! "main-0-2" = Some "pod/") as H2 by (vm_compute; reflexivity).
  assert (ssDeployments (prepareOptions Sample.generators Sample.chi ∅) !! "pod/"
          = Some {| PodTemplate := "pod"; VolumeClaimTemplate := "" |}) as H3
    by (vm_compute; reflexivity).
  destruct (createPodTemplatesIndex Sample.chi !! "pod") as [data|] eqn:H4;
    [|vm_compute in H4; discriminate H4].
  split; [exact H1|]. split; [apply schedule_ok_scheduleOf|].
  split; [exact Sample_run_eq|]. split; [exact H2|]. split; [exact H3|].
  destruct (template_containers_get_current_mounts Sample.constants Sample.generators
              _ _ _ _ _ _ _ _ _ _ _ data H1 (schedule_ok_scheduleOf _) Sample_run_eq H2 H3 H4)
    as (ss & A1 & A2 & A3 & _ & _ & _ & _ & _ & A4).
  exists data, ss. split; [reflexivity|]. split; [exact A1|]. split; [exact A2|].
  split; [exact A3 | exact A4].
Defined.

(** ** The order of the output lists (C2) *)

Module Reversed.

(** The schedule that visits every map of the sample compile in the opposite
    order. *)
Definition schedule : Schedule :=
  {| idsOrder := reverse (idsOrder Sample.schedule);
     servicesOrder := reverse (servicesOrder Sample.schedule);
     configMapsOrder := reverse (configMapsOrder Sample.schedule);
     mountsOrder := reverse (mountsOrder Sample.schedule);
     statefulSetsOrder := reverse (statefulSetsOrder Sample.schedule) |}.

Definition run : ObjectsMap * list string * ClickHouseInstallation * heap :=
  Sample.returned
    (CreateCHIObjects Sample.constants Sample.generators schedule Sample.chi ∅ Sample.store)
    (Sample.emptyObjects, [], Sample.chi, []).

Definition objects : ObjectsMap := run.1.1.1.
Definition ids : list string := run.1.1.2.
Definition chiAfterRun : ClickHouseInstallation := run.1.2.
Definition storeAfterRun : heap := run.2.

End Reversed.

(** A StatefulSet without the mount slices of its containers. *)
Definition eraseMounts (ss : StatefulSet) : StatefulSet :=
  {| ssMeta := ssMeta ss;
     ssReplicas := ssReplicas ss;
     ssServiceName := ssServiceName ss;
     ssSelector := ssSelector ss;
     ssTemplateMeta := ssTemplateMeta ss;
     ssTemplateSpec :=
       {| psVolumes := psVolumes (ssTemplateSpec ss);
          psContainers := (λ c, withVolumeMounts c nilSlice) <$> psContainers (ssTemplateSpec ss) |};
     ssVolumeClaimTemplates := ssVolumeClaimTemplates ss |}.

(** The StatefulSet of an entry without mount slices, as the installation
    and the options determine it. *)
Definition erasedStatefulSet (K : Constants) (chi : ClickHouseInstallation)
    (options : genOptions) (entry : string * string) : option StatefulSet :=
  deployment ← ssDeployments options !! entry.2;
  Some (statefulSetOf K chi entry.1
          (podVolumes chi (createPodTemplatesIndex chi) (PodTemplate deployment) entry.1)
          ((λ c, withVolumeMounts c nilSlice)
             <$> baseContainers K (createPodTemplatesIndex chi) (PodTemplate deployment)
                   (CreateStatefulSetName entry.1))
          (claimsOf (vcIndexOf K chi) (VolumeClaimTemplate deployment))).

(** C2 as stated: two compiles of one installation under any two visiting
    orders emit the same lists. *)
Definition order_independent (K : Constants) (G : Generators) (chi : ClickHouseInstallation)
    (countMax : gmap string Z) (h : heap) : Prop :=
  ∀ sch1 sch2 objs1 ids1 chi1 h1 objs2 ids2 chi2 h2,
    schedule_ok sch1 (prepareOptions G chi countMax) →
    schedule_ok sch2 (prepareOptions G chi countMax) →
    CreateCHIObjects K G sch1 chi countMax h = Ok (objs1, ids1, chi1, h1) →
    CreateCHIObjects K G sch2 chi countMax h = Ok (objs2, ids2, chi2, h2) →
    ids1 = ids2 ∧
    ObjectsServices objs1 = ObjectsServices objs2 ∧
    ObjectsConfigMaps objs1 = ObjectsConfigMaps objs2 ∧
    (λ ss, omName (ssMeta ss)) <$> ObjectsStatefulSets objs1
      = (λ ss, omName (ssMeta ss)) <$> ObjectsStatefulSets objs2.

Lemma Reversed_run_eq :
  CreateCHIObjects Sample.constants Sample.generators Reversed.schedule Sample.chi ∅
    Sample.store
  = Ok (Reversed.objects, Reversed.ids, Reversed.chiAfterRun, Reversed.storeAfterRun).
Proof. vm_compute. reflexivity. Qed.

Lemma Reversed_schedule_ok :
  schedule_ok Reversed.schedule (prepareOptions Sample.generators Sample.chi ∅).
Proof. repeat split; apply reverse_Permutation. Qed.

(** The sample compile under the opposite visiting order returns the
    deployment ids in the opposite order. *)
Lemma order_independent_fails :
  ¬ order_independent Sample.constants Sample.generators Sample.chi ∅ Sample.store.
Proof.
  intros H.
  destruct (H _ _ _ _ _ _ _ _ _ _ (schedule_ok_scheduleOf _) Reversed_schedule_ok
              Sample_run_eq Reversed_run_eq) as [Hids _].
  vm_compute in Hids. discriminate Hids.
Qed.

Section Order.

Variable K : Constants.
Variable G : Generators.

Lemma eraseMounts_statefulSetOf chi d vols cs claims :
  eraseMounts (statefulSetOf K chi d vols cs claims)
  = statefulSetOf K chi d vols ((λ c, withVolumeMounts c nilSlice) <$> cs) claims.
Proof. done. Qed.

Lemma erased_containers base cs :
  Forall2 (λ tc c, c = withVolumeMounts tc (cVolumeMounts c)) base cs →
  (λ c, withVolumeMounts c nilSlice) <$> cs = (λ c, withVolumeMounts c nilSlice) <$> base.
Proof.
  induction 1 as [|tc c base cs E _ IH]; [done|].
  rewrite !fmap_cons, IH. f_equal. by rewrite E.
Qed.

(** Without the mount slices, the list of StatefulSets is a function of the
    visiting order. *)
Lemma createStatefulSetObjects_erased chi options mountOrder order h l chi' h' :
  createStatefulSetObjects K chi options mountOrder order h = Ok (l, chi', h') →
  eraseMounts <$> l = omap (erasedStatefulSet K chi options) order.
Proof.
  intros Hsh%createStatefulSetObjects_shape.
  induction Hsh as [|e ss order l (dep & cs & Hdep & -> & Hcs) _ IH]; [done|].
  rewrite fmap_cons, IH. simpl. unfold erasedStatefulSet at 2. rewrite Hdep. simpl.
  by rewrite eraseMounts_statefulSetOf, (erased_containers _ _ Hcs).
Qed.

Lemma createStatefulSetObjects_names chi options mountOrder order h l chi' h' :
  createStatefulSetObjects K chi options mountOrder order h = Ok (l, chi', h') →
  (λ ss, omName (ssMeta ss)) <$> l = (λ e, CreateStatefulSetName e.1) <$> order.
Proof.
  intros Hsh%createStatefulSetObjects_shape.
  induction Hsh as [|e ss order l (dep & cs & Hdep & -> & Hcs) _ IH]; [done|].
  by rewrite !fmap_cons, IH.
Qed.

(** C2 (order of the output lists), amended.  No sorting takes place: each
    output list follows the order in which its range visited the fingerprint
    index.  For any two visiting orders, one compile returns exactly when the
    other does, and the outputs agree up to the order of the lists: the
    deployment-id slices are permutations of each other; the Services lists
    both start with the installation-wide Service, followed by per-replica
    Services that are permutations of each other; the ConfigMaps lists both
    start with the shared ConfigMap, followed by private ConfigMaps that are
    permutations of each other; the StatefulSet lists are permutations of
    each other as far as everything but the containers' mount slices is
    concerned; and the installation is left the same. *)
Theorem outputs_agree_up_to_order sch1 sch2 chi countMax h :
  schedule_ok sch1 (prepareOptions G chi countMax) →
  schedule_ok sch2 (prepareOptions G chi countMax) →
  ((∃ out h', CreateCHIObjects K G sch1 chi countMax h = Ok (out, h')) ↔
   (∃ out h', CreateCHIObjects K G sch2 chi countMax h = Ok (out, h'))) ∧
  ∀ objs1 ids1 chi1 h1 objs2 ids2 chi2 h2,
    CreateCHIObjects K G sch1 chi countMax h = Ok (objs1, ids1, chi1, h1) →
    CreateCHIObjects K G sch2 chi countMax h = Ok (objs2, ids2, chi2, h2) →
    ids1 = (idsOrder sch1).*1 ∧
    (λ s, omName (svcMeta s)) <$> ObjectsServices objs1
      = CreateChiServiceName (chiName chi)
          :: ((λ e, CreatePodServiceName e.1) <$> servicesOrder sch1) ∧
    (λ c, omName (cmMeta c)) <$> ObjectsConfigMaps objs1
      = CreateConfigMapCommonName (chiName chi)
          :: ((λ e, CreateConfigMapMacrosName (chiName chi) e.1) <$> configMapsOrder sch1) ∧
    (λ ss, omName (ssMeta ss)) <$> ObjectsStatefulSets objs1
      = (λ e, CreateStatefulSetName e.1) <$> statefulSetsOrder sch1 ∧
    ids1 ≡ₚ ids2 ∧
    (∃ r1 r2, ObjectsServices objs1 = chiService K chi :: r1 ∧
              ObjectsServices objs2 = chiService K chi :: r2 ∧ r1 ≡ₚ r2) ∧
    (∃ p1 p2, ObjectsConfigMaps objs1
                = commonConfigMap K chi (prepareOptions G chi countMax) :: p1 ∧
              ObjectsConfigMaps objs2
                = commonConfigMap K chi (prepareOptions G chi countMax) :: p2 ∧ p1 ≡ₚ p2) ∧
    eraseMounts <$> ObjectsStatefulSets objs1 ≡ₚ eraseMounts <$> ObjectsStatefulSets objs2 ∧
    chi1 = chi2.
Proof.
  intros (Hi1 & Hs1 & Hc1 & Hm1 & Ht1) (Hi2 & Hs2 & Hc2 & Hm2 & Ht2). split.
  - rewrite <- !CreateCHIObjects_Ok. unfold all_buildable. by rewrite Ht1, Ht2.
  - intros objs1 ids1 chi1 h1 objs2 ids2 chi2 h2
      (-> & E1 & F1 & R1)%CreateCHIObjects_inv (-> & E2 & F2 & R2)%CreateCHIObjects_inv.
    split_and!.
    + done.
    + rewrite E1. unfold createServiceObjects. simpl. f_equal.
      rewrite <- list_fmap_compose. done.
    + rewrite F1. unfold createConfigMapObjects. simpl. f_equal.
      rewrite <- list_fmap_compose. done.
    + by eapply createStatefulSetObjects_names.
    + by rewrite Hi1, Hi2.
    + eexists _, _. split; [exact E1|]. split; [exact E2|]. by rewrite Hs1, Hs2.
    + eexists _, _. split; [exact F1|]. split; [exact F2|]. by rewrite Hc1, Hc2.
    + rewrite (createStatefulSetObjects_erased _ _ _ _ _ _ _ _ R1).
      rewrite (createStatefulSetObjects_erased _ _ _ _ _ _ _ _ R2).
      by rewrite Ht1, Ht2.
    + apply createStatefulSetObjects_inv in R1 as [-> _].
      by apply createStatefulSetObjects_inv in R2 as [-> _].
Qed.

End Order.

Lemma outputs_agree_up_to_order_witness :
  schedule_ok Sample.schedule (prepareOptions Sample.generators Sample.chi ∅) ∧
  schedule_ok Reversed.schedule (prepareOptions Sample.generators Sample.chi ∅) ∧
  CreateCHIObjects Sample.constants Sample.generators Sample.schedule Sample.chi ∅ Sample.store
    = Ok (Sample.objects, Sample.ids, Sample.chiAfterRun, Sample.storeAfterRun) ∧
  CreateCHIObjects Sample.constants Sample.generators Reversed.schedule Sample.chi ∅
    Sample.store
    = Ok (Reversed.objects, Reversed.ids, Reversed.chiAfterRun, Reversed.storeAfterRun) ∧
  Sample.ids ≡ₚ Reversed.ids ∧
  eraseMounts <$> ObjectsStatefulSets Sample.objects
    ≡ₚ eraseMounts <$> ObjectsStatefulSets Reversed.objects.
Proof.
  split; [apply schedule_ok_scheduleOf|]. split; [exact Reversed_schedule_ok|].
  split; [exact Sample_run_eq|]. split; [exact Reversed_run_eq|].
  destruct (outputs_agree_up_to_order Sample.constants Sample.generators
              Sample.schedule Reversed.schedule Sample.chi ∅ Sample.store
              (schedule_ok_scheduleOf _) Reversed_schedule_ok) as [_ H].
  destruct (H _ _ _ _ _ _ _ _ Sample_run_eq Reversed_run_eq)
    as (_ & _ & _ & _ & A & _ & _ & B & _).
  split; [exact A | exact B].
Defined.

(** ** Lookups in the template indices *)

Section IndexLookups.

Variable K : Constants.

(** The index entry made for a pod template (lines 418-421). *)
Definition podEntryOf (pt : ChiPodTemplate) : podTemplatesIndexData :=
  {| containers := ptContainers pt; volumes := ptVolumes pt |}.

Lemma last_filter_cons {A} (P : A → Prop) `{∀ x, Decision (P x)} (x : A) (l : list A) :
  last (filter P (x :: l)) =
    match last (filter P l) with
    | Some y => Some y
    | None => if decide (P x) then Some x else None
    end.
Proof.
  rewrite filter_cons. destruct (decide (P x)); [|by destruct (last (filter P l))].
  rewrite last_cons. by destruct (last (filter P l)).
Qed.

Lemma vcTemplatesLoop_last_filter ts n : ∀ idx,
  (vcTemplatesLoop K ts idx).1 !! n =
    match last (filter (λ t, vctName t = n) ts) with
    | Some t => Some (vcEntryOf K t)
    | None => idx !! n
    end.
Proof.
  induction ts as [|t ts IH]; intros idx; [done|].
  rewrite vcTemplatesLoop_cons, last_filter_cons. simpl. rewrite IH.
  destruct (last (filter (λ t0, vctName t0 = n) ts)); [done|].
  destruct (decide (vctName t = n)) as [<-|Hne].
  - by rewrite lookup_insert_eq.
  - by rewrite lookup_insert_ne.
Qed.

(** A lookup in the index of claim templates finds the entry of the last
    template declared under the name, and nothing when no template bears the
    name. *)
Theorem claim_index_last_declaration_wins chi n :
  vcIndexOf K chi !! n =
    vcEntryOf K <$> last (filter (λ t, vctName t = n) (chiVolumeClaimTemplates chi)).
Proof.
  rewrite vcIndexOf_eq, vcTemplatesLoop_last_filter.
  by destruct (last (filter (λ t, vctName t = n) (chiVolumeClaimTemplates chi))).
Qed.

Lemma podTemplatesLoop_last_filter pts n : ∀ idx : podTemplatesIndex,
  foldl (λ index podTemplate,
           <[ ptName podTemplate := {| containers := ptContainers podTemplate;
                                       volumes := ptVolumes podTemplate |} ]> index)
        idx pts !! n =
    match last (filter (λ pt, ptName pt = n) pts) with
    | Some pt => Some (podEntryOf pt)
    | None => idx !! n
    end.
Proof.
  induction pts as [|pt pts IH]; intros idx; [done|].
  rewrite last_filter_cons. simpl. rewrite IH.
  destruct (last (filter (λ pt0, ptName pt0 = n) pts)); [done|].
  destruct (decide (ptName pt = n)) as [<-|Hne].
  - by rewrite lookup_insert_eq.
  - by rewrite lookup_insert_ne.
Qed.

(** A lookup in the index of pod templates finds the containers and volumes
    of the last template declared under the name, and nothing when no
    template bears the name. *)
Theorem pod_index_last_declaration_wins chi n :
  createPodTemplatesIndex chi !! n =
    podEntryOf <$> last (filter (λ pt, ptName pt = n) (chiPodTemplates chi)).
Proof.
  unfold createPodTemplatesIndex. rewrite podTemplatesLoop_last_filter.
  by destruct (last (filter (λ pt, ptName pt = n) (chiPodTemplates chi))).
Qed.

End IndexLookups.

(** ** A second compile of the same installation *)

Section Recompile.

Variable K : Constants.
Variable G : Generators.

(** An index entry with its flag cleared. *)
Definition unflagged (d : vcTemplatesIndexData) : vcTemplatesIndexData :=
  {| useDefaultName := false; persistentVolumeClaim := persistentVolumeClaim d |}.

Lemma resolveClaimName_again t :
  useDefaultNamePlaceholder K ≠ chDefaultVolumeMountNameData K →
  resolveClaimName K (resolveClaimName K t).1 = ((resolveClaimName K t).1, false).
Proof.
  intros Hne.
  assert (pvcName (vctPersistentVolumeClaim (resolveClaimName K t).1)
          ≠ useDefaultNamePlaceholder K) as H.
  { destruct (resolveClaimName_spec K t) as (_ & _ & -> & _).
    unfold resolvedClaimName. case_bool_decide; congruence. }
  destruct (resolveClaimName_spec K (resolveClaimName K t).1) as (_ & _ & _ & E).
  rewrite (surjective_pairing (resolveClaimName K (resolveClaimName K t).1)), E.
  by rewrite resolveClaimName_id, bool_decide_eq_false_2.
Qed.

Lemma vcEntryOf_again t :
  useDefaultNamePlaceholder K ≠ chDefaultVolumeMountNameData K →
  vcEntryOf K (resolveClaimName K t).1 = unflagged (vcEntryOf K t).
Proof. intros Hne. unfold vcEntryOf, unflagged. by rewrite resolveClaimName_again. Qed.

Lemma last_filter_resolved n ts :
  last (filter (λ t, vctName t = n) ((λ t, (resolveClaimName K t).1) <$> ts))
  = (λ t, (resolveClaimName K t).1) <$> last (filter (λ t, vctName t = n) ts).
Proof.
  induction ts as [|t ts IH]; [done|].
  rewrite fmap_cons, !last_filter_cons, IH.
  destruct (last (filter (λ t0, vctName t0 = n) ts)); [done|]. simpl.
  rewrite resolveClaimName_name. by destruct (decide (vctName t = n)).
Qed.

Lemma vcIndexOf_chiAfter chi n :
  useDefaultNamePlaceholder K ≠ chDefaultVolumeMountNameData K →
  vcIndexOf K (chiAfter K chi) !! n = unflagged <$> vcIndexOf K chi !! n.
Proof.
  intros Hne. rewrite !vcIndexOf_eq, !vcTemplatesLoop_last_filter, chiAfter_eq. simpl.
  rewrite last_filter_resolved.
  destruct (last (filter (λ t, vctName t = n) (chiVolumeClaimTemplates chi))); [|done].
  simpl. by rewrite vcEntryOf_again.
Qed.

(** When the placeholder is not itself the default data-volume name, a
    compile uses the placeholder up: the installation it leaves behind is a
    fixed point of the renaming, and the index of claim templates built from
    it has the same claims under the same names but no flag set.  So a
    compile of the installation left by an earlier compile attaches the same
    volume claim templates and no data mount. *)
Theorem second_compile_finds_no_placeholder sch chi countMax h objs ids chi' h' :
  useDefaultNamePlaceholder K ≠ chDefaultVolumeMountNameData K →
  CreateCHIObjects K G sch chi countMax h = Ok (objs, ids, chi', h') →
  chiAfter K chi' = chi' ∧
  (∀ n, vcIndexOf K chi' !! n = unflagged <$> vcIndexOf K chi !! n) ∧
  (∀ v, claimsOf (vcIndexOf K chi') v = claimsOf (vcIndexOf K chi) v) ∧
  (∀ v, dataMounts K (vcIndexOf K chi') v = []).
Proof.
  intros Hne (_ & _ & _ & [-> _]%createStatefulSetObjects_inv)%CreateCHIObjects_inv.
  split_and!.
  - rewrite (chiAfter_eq K (chiAfter K chi)). rewrite (chiAfter_eq K chi) at 2.
    rewrite chiAfter_eq. simpl. f_equal.
    rewrite <- list_fmap_compose. apply list_fmap_ext. intros i t _. simpl.
    by rewrite resolveClaimName_again.
  - intros n. by apply vcIndexOf_chiAfter.
  - intros v. unfold claimsOf. rewrite vcIndexOf_chiAfter by done.
    by destruct (vcIndexOf K chi !! v).
  - intros v. unfold dataMounts. rewrite vcIndexOf_chiAfter by done.
    by destruct (vcIndexOf K chi !! v).
Qed.

End Recompile.

Lemma second_compile_finds_no_placeholder_witness :
  useDefaultNamePlaceholder Sample.constants ≠ chDefaultVolumeMountNameData Sample.constants ∧
  CreateCHIObjects Sample.constants Sample.generators Sample.schedule Sample.chi ∅ Sample.store
    = Ok (Sample.objects, Sample.ids, Sample.chiAfterRun, Sample.storeAfterRun) ∧
  chiAfter Sample.constants Sample.chiAfterRun = Sample.chiAfterRun ∧
  ∀ v, dataMounts Sample.constants (vcIndexOf Sample.constants Sample.chiAfterRun) v = [].
Proof.
  assert (useDefaultNamePlaceholder Sample.constants
          ≠ chDefaultVolumeMountNameData Sample.constants) as Hne by discriminate.
  split; [exact Hne|]. split; [exact Sample_run_eq|].
  pose proof (second_compile_finds_no_placeholder Sample.constants Sample.generators
                _ _ _ _ _ _ _ _ Hne Sample_run_eq) as (H1 & _ & _ & H4).
  split; [exact H1 | exact H4].
Defined.

(** ** References between the generated objects *)

Section References.

Variable K : Constants.
Variable G : Generators.

(** In a compile that returns, every StatefulSet belongs to a deployment of
    the fingerprint index, and the last two volumes of its pod are ConfigMap
    volumes that name the shared ConfigMap and the deployment's private
    ConfigMap, both of which are in the output and in the StatefulSet's
    namespace. *)
Theorem pod_volumes_name_generated_config_maps sch chi countMax h objs ids chi' h' ss :
  schedule_ok sch (prepareOptions G chi countMax) →
  CreateCHIObjects K G sch chi countMax h = Ok (objs, ids, chi', h') →
  ss ∈ ObjectsStatefulSets objs →
  ∃ d cmCommon cmMacros base,
    is_Some (fullDeploymentIDToFingerprint (prepareOptions G chi countMax) !! d) ∧
    isStatefulSetOf d ss ∧
    cmCommon ∈ ObjectsConfigMaps objs ∧ isCommonConfigMap chi cmCommon ∧
    cmMacros ∈ ObjectsConfigMaps objs ∧ isMacrosConfigMapOf chi d cmMacros ∧
    omNamespace (cmMeta cmCommon) = omNamespace (ssMeta ss) ∧
    omNamespace (cmMeta cmMacros) = omNamespace (ssMeta ss) ∧
    psVolumes (ssTemplateSpec ss)
      = base ++ [ {| volName := omName (cmMeta cmCommon);
                     volSource := ConfigMapSource (omName (cmMeta cmCommon)) |};
                  {| volName := omName (cmMeta cmMacros);
                     volSource := ConfigMapSource (omName (cmMeta cmMacros)) |} ].
Proof.
  intros Hsch Hrun Hin.
  destruct (statefulSet_origin K G _ _ _ _ _ _ _ _ _ Hsch Hrun Hin)
    as (d & f & dep & cs & Hd & Hdep & ->).
  pose proof Hrun as (_ & _ & Ecm & _)%CreateCHIObjects_inv.
  destruct Hsch as (_ & _ & Hcm & _).
  exists d, (commonConfigMap K chi (prepareOptions G chi countMax)),
    (macrosConfigMap K G chi (prepareOptions G chi countMax) d),
    (baseVolumes (createPodTemplatesIndex chi) (PodTemplate dep)).
  split_and!; try done.
  - rewrite Ecm. unfold createConfigMapObjects. apply elem_of_app. left. apply list_elem_of_here.
  - rewrite Ecm. unfold createConfigMapObjects. apply elem_of_app. right.
    apply list_elem_of_fmap. exists (d, f). split; [done|].
    rewrite Hcm. by apply elem_of_map_to_list.
Qed.

(** Every file mounted from a ConfigMap is a key of that ConfigMap: each
    common mount names the shared ConfigMap and its sub-path is one of its
    keys, every key of the shared ConfigMap is the sub-path of a common
    mount, no two common mounts share a sub-path, and the macros mount of a
    deployment names the deployment's private ConfigMap and mounts the one
    key it has. *)
Theorem mounted_files_are_config_map_keys sch chi countMax :
  mountsOrder sch ≡ₚ map_to_list (commonConfigSections (prepareOptions G chi countMax)) →
  (∀ m, m ∈ commonMounts K chi (mountsOrder sch) →
     vmName m = omName (cmMeta (commonConfigMap K chi (prepareOptions G chi countMax))) ∧
     vmMountPath m = CreateClickHouseConfigFullPath K (vmSubPath m) ∧
     is_Some (cmData (commonConfigMap K chi (prepareOptions G chi countMax)) !! vmSubPath m)) ∧
  (∀ k, is_Some (cmData (commonConfigMap K chi (prepareOptions G chi countMax)) !! k) →
     ∃ m, m ∈ commonMounts K chi (mountsOrder sch) ∧ vmSubPath m = k) ∧
  NoDup (vmSubPath <$> commonMounts K chi (mountsOrder sch)) ∧
  (∀ d, vmName (macrosMount K chi d)
          = omName (cmMeta (macrosConfigMap K G chi (prepareOptions G chi countMax) d)) ∧
        dom (cmData (macrosConfigMap K G chi (prepareOptions G chi countMax) d))
          = {[ vmSubPath (macrosMount K chi d) ]}).
Proof.
  intros Hm. destruct (range_keys _ _ Hm) as (Hnd & _ & Hkeys).
  assert (vmSubPath <$> commonMounts K chi (mountsOrder sch) = (mountsOrder sch).*1) as E.
  { unfold commonMounts, commonVolumeMountsOf. rewrite <- list_fmap_compose.
    by apply list_fmap_ext. }
  split_and!.
  - intros m (e & -> & Hin)%list_elem_of_fmap. simpl. split_and!; [done..|].
    apply Hkeys. apply list_elem_of_fmap. by exists e.
  - intros k ([k' v] & Ek & Hin)%Hkeys%list_elem_of_fmap. simpl in Ek. subst k'.
    eexists. split; [apply list_elem_of_fmap; by exists (k, v) | done].
  - by rewrite E.
  - intros d. split; [done|]. simpl. by rewrite dom_singleton_L.
Qed.

(** The namespace and the two identifying labels of a generated object. *)
Definition marked (K : Constants) (chi : ClickHouseInstallation) (m : ObjectMeta) : Prop :=
  omNamespace m = chiNamespace chi ∧
  omLabels m !! ChopGeneratedLabel K = Some (chiName chi) ∧
  omLabels m !! CHIGeneratedLabel K = Some (chiName chi).

Lemma generatedLabels_marked chi name :
  marked K chi {| omName := name; omNamespace := chiNamespace chi;
                  omLabels := generatedLabels K chi |}.
Proof.
  split_and!; [done|..]; unfold generatedLabels; simpl.
  - apply lookup_insert_eq.
  - destruct (decide (ChopGeneratedLabel K = CHIGeneratedLabel K)) as [->|Hne].
    + apply lookup_insert_eq.
    + rewrite lookup_insert_ne by done. apply lookup_singleton_eq.
Qed.

(** In a compile that returns, every Service, every ConfigMap and every
    StatefulSet of the output is in the installation's namespace and carries
    both identifying labels with the installation's name as value. *)
Theorem generated_objects_are_marked sch chi countMax h objs ids chi' h' :
  CreateCHIObjects K G sch chi countMax h = Ok (objs, ids, chi', h') →
  Forall (λ s, marked K chi (svcMeta s)) (ObjectsServices objs) ∧
  Forall (λ cm, marked K chi (cmMeta cm)) (ObjectsConfigMaps objs) ∧
  Forall (λ ss, marked K chi (ssMeta ss)) (ObjectsStatefulSets objs).
Proof.
  intros (_ & -> & -> & Hs)%CreateCHIObjects_inv. split_and!.
  - apply Forall_app. split; [repeat constructor; apply generatedLabels_marked|].
    apply Forall_fmap, Forall_forall. intros e _. apply generatedLabels_marked.
  - apply Forall_app. split; [repeat constructor; apply generatedLabels_marked|].
    apply Forall_fmap, Forall_forall. intros e _. apply generatedLabels_marked.
  - pose proof (createStatefulSetObjects_shape _ _ _ _ _ _ _ _ _ Hs) as Hsh.
    apply Forall_forall. intros ss [i Hi]%list_elem_of_lookup.
    destruct (Forall2_lookup_r _ _ _ _ _ Hsh Hi) as (e & _ & dep & cs & _ & -> & _).
    apply generatedLabels_marked.
Qed.

(** In a compile that returns, the slice of deployment ids lists every key of
    the fingerprint index, each once, and nothing else. *)
Theorem deployment_ids_listed_once sch chi countMax h objs ids chi' h' :
  schedule_ok sch (prepareOptions G chi countMax) →
  CreateCHIObjects K G sch chi countMax h = Ok (objs, ids, chi', h') →
  NoDup ids ∧
  ∀ d, d ∈ ids ↔ is_Some (fullDeploymentIDToFingerprint (prepareOptions G chi countMax) !! d).
Proof.
  intros (Hids & _) (-> & _)%CreateCHIObjects_inv.
  by destruct (range_keys _ _ Hids) as (? & _ & ?).
Qed.

End References.

Lemma pod_volumes_name_generated_config_maps_witness :
  schedule_ok Sample.schedule (prepareOptions Sample.generators Sample.chi ∅) ∧
  CreateCHIObjects Sample.constants Sample.generators Sample.schedule Sample.chi ∅ Sample.store
    = Ok (Sample.objects, Sample.ids, Sample.chiAfterRun, Sample.storeAfterRun) ∧
  ∃ ss, ObjectsStatefulSets Sample.objects !! 0 = Some ss ∧
    ∃ d cmCommon cmMacros base,
      is_Some (fullDeploymentIDToFingerprint (prepareOptions Sample.generators Sample.chi ∅)
                 !! d) ∧
      isStatefulSetOf d ss ∧
      cmCommon ∈ ObjectsConfigMaps Sample.objects ∧ isCommonConfigMap Sample.chi cmCommon ∧
      cmMacros ∈ ObjectsConfigMaps Sample.objects ∧ isMacrosConfigMapOf Sample.chi d cmMacros ∧
      omNamespace (cmMeta cmCommon) = omNamespace (ssMeta ss) ∧
      omNamespace (cmMeta cmMacros) = omNamespace (ssMeta ss) ∧
      psVolumes (ssTemplateSpec ss)
        = base ++ [ {| volName := omName (cmMeta cmCommon);
                       volSource := ConfigMapSource (omName (cmMeta cmCommon)) |};
                    {| volName := omName (cmMeta cmMacros);
                       volSource := ConfigMapSource (omName (cmMeta cmMacros)) |} ].
Proof.
  pose proof (schedule_ok_scheduleOf (prepareOptions Sample.generators Sample.chi ∅)) as Hsch.
  split; [exact Hsch|]. split; [exact Sample_run_eq|].
  destruct (ObjectsStatefulSets Sample.objects !! 0) as [ss|] eqn:E;
    [|vm_compute in E; discriminate E].
  exists ss. split; [reflexivity|].
  exact (pod_volumes_name_generated_config_maps Sample.constants Sample.generators
           _ _ _ _ _ _ _ _ ss Hsch Sample_run_eq (list_elem_of_lookup_2 _ _ _ E)).
Defined.

Lemma mounted_files_are_config_map_keys_witness :
  mountsOrder Sample.schedule
    ≡ₚ map_to_list (commonConfigSections (prepareOptions Sample.generators Sample.chi ∅)) ∧
  NoDup (vmSubPath <$> commonMounts Sample.constants Sample.chi (mountsOrder Sample.schedule)) ∧
  ∀ k, is_Some (cmData (commonConfigMap Sample.constants Sample.chi
                          (prepareOptions Sample.generators Sample.chi ∅)) !! k) →
       ∃ m, m ∈ commonMounts Sample.constants Sample.chi (mountsOrder Sample.schedule) ∧
            vmSubPath m = k.
Proof.
  assert (mountsOrder Sample.schedule
    ≡ₚ map_to_list (commonConfigSections (prepareOptions Sample.generators Sample.chi ∅)))
    as Hm by reflexivity.
  split; [exact Hm|].
  pose proof (mounted_files_are_config_map_keys Sample.constants Sample.generators
                Sample.schedule Sample.chi ∅ Hm) as (_ & H2 & H3 & _).
  split; [exact H3 | exact H2].
Defined.

Lemma generated_objects_are_marked_witness :
  CreateCHIObjects Sample.constants Sample.generators Sample.schedule Sample.chi ∅ Sample.store
    = Ok (Sample.objects, Sample.ids, Sample.chiAfterRun, Sample.storeAfterRun) ∧
  Forall (λ s, marked Sample.constants Sample.chi (svcMeta s)) (ObjectsServices Sample.objects) ∧
  Forall (λ cm, marked Sample.constants Sample.chi (cmMeta cm))
         (ObjectsConfigMaps Sample.objects) ∧
  Forall (λ ss, marked Sample.constants Sample.chi (ssMeta ss))
         (ObjectsStatefulSets Sample.objects).
Proof.
  split; [exact Sample_run_eq|].
  exact (generated_objects_are_marked Sample.constants Sample.generators
           _ _ _ _ _ _ _ _ Sample_run_eq).
Defined.

Lemma deployment_ids_listed_once_witness :
  schedule_ok Sample.schedule (prepareOptions Sample.generators Sample.chi ∅) ∧
  CreateCHIObjects Sample.constants Sample.generators Sample.schedule Sample.chi ∅ Sample.store
    = Ok (Sample.objects, Sample.ids, Sample.chiAfterRun, Sample.storeAfterRun) ∧
  NoDup Sample.ids ∧
  ∀ d, d ∈ Sample.ids ↔
       is_Some (fullDeploymentIDToFingerprint (prepareOptions Sample.generators Sample.chi ∅)
                  !! d).
Proof.
  pose proof (schedule_ok_scheduleOf (prepareOptions Sample.generators Sample.chi ∅)) as Hsch.
  split; [exact Hsch|]. split; [exact Sample_run_eq|].
  exact (deployment_ids_listed_once Sample.constants Sample.generators
           _ _ _ _ _ _ _ _ Hsch Sample_run_eq).
Defined.

(** ** When and how the compile fails *)

Section Panics.

Variable K : Constants.
Variable G : Generators.

(** The two ways in which an entry of the fingerprint index makes the
    builder fail: its fingerprint has no deployment, or its deployment
    selects a claim template that takes the default name together with a pod
    template that declares no container. *)
Definition unbuildable (options : genOptions) (vcI : vcTemplatesIndex)
    (podI : podTemplatesIndex) (entry : string * string) : Prop :=
  ssDeployments options !! entry.2 = None ∨
  ∃ deployment data pod,
    ssDeployments options !! entry.2 = Some deployment ∧
    vcI !! VolumeClaimTemplate deployment = Some data ∧ useDefaultName data = true ∧
    podI !! PodTemplate deployment = Some pod ∧ containers pod = [].

Lemma buildable_or_unbuildable options vcI podI entry :
  buildable K options vcI podI entry ∨ unbuildable options vcI podI entry.
Proof.
  unfold buildable, unbuildable, dataMounts, baseContainers.
  destruct (ssDeployments options !! entry.2) as [dep|]; [|by right; left].
  destruct (vcI !! VolumeClaimTemplate dep) as [data|] eqn:Ev.
  2: { left. exists dep. split; [done|]. left. by rewrite Ev. }
  destruct (useDefaultName data) eqn:Ef.
  2: { left. exists dep. split; [done|]. left. by rewrite Ev, Ef. }
  destruct (podI !! PodTemplate dep) as [pod|] eqn:Ep.
  - destruct (containers pod) as [|c cs] eqn:Ec.
    + right. right. by exists dep, data, pod.
    + left. exists dep. split; [done|]. right. by rewrite Ep, Ec.
  - left. exists dep. split; [done|]. right. by rewrite Ep.
Qed.

Lemma unbuildable_not_buildable options vcI podI entry :
  unbuildable options vcI podI entry → ¬ buildable K options vcI podI entry.
Proof.
  unfold buildable, unbuildable, dataMounts, baseContainers.
  intros [Hn|(dep & data & pod & Hd & Hv & Hf & Hp & Hc)] (dep' & Hd' & Hb).
  - by rewrite Hn in Hd'.
  - rewrite Hd in Hd'. injection Hd' as <-.
    rewrite Hv, Hf, Hp, Hc in Hb. by destruct Hb.
Qed.

Lemma not_Forall_buildable options vcI podI order :
  ¬ Forall (buildable K options vcI podI) order ↔
  ∃ entry, entry ∈ order ∧ unbuildable options vcI podI entry.
Proof.
  split.
  - induction order as [|e order IH]; intros H; [by destruct H|].
    destruct (buildable_or_unbuildable options vcI podI e) as [He|He].
    + destruct IH as (e' & Hin & Hu).
      { intros Hall. apply H. by constructor. }
      exists e'. split; [by right | done].
    + exists e. split; [left | done].
  - intros (e & Hin & Hu) Hall.
    eapply unbuildable_not_buildable; [done|]. by eapply Forall_forall in Hall.
Qed.

(** A compile panics exactly when the range over the fingerprint index
    visits an entry whose fingerprint has no deployment, or whose deployment
    selects a claim template that takes the default name together with a pod
    template without containers; in every other case it returns.  Neither
    the store nor the visiting orders matter. *)
Theorem compile_panics_iff_unbuildable_entry sch chi countMax h :
  (∃ p, CreateCHIObjects K G sch chi countMax h = Panic p) ↔
  ∃ entry, entry ∈ statefulSetsOrder sch ∧
    unbuildable (prepareOptions G chi countMax) (vcIndexOf K chi)
      (createPodTemplatesIndex chi) entry.
Proof.
  rewrite <- (CreateCHIObjects_Panic K G sch chi countMax h).
  apply not_Forall_buildable.
Qed.

Lemma createStatefulSetObject_IndexOutOfRange chi options vcI podI common entry deployment g :
  ssDeployments options !! entry.2 = Some deployment →
  ¬ buildable K options vcI podI entry →
  createStatefulSetObject K chi options vcI podI common entry g = Panic IndexOutOfRange.
Proof.
  intros Hd Hnb.
  destruct (buildable_or_unbuildable options vcI podI entry)
    as [?|[Hn|(dep & data & pod & Hd' & Hv & Hf & Hp & Hc)]]; [done | congruence |].
  rewrite Hd in Hd'. injection Hd' as <-.
  unfold createStatefulSetObject. rewrite Hd.
  unfold mbind at 1, M_bind at 1. rewrite currentVolumeMountsOf_eq.
  unfold mbind at 1, M_bind at 1.
  unfold podVolumesAndContainers. rewrite Hp, Hc. simpl.
  unfold mbind at 1, M_bind at 1.
  rewrite claimTemplates_panic; [done|].
  unfold dataMounts. by rewrite Hv, Hf.
Qed.

(** The panic of a compile is that of the first entry, in the visiting order
    of the range over the fingerprint index, which cannot be built: a nil
    dereference when the entry's fingerprint has no deployment, an index out
    of range otherwise. *)
Theorem first_unbuildable_entry_decides_the_panic sch chi countMax h l1 entry l2 :
  statefulSetsOrder sch = l1 ++ entry :: l2 →
  Forall (buildable K (prepareOptions G chi countMax) (vcIndexOf K chi)
            (createPodTemplatesIndex chi)) l1 →
  ¬ buildable K (prepareOptions G chi countMax) (vcIndexOf K chi)
      (createPodTemplatesIndex chi) entry →
  CreateCHIObjects K G sch chi countMax h
  = Panic (match ssDeployments (prepareOptions G chi countMax) !! entry.2 with
           | Some _ => IndexOutOfRange
           | None => NilDereference
           end).
Proof.
  intros Ho Hl1 He.
  unfold CreateCHIObjects, mbind at 1, M_bind at 1.
  rewrite createStatefulSetObjects_eq, Ho. unfold mbind at 1, M_bind at 1.
  rewrite (forM_Panic _ l1 l2 entry
             (match ssDeployments (prepareOptions G chi countMax) !! entry.2 with
              | Some _ => IndexOutOfRange
              | None => NilDereference
              end)); [done| |].
  - intros g. destruct (ssDeployments (prepareOptions G chi countMax) !! entry.2) eqn:Ed.
    + by eapply createStatefulSetObject_IndexOutOfRange.
    + by apply createStatefulSetObject_None.
  - intros e Hin g. eapply Forall_forall in Hl1; [|done].
    by apply (createStatefulSetObject_Ok K chi _ _ _ (commonMounts K chi (mountsOrder sch)) e g).
Qed.

End Panics.

Lemma first_unbuildable_entry_decides_the_panic_witness :
  statefulSetsOrder EmptyPod.schedule = [] ++ ("main-0-0", "bare/data") :: [] ∧
  Forall (buildable Sample.constants (prepareOptions Sample.generators EmptyPod.chi ∅)
            (vcIndexOf Sample.constants EmptyPod.chi)
            (createPodTemplatesIndex EmptyPod.chi)) [] ∧
  ¬ buildable Sample.constants (prepareOptions Sample.generators EmptyPod.chi ∅)
      (vcIndexOf Sample.constants EmptyPod.chi)
      (createPodTemplatesIndex EmptyPod.chi) ("main-0-0", "bare/data") ∧
  CreateCHIObjects Sample.constants Sample.generators EmptyPod.schedule EmptyPod.chi ∅ []
  = Panic (match ssDeployments (prepareOptions Sample.generators EmptyPod.chi ∅)
                   !! ("main-0-0", "bare/data").2 with
           | Some _ => IndexOutOfRange
           | None => NilDereference
           end).
Proof.
  assert (statefulSetsOrder EmptyPod.schedule = [] ++ ("main-0-0", "bare/data") :: []) as Ho.
  { vm_compute. reflexivity. }
  assert (¬ buildable Sample.constants (prepareOptions Sample.generators EmptyPod.chi ∅)
            (vcIndexOf Sample.constants EmptyPod.chi)
            (createPodTemplatesIndex EmptyPod.chi) ("main-0-0", "bare/data")) as He.
  { apply unbuildable_not_buildable. right.
    exists {| PodTemplate := "bare"; VolumeClaimTemplate := "data" |},
      {| useDefaultName := true;
         persistentVolumeClaim := {| pvcName := "clickhouse-data"; pvcSpec := "10Gi" |} |},
      {| containers := []; volumes := [] |}.
    split_and!; vm_compute; reflexivity. }
  split; [exact Ho|]. split; [constructor|]. split; [exact He|].
  exact (first_unbuildable_entry_decides_the_panic Sample.constants Sample.generators
           EmptyPod.schedule EmptyPod.chi ∅ [] [] ("main-0-0", "bare/data") [] Ho
           (Forall_nil_2 _) He).
Defined.

(** ** The number of mounts of a container *)

Section MountCounts.

Variable K : Constants.
Variable G : Generators.

Lemma appendCurrent_len cur tc g c g' :
  appendCurrent cur tc g = Ok (c, g') →
  s_len (cVolumeMounts c) = s_len (cVolumeMounts tc) + s_len cur.
Proof.
  unfold appendCurrent. intros (s & g1 & Hf & [<- _]%ret_Ok)%bind_Ok.
  apply foldM_appendIndexed_len in Hf. rewrite length_seq in Hf. done.
Qed.

Lemma forM_appendCurrent_len cur tcs : ∀ g cs g',
  forM (appendCurrent cur) tcs g = Ok (cs, g') →
  Forall2 (λ tc c, s_len (cVolumeMounts c) = s_len (cVolumeMounts tc) + s_len cur) tcs cs.
Proof.
  induction tcs as [|tc tcs IH]; intros g cs g'; simpl.
  - intros [<- _]%ret_Ok. constructor.
  - intros (c & g1 & Hc & (cs' & g2 & Hf & [<- _]%ret_Ok)%bind_Ok)%bind_Ok.
    constructor; [by eapply appendCurrent_len | by eapply IH].
Qed.

(** The number of mounts the builder leaves on the [i]-th container of a
    deployment, given the number its template declares. *)
Definition mountCount (sections : nat) (vcI : vcTemplatesIndex) (volumeClaimTemplate : string)
    (i declared : nat) : nat :=
  declared + sections + 1
    + (if decide (i = 0) then length (dataMounts K vcI volumeClaimTemplate) else 0).

Lemma createStatefulSetObject_len chi options vcI podI common entry g ss g' :
  createStatefulSetObject K chi options vcI podI common entry g = Ok (ss, g') →
  ∃ deployment,
    ssDeployments options !! entry.2 = Some deployment ∧
    ∀ i tc, baseContainers K podI (PodTemplate deployment) (CreateStatefulSetName entry.1) !! i
              = Some tc →
      ∃ c, psContainers (ssTemplateSpec ss) !! i = Some c ∧
           s_len (cVolumeMounts c)
             = mountCount (length common) vcI (VolumeClaimTemplate deployment) i
                 (s_len (cVolumeMounts tc)).
Proof.
  intros (dep & cur & g1 & cs0 & g2 & cs & Hdep & H1 & H2 & H3 & ->)%createStatefulSetObject_inv.
  exists dep. split; [done|].
  apply currentVolumeMountsOf_spec in H1 as (_ & _ & _ & Lcur & _).
  assert (Forall2 (λ tc c, s_len (cVolumeMounts c) = s_len (cVolumeMounts tc) + s_len cur)
            (baseContainers K podI (PodTemplate dep) (CreateStatefulSetName entry.1)) cs0) as R.
  { unfold podVolumesAndContainers, baseContainers in *.
    destruct (podI !! PodTemplate dep) as [d|].
    - apply bind_Ok in H2 as (cs1 & ? & Hf & [[= _ <-] <-]%ret_Ok).
      by eapply forM_appendCurrent_len.
    - apply ret_Ok in H2 as [[= _ <-] _]. simpl. by repeat constructor. }
  unfold mountCount. simpl.
  apply claimTemplates_inv in H3 as [_ [(-> & -> & _)|(-> & c0 & rest & s & -> & -> & Ha)]].
  - intros i tc Htc. destruct (Forall2_lookup_l _ _ _ _ _ R Htc) as (c & Hc & E).
    exists c. split; [done|]. rewrite E, Lcur. destruct (decide (i = 0)); simpl; lia.
  - apply append_len in Ha.
    intros i tc Htc. destruct (Forall2_lookup_l _ _ _ _ _ R Htc) as (c & Hc & E).
    destruct i as [|i]; simpl in *.
    + injection Hc as <-. eexists. split; [done|]. simpl. lia.
    + exists c. split; [done|]. lia.
Qed.

(** In a compile that returns, the [i]-th container of the StatefulSet of
    each entry has as many mounts as its template declares (none for the
    default container), one more for each shared section, one for the macros
    file and, for the first container of a deployment whose claim template
    takes the default name, one for the data volume.  The count holds in any
    store, whatever the capacities of the declared mount slices. *)
Theorem mount_counts sch chi countMax h objs ids chi' h' :
  schedule_ok sch (prepareOptions G chi countMax) →
  CreateCHIObjects K G sch chi countMax h = Ok (objs, ids, chi', h') →
  Forall2 (λ entry ss, ∃ deployment,
      ssDeployments (prepareOptions G chi countMax) !! entry.2 = Some deployment ∧
      isStatefulSetOf entry.1 ss ∧
      ∀ i tc, baseContainers K (createPodTemplatesIndex chi) (PodTemplate deployment)
                (CreateStatefulSetName entry.1) !! i = Some tc →
        ∃ c, psContainers (ssTemplateSpec ss) !! i = Some c ∧
             s_len (cVolumeMounts c)
               = mountCount (size (commonConfigSections (prepareOptions G chi countMax)))
                   (vcIndexOf K chi) (VolumeClaimTemplate deployment) i
                   (s_len (cVolumeMounts tc)))
    (statefulSetsOrder sch) (ObjectsStatefulSets objs).
Proof.
  intros (_ & _ & _ & Hm & _) (_ & _ & _ & Hs)%CreateCHIObjects_inv.
  destruct (range_keys _ _ Hm) as (_ & <- & _).
  pose proof Hs as [_ H]%createStatefulSetObjects_inv.
  pose proof (createStatefulSetObjects_shape _ _ _ _ _ _ _ _ _ Hs) as Hsh.
  eapply (forM_Forall2 _ (λ _, True)
            (λ entry ss _, ∃ deployment,
               ssDeployments (prepareOptions G chi countMax) !! entry.2 = Some deployment ∧
               ∀ i tc, baseContainers K (createPodTemplatesIndex chi) (PodTemplate deployment)
                         (CreateStatefulSetName entry.1) !! i = Some tc →
                 ∃ c, psContainers (ssTemplateSpec ss) !! i = Some c ∧
                      s_len (cVolumeMounts c)
                        = mountCount (length (mountsOrder sch)) (vcIndexOf K chi)
                            (VolumeClaimTemplate deployment) i (s_len (cVolumeMounts tc))))
    in H as (_ & H & _); [| |done].
  - apply Forall2_same_length_lookup. split; [by eapply Forall2_length|].
    intros i e ss He Hss.
    destruct (Forall2_lookup_lr _ _ _ _ _ _ H He Hss) as (dep & Hdep & Hc).
    destruct (Forall2_lookup_lr _ _ _ _ _ _ Hsh He Hss) as (dep' & cs & _ & -> & _).
    exists dep. split_and!; [done | done | exact Hc].
  - intros e g ss g' _ _ Hss. split_and!; [done | | done].
    apply createStatefulSetObject_len in Hss as (dep & Hdep & Hc).
    exists dep. split; [done|].
    intros i tc Htc. destruct (Hc i tc Htc) as (c & ? & E). exists c. split; [done|].
    rewrite E. unfold commonMounts, commonVolumeMountsOf. by rewrite length_fmap.
Qed.

End MountCounts.

Lemma Shared_run_parts :
  CreateCHIObjects Sample.constants Sample.generators Shared.schedule Shared.chi ∅ Shared.store
  = Ok (Shared.run.1.1.1, Shared.run.1.1.2, Shared.run.1.2, Shared.run.2).
Proof. vm_compute. reflexivity. Qed.

Lemma mount_counts_witness :
  schedule_ok Shared.schedule (prepareOptions Sample.generators Shared.chi ∅) ∧
  CreateCHIObjects Sample.constants Sample.generators Shared.schedule Shared.chi ∅ Shared.store
    = Ok (Shared.run.1.1.1, Shared.run.1.1.2, Shared.run.1.2, Shared.run.2) ∧
  Forall2 (λ entry ss, ∃ deployment,
      ssDeployments (prepareOptions Sample.generators Shared.chi ∅) !! entry.2
        = Some deployment ∧
      isStatefulSetOf entry.1 ss ∧
      ∀ i tc, baseContainers Sample.constants (createPodTemplatesIndex Shared.chi)
                (PodTemplate deployment) (CreateStatefulSetName entry.1) !! i = Some tc →
        ∃ c, psContainers (ssTemplateSpec ss) !! i = Some c ∧
             s_len (cVolumeMounts c)
               = mountCount Sample.constants
                   (size (commonConfigSections (prepareOptions Sample.generators Shared.chi ∅)))
                   (vcIndexOf Sample.constants Shared.chi) (VolumeClaimTemplate deployment) i
                   (s_len (cVolumeMounts tc)))
    (statefulSetsOrder Shared.schedule) (ObjectsStatefulSets Shared.run.1.1.1).
Proof.
  pose proof (schedule_ok_scheduleOf (prepareOptions Sample.generators Shared.chi ∅)) as Hsch.
  split; [exact Hsch|]. split; [exact Shared_run_parts|].
  exact (mount_counts Sample.constants Sample.generators
           Shared.schedule Shared.chi ∅ Shared.store
           Shared.run.1.1.1 Shared.run.1.1.2 Shared.run.1.2 Shared.run.2 Hsch Shared_run_parts).
Defined.

(** ** The store after the compile *)

Section Store.

Variable K : Constants.
Variable G : Generators.

Lemma frame0_prefix (g g' : heap) :
  frame 0 (length g) g g' → g' = g ++ drop (length g) g'.
Proof.
  intros [L F]. rewrite <- (take_drop (length g) g') at 1. f_equal.
  apply list_eq. intros a. destruct (decide (a < length g)).
  - rewrite lookup_take_lt by done. apply F; lia.
  - rewrite lookup_take_ge by lia. symmetry. apply lookup_ge_None. lia.
Qed.

(** In a compile that returns from a store in which the declared mount
    slices are valid and have no spare room, the store only grows: every
    array it held is still there, at the same address and with the same
    contents, and the arrays the compile allocated come after them. *)
Theorem compile_only_extends_the_store sch chi countMax h objs ids chi' h' :
  declared_slices (λ s, slice_ok h s ∧ tight s) chi →
  CreateCHIObjects K G sch chi countMax h = Ok (objs, ids, chi', h') →
  ∃ allocated, h' = h ++ allocated.
Proof.
  intros Hok (_ & _ & _ & Hs)%CreateCHIObjects_inv.
  destruct (createStatefulSetObjects_template K chi _ _ _ h _ _ _ Hok Hs) as [F _].
  eexists. by apply frame0_prefix.
Qed.

End Store.

Lemma compile_only_extends_the_store_witness :
  declared_slices (λ s, slice_ok Sample.store s ∧ tight s) Sample.chi ∧
  CreateCHIObjects Sample.constants Sample.generators Sample.schedule Sample.chi ∅ Sample.store
    = Ok (Sample.objects, Sample.ids, Sample.chiAfterRun, Sample.storeAfterRun) ∧
  ∃ allocated, Sample.storeAfterRun = Sample.store ++ allocated.
Proof.
  assert (declared_slices (λ s, slice_ok Sample.store s ∧ tight s) Sample.chi) as Hok.
  { repeat constructor; vm_compute; lia. }
  split; [exact Hok|]. split; [exact Sample_run_eq|].
  exact (compile_only_extends_the_store Sample.constants Sample.generators
           _ _ _ _ _ _ _ _ Hok Sample_run_eq).
Defined.

(** ** Installations without templates *)

Module Bare.

(** An installation that declares no template; its two replicas name
    none. *)
Definition chi : ClickHouseInstallation :=
  {| chiName := "demo";
     chiNamespace := "my-ns";
     chiClusters :=
       [ {| clusterName := "main";
            clusterShards :=
              [ [ {| PodTemplate := ""; VolumeClaimTemplate := "" |} ];
                [ {| PodTemplate := ""; VolumeClaimTemplate := "" |} ] ] |} ];
     chiPodTemplates := [];
     chiVolumeClaimTemplates := [] |}.

Definition schedule : Schedule :=
  Sample.scheduleOf (prepareOptions Sample.generators chi ∅).

Definition run : ObjectsMap * list string * ClickHouseInstallation * heap :=
  Sample.returned (CreateCHIObjects Sample.constants Sample.generators schedule chi ∅ [])
                  (Sample.emptyObjects, [], chi, []).

Definition objects : ObjectsMap := run.1.1.1.
Definition ids : list string := run.1.1.2.
Definition chiAfterRun : ClickHouseInstallation := run.1.2.
Definition storeAfterRun : heap := run.2.

End Bare.

Lemma Bare_run_eq :
  CreateCHIObjects Sample.constants Sample.generators Bare.schedule Bare.chi ∅ []
  = Ok (Bare.objects, Bare.ids, Bare.chiAfterRun, Bare.storeAfterRun).
Proof. vm_compute. reflexivity. Qed.

Lemma Bare_order_eq :
  statefulSetsOrder Bare.schedule = [("main-1-0", "/"); ("main-0-0", "/")].
Proof. vm_compute. reflexivity. Qed.

Lemma Bare_deployment :
  is_Some (ssDeployments (prepareOptions Sample.generators Bare.chi ∅) !! "/").
Proof. vm_compute. eauto. Qed.

Section NoTemplates.

Variable K : Constants.
Variable G : Generators.

(** The compile of an installation that declares no pod template and no
    claim template returns whenever every visited fingerprint has a
    deployment, whatever templates the deployments name.  It leaves the
    installation as it was, and every StatefulSet has the default container
    alone, the two ConfigMap volumes alone and no volume claim template. *)
Theorem compile_without_templates sch chi countMax h :
  chiPodTemplates chi = [] →
  chiVolumeClaimTemplates chi = [] →
  Forall (λ entry, is_Some (ssDeployments (prepareOptions G chi countMax) !! entry.2))
         (statefulSetsOrder sch) →
  ∃ objs ids h',
    CreateCHIObjects K G sch chi countMax h = Ok (objs, ids, chi, h') ∧
    Forall2 (λ entry ss,
        ∃ s, psContainers (ssTemplateSpec ss)
               = [createDefaultContainerTemplate K (CreateStatefulSetName entry.1) s] ∧
             psVolumes (ssTemplateSpec ss)
               = [createVolume (CreateConfigMapCommonName (chiName chi));
                  createVolume (CreateConfigMapMacrosName (chiName chi) entry.1)] ∧
             ssVolumeClaimTemplates ss = [])
      (statefulSetsOrder sch) (ObjectsStatefulSets objs).
Proof.
  intros Hp Hv Hdep.
  assert (vcIndexOf K chi = ∅) as Ev by (by rewrite vcIndexOf_eq, Hv).
  assert (createPodTemplatesIndex chi = ∅) as Ep.
  { unfold createPodTemplatesIndex. by rewrite Hp. }
  assert (chiAfter K chi = chi) as Ec.
  { rewrite chiAfter_eq, Hv. destruct chi. simpl in *. by subst. }
  assert (all_buildable K chi (prepareOptions G chi countMax) (statefulSetsOrder sch)) as Hb.
  { unfold all_buildable. eapply Forall_impl; [exact Hdep|].
    intros e [dep Hd]. exists dep. split; [done|]. left.
    unfold dataMounts. by rewrite Ev, lookup_empty. }
  apply (CreateCHIObjects_Ok K G sch chi countMax h) in Hb as ([[objs ids] chi'] & h' & Hrun).
  pose proof Hrun as (_ & _ & _ & Hs)%CreateCHIObjects_inv.
  pose proof Hs as [-> _]%createStatefulSetObjects_inv.
  rewrite Ec in Hrun. exists objs, ids, h'. split; [done|].
  pose proof (createStatefulSetObjects_shape _ _ _ _ _ _ _ _ _ Hs) as Hsh.
  eapply Forall2_impl; [exact Hsh|].
  intros e ss (dep & cs & _ & -> & R). simpl.
  unfold podVolumes, baseVolumes, claimsOf, baseContainers in *.
  rewrite Ev, Ep, !lookup_empty in *.
  inversion R as [|tc c ? cs' Hc R']; subst. inversion R'; subst.
  exists (cVolumeMounts c). by rewrite Hc at 1.
Qed.

End NoTemplates.

Lemma compile_without_templates_witness :
  chiPodTemplates Bare.chi = [] ∧
  chiVolumeClaimTemplates Bare.chi = [] ∧
  Forall (λ entry, is_Some (ssDeployments (prepareOptions Sample.generators Bare.chi ∅)
                              !! entry.2))
         (statefulSetsOrder Bare.schedule) ∧
  ∃ objs ids h',
    CreateCHIObjects Sample.constants Sample.generators Bare.schedule Bare.chi ∅ []
      = Ok (objs, ids, Bare.chi, h') ∧
    Forall2 (λ entry ss,
        ∃ s, psContainers (ssTemplateSpec ss)
               = [createDefaultContainerTemplate Sample.constants
                    (CreateStatefulSetName entry.1) s] ∧
             psVolumes (ssTemplateSpec ss)
               = [createVolume (CreateConfigMapCommonName (chiName Bare.chi));
                  createVolume (CreateConfigMapMacrosName (chiName Bare.chi) entry.1)] ∧
             ssVolumeClaimTemplates ss = [])
      (statefulSetsOrder Bare.schedule) (ObjectsStatefulSets objs).
Proof.
  assert (Forall (λ entry, is_Some (ssDeployments (prepareOptions Sample.generators Bare.chi ∅)
                                      !! entry.2))
            (statefulSetsOrder Bare.schedule)) as Hdep.
  { rewrite Bare_order_eq. repeat constructor; exact Bare_deployment. }
  split; [reflexivity|]. split; [reflexivity|]. split; [exact Hdep|].
  exact (compile_without_templates Sample.constants Sample.generators Bare.schedule Bare.chi ∅ []
           eq_refl eq_refl Hdep).
Defined.

(** ** Deployments with the same fingerprint *)

Section Fingerprints.

Variable K : Constants.
Variable G : Generators.

(** In a compile that returns, the StatefulSets of two deployments with the
    same fingerprint are built from the same deployment record: they have
    the same volume claim templates, the same pod volumes but for the last
    one, which names each deployment's own private ConfigMap, and containers
    that agree one by one in image and ports. *)
Theorem same_fingerprint_same_templates sch chi countMax h objs ids chi' h' d1 d2 f :
  schedule_ok sch (prepareOptions G chi countMax) →
  CreateCHIObjects K G sch chi countMax h = Ok (objs, ids, chi', h') →
  fullDeploymentIDToFingerprint (prepareOptions G chi countMax) !! d1 = Some f →
  fullDeploymentIDToFingerprint (prepareOptions G chi countMax) !! d2 = Some f →
  ∃ ss1 ss2 base,
    ss1 ∈ ObjectsStatefulSets objs ∧ isStatefulSetOf d1 ss1 ∧
    ss2 ∈ ObjectsStatefulSets objs ∧ isStatefulSetOf d2 ss2 ∧
    ssVolumeClaimTemplates ss1 = ssVolumeClaimTemplates ss2 ∧
    psVolumes (ssTemplateSpec ss1)
      = base ++ [createVolume (CreateConfigMapCommonName (chiName chi));
                 createVolume (CreateConfigMapMacrosName (chiName chi) d1)] ∧
    psVolumes (ssTemplateSpec ss2)
      = base ++ [createVolume (CreateConfigMapCommonName (chiName chi));
                 createVolume (CreateConfigMapMacrosName (chiName chi) d2)] ∧
    Forall2 (λ c1 c2, cImage c1 = cImage c2 ∧ cPorts c1 = cPorts c2)
      (psContainers (ssTemplateSpec ss1)) (psContainers (ssTemplateSpec ss2)).
Proof.
  intros Hsch Hrun H1 H2.
  destruct (statefulSet_located K G _ _ _ _ _ _ _ _ _ _ Hsch Hrun H1)
    as (i1 & ss1 & Hi1 & Hl1 & Hs).
  destruct (statefulSet_located K G _ _ _ _ _ _ _ _ _ _ Hsch Hrun H2)
    as (i2 & ss2 & Hi2 & Hl2 & _).
  pose proof (createStatefulSetObjects_shape _ _ _ _ _ _ _ _ _ Hs) as Hsh.
  destruct (Forall2_lookup_lr _ _ _ _ _ _ Hsh Hi1 Hl1) as (dep & cs1 & Hdep & -> & R1).
  destruct (Forall2_lookup_lr _ _ _ _ _ _ Hsh Hi2 Hl2) as (dep' & cs2 & Hdep' & -> & R2).
  simpl in Hdep, Hdep', R1, R2. rewrite Hdep in Hdep'. injection Hdep' as <-.
  simpl in Hl1, Hl2.
  exists (statefulSetOf K chi d1
            (podVolumes chi (createPodTemplatesIndex chi) (PodTemplate dep) d1) cs1
            (claimsOf (vcIndexOf K chi) (VolumeClaimTemplate dep))),
    (statefulSetOf K chi d2
       (podVolumes chi (createPodTemplatesIndex chi) (PodTemplate dep) d2) cs2
       (claimsOf (vcIndexOf K chi) (VolumeClaimTemplate dep))),
    (baseVolumes (createPodTemplatesIndex chi) (PodTemplate dep)).
  split_and!; try done.
  - by eapply list_elem_of_lookup_2.
  - by eapply list_elem_of_lookup_2.
  - simpl.
    assert (Forall2 (λ c1 c2, cImage c1 = cImage c2 ∧ cPorts c1 = cPorts c2)
              (baseContainers K (createPodTemplatesIndex chi) (PodTemplate dep)
                 (CreateStatefulSetName d1))
              (baseContainers K (createPodTemplatesIndex chi) (PodTemplate dep)
                 (CreateStatefulSetName d2))) as R0.
    { unfold baseContainers. destruct (createPodTemplatesIndex chi !! PodTemplate dep).
      - by apply Forall_Forall2_diag, Forall_forall.
      - by repeat constructor. }
    apply Forall2_same_length_lookup. split.
    + apply Forall2_length in R0, R1, R2. congruence.
    + intros i c1 c2 Hc1 Hc2.
      destruct (Forall2_lookup_r _ _ _ _ _ R1 Hc1) as (tc1 & Ht1 & ->).
      destruct (Forall2_lookup_r _ _ _ _ _ R2 Hc2) as (tc2 & Ht2 & ->).
      exact (Forall2_lookup_lr _ _ _ _ _ _ R0 Ht1 Ht2).
Qed.

(** In a compile that returns, every Service of the output exposes the three
    ports of the default container, under the same names and in the same
    order. *)
Theorem service_ports_are_the_container_ports sch chi countMax h objs ids chi' h' name s :
  CreateCHIObjects K G sch chi countMax h = Ok (objs, ids, chi', h') →
  Forall (λ svc, (λ p, (spName p, spPort p)) <$> svcPorts svc
                 = (λ p, (cpName p, cpContainerPort p))
                     <$> cPorts (createDefaultContainerTemplate K name s))
         (ObjectsServices objs).
Proof.
  intros (_ & -> & _)%CreateCHIObjects_inv. apply Forall_app. split.
  - by repeat constructor.
  - apply Forall_fmap, Forall_forall. by intros e _.
Qed.

End Fingerprints.

Lemma same_fingerprint_same_templates_witness :
  schedule_ok Bare.schedule (prepareOptions Sample.generators Bare.chi ∅) ∧
  CreateCHIObjects Sample.constants Sample.generators Bare.schedule Bare.chi ∅ []
    = Ok (Bare.objects, Bare.ids, Bare.chiAfterRun, Bare.storeAfterRun) ∧
  fullDeploymentIDToFingerprint (prepareOptions Sample.generators Bare.chi ∅) !! "main-0-0"
    = Some "/" ∧
  fullDeploymentIDToFingerprint (prepareOptions Sample.generators Bare.chi ∅) !! "main-1-0"
    = Some "/" ∧
  ∃ ss1 ss2 base,
    ss1 ∈ ObjectsStatefulSets Bare.objects ∧ isStatefulSetOf "main-0-0" ss1 ∧
    ss2 ∈ ObjectsStatefulSets Bare.objects ∧ isStatefulSetOf "main-1-0" ss2 ∧
    ssVolumeClaimTemplates ss1 = ssVolumeClaimTemplates ss2 ∧
    psVolumes (ssTemplateSpec ss1)
      = base ++ [createVolume (CreateConfigMapCommonName (chiName Bare.chi));
                 createVolume (CreateConfigMapMacrosName (chiName Bare.chi) "main-0-0")] ∧
    psVolumes (ssTemplateSpec ss2)
      = base ++ [createVolume (CreateConfigMapCommonName (chiName Bare.chi));
                 createVolume (CreateConfigMapMacrosName (chiName Bare.chi) "main-1-0")] ∧
    Forall2 (λ c1 c2, cImage c1 = cImage c2 ∧ cPorts c1 = cPorts c2)
      (psContainers (ssTemplateSpec ss1)) (psContainers (ssTemplateSpec ss2)).
Proof.
  pose proof (schedule_ok_scheduleOf (prepareOptions Sample.generators Bare.chi ∅)) as Hsch.
  assert (fullDeploymentIDToFingerprint (prepareOptions Sample.generators Bare.chi ∅)
            !! "main-0-0" = Some "/") as H1 by (vm_compute; reflexivity).
  assert (fullDeploymentIDToFingerprint (prepareOptions Sample.generators Bare.chi ∅)
            !! "main-1-0" = Some "/") as H2 by (vm_compute; reflexivity).
  split; [exact Hsch|]. split; [exact Bare_run_eq|]. split; [exact H1|]. split; [exact H2|].
  exact (same_fingerprint_same_templates Sample.constants Sample.generators
           _ _ _ _ _ _ _ _ _ _ _ Hsch Bare_run_eq H1 H2).
Defined.

Lemma service_ports_are_the_container_ports_witness :
  CreateCHIObjects Sample.constants Sample.generators Sample.schedule Sample.chi ∅ Sample.store
    = Ok (Sample.objects, Sample.ids, Sample.chiAfterRun, Sample.storeAfterRun) ∧
  Forall (λ svc, (λ p, (spName p, spPort p)) <$> svcPorts svc
                 = (λ p, (cpName p, cpContainerPort p))
                     <$> cPorts (createDefaultContainerTemplate Sample.constants
                                   "chi-main-0-0" nilSlice))
         (ObjectsServices Sample.objects).
Proof.
  split; [exact Sample_run_eq|].
  exact (service_ports_are_the_container_ports Sample.constants Sample.generators
           _ _ _ _ _ _ _ _ "chi-main-0-0" nilSlice Sample_run_eq).
Defined.
